(** * QR-code-Decoder: the scanner session and the commit generator

    A shallow embedding of [qr_scanner.py] (class [QRCodeScanner], the
    command-line entry point, and the graphical shell with its handlers and
    its scan threads) and of [generate_commits.py], with the properties of
    their specification.

    Everything the scripts delegate to a library is an input of the model:
    what the camera delivers, what the decoder finds in a pixel buffer, what
    the file system holds, what the clock reads, what the random generator
    draws and what the version-control tool answers. *)

From Stdlib Require Import ZArith List String Ascii Bool Lia Sorted.
From Stdlib Require DecimalString.
From stdpp Require Import base decidable option list sorting gmap strings.

Import ListNotations.
Set Warnings "-register-all".
Set Default Proof Using "Type".
Local Open Scope string_scope.
Local Open Scope list_scope.

(** ** Python's text operations, as far as the two scripts use them *)

Module Py.

(** [str] and [bytes] are both kept as byte strings: a [str] is held in its
    UTF-8 encoding, so equality of texts is equality of their bytes. *)

Definition is_upper (c : ascii) : bool :=
  let n := nat_of_ascii c in (65 <=? n)%nat && (n <=? 90)%nat.

Definition is_lower (c : ascii) : bool :=
  let n := nat_of_ascii c in (97 <=? n)%nat && (n <=? 122)%nat.

Definition lower_char (c : ascii) : ascii :=
  if is_upper c then ascii_of_nat (nat_of_ascii c + 32) else c.

Definition upper_char (c : ascii) : ascii :=
  if is_lower c then ascii_of_nat (nat_of_ascii c - 32) else c.

(** [s.lower()]. Bytes outside ASCII are kept: the only code points beyond
    ASCII whose lower case is an ASCII letter are U+212A (to [k]) and
    U+0130 (to [i] followed by a combining dot), and neither result can
    occur in a text this program compares a lowered string with. *)
Fixpoint lower (s : string) : string :=
  match s with
  | EmptyString => EmptyString
  | String c r => String (lower_char c) (lower r)
  end.

(** [s.capitalize()]: the first character in upper case, the rest lowered. *)
Definition capitalize (s : string) : string :=
  match s with
  | EmptyString => EmptyString
  | String c r => String (upper_char c) (lower r)
  end.

Definition is_space (c : ascii) : bool :=
  let n := nat_of_ascii c in
  ((9 <=? n)%nat && (n <=? 13)%nat) || ((28 <=? n)%nat && (n <=? 32)%nat).

Fixpoint lstrip (s : string) : string :=
  match s with
  | EmptyString => EmptyString
  | String c r => if is_space c then lstrip r else s
  end.

(** Drops the white space at the end: a character stays when it is not a
    space or when something stays after it. *)
Fixpoint rstrip (s : string) : string :=
  match s with
  | EmptyString => EmptyString
  | String c r =>
      match rstrip r with
      | EmptyString => if is_space c then EmptyString else String c EmptyString
      | r' => String c r'
      end
  end.

(** [s.strip()] *)
Definition strip (s : string) : string := rstrip (lstrip s).

Fixpoint startswith (p s : string) : bool :=
  match p, s with
  | EmptyString, _ => true
  | String a p', String b s' => Ascii.eqb a b && startswith p' s'
  | String _ _, EmptyString => false
  end.

(** [sub in s] *)
Fixpoint contains (sub s : string) : bool :=
  startswith sub s ||
  match s with
  | EmptyString => false
  | String _ r => contains sub r
  end.

(** [s.endswith(p)] *)
Fixpoint endswith (p s : string) : bool :=
  String.eqb p s ||
  match s with
  | EmptyString => false
  | String _ r => endswith p r
  end.

(** [s.replace(old, new)] for a non-empty [old]; [fuel] bounds the number
    of characters left to look at. *)
Fixpoint replace_from (fuel : nat) (old new s : string) : string :=
  match fuel with
  | O => s
  | S fuel' =>
      match s with
      | EmptyString => EmptyString
      | String c r =>
          if startswith old s
          then new ++ replace_from fuel' old new
                        (String.substring (String.length old)
                           (String.length s - String.length old) s)
          else String c (replace_from fuel' old new r)
      end
  end.

Definition replace (old new s : string) : string :=
  replace_from (S (String.length s)) old new s.

(** [sep.join(parts)] *)
Fixpoint join (sep : string) (parts : list string) : string :=
  match parts with
  | [] => EmptyString
  | [p] => p
  | p :: rest => p ++ sep ++ join sep rest
  end.

(** [str(n)] for a natural number *)
Definition str_of_nat (n : nat) : string :=
  DecimalString.NilZero.string_of_uint (Nat.to_uint n).

(** The text up to the first line feed. *)
Fixpoint first_line (s : string) : string :=
  match s with
  | EmptyString => EmptyString
  | String c r =>
      if Ascii.eqb c "010"%char then EmptyString else String c (first_line r)
  end.

(** *** UTF-8 *)

Definition byte_in (lo hi : N) (c : ascii) : bool :=
  let n := N_of_ascii c in (lo <=? n)%N && (n <=? hi)%N.

Definition is_cont : ascii -> bool := byte_in 128 191.

(** Well-formed UTF-8 byte sequences, table 3-7 of the Unicode standard. *)
Fixpoint utf8_valid (s : string) : bool :=
  match s with
  | EmptyString => true
  | String b0 r0 =>
      if byte_in 0 127 b0 then utf8_valid r0
      else
        match r0 with
        | EmptyString => false
        | String b1 r1 =>
            if byte_in 194 223 b0 then is_cont b1 && utf8_valid r1
            else
              match r1 with
              | EmptyString => false
              | String b2 r2 =>
                  if byte_in 224 239 b0 then
                    (if byte_in 224 224 b0 then byte_in 160 191 b1
                     else if byte_in 237 237 b0 then byte_in 128 159 b1
                     else is_cont b1)
                    && is_cont b2 && utf8_valid r2
                  else
                    match r2 with
                    | EmptyString => false
                    | String b3 r3 =>
                        byte_in 240 244 b0
                        && (if byte_in 240 240 b0 then byte_in 144 191 b1
                            else if byte_in 244 244 b0 then byte_in 128 143 b1
                            else is_cont b1)
                        && is_cont b2 && is_cont b3 && utf8_valid r3
                    end
              end
        end
  end.

(** [b.decode('utf-8')]: the text, or [None] for [UnicodeDecodeError]. *)
Definition decode_utf8 (b : string) : option string :=
  if utf8_valid b then Some b else None.

(** [s[:n]]: the first [n] code points of a text held in UTF-8. *)
Fixpoint take_chars (n : nat) (s : string) : string :=
  match s with
  | EmptyString => EmptyString
  | String c r =>
      if is_cont c then String c (take_chars n r)
      else match n with
           | O => EmptyString
           | S m => String c (take_chars m r)
           end
  end.

End Py.

(** ** Statements: state and exceptions *)

Module Stmt.

(** An exception carries its message, [str(e)]. *)
Inductive exn :=
| Exception (msg : string)
| KeyboardInterrupt.

Inductive outcome (A : Type) :=
| Ret (a : A)
| Raise (e : exn).
Arguments Ret {A} a.
Arguments Raise {A} e.

(** A statement runs on a state of type [S]; it returns a value or raises,
    and in both cases leaves a state behind. *)
Definition M (S A : Type) : Type := S -> outcome A * S.

Definition ret {S A} (a : A) : M S A := fun w => (Ret a, w).

Definition raise {S A} (e : exn) : M S A := fun w => (Raise e, w).

Definition bind {S A B} (m : M S A) (k : A -> M S B) : M S B :=
  fun w =>
    match m w with
    | (Ret a, w') => k a w'
    | (Raise e, w') => (Raise e, w')
    end.

(** [try: m  except Exception as e: handler(str(e))]; a
    [KeyboardInterrupt] is not an [Exception] and passes through. *)
Definition try_except {S A} (m : M S A) (handler : string -> M S A) : M S A :=
  fun w =>
    match m w with
    | (Raise (Exception msg), w') => handler msg w'
    | r => r
    end.

(** Every run of [m] relates the state it starts in to the state it
    leaves, whether it returns or raises. *)
Definition along {S A} (R : S -> S -> Prop) (m : M S A) : Prop :=
  forall w, R w (snd (m w)).

Declare Scope py_scope.
Delimit Scope py_scope with py.
Notation "'let!' x ':=' m 'in' k" := (bind m (fun x => k))
  (at level 10, x pattern, m at level 100, k at level 200) : py_scope.
Notation "m ';;;' k" := (bind m (fun _ => k))
  (at level 100, k at level 200, right associativity) : py_scope.

End Stmt.

(** ** The scanner of [qr_scanner.py] *)

Module Scanner.

Import Stmt.
Local Open Scope py_scope.

(** *** Data model *)

(** A [datetime] is a point of the wall clock, in microseconds. *)
Definition datetime := Z.

Record Rect := { left : Z; top : Z; width : Z; height : Z }.

(** What [pyzbar.decode] reports for one symbol. *)
Record Decoded := {
  zdata : string;                 (* bytes *)
  ztype : string;
  zrect : Rect;
  zpolygon : list (Z * Z)
}.

(** The decoded-code record built by [_decode_qr_codes]. The dictionary
    stores [datetime.now().isoformat()]; the record keeps the datetime that
    text is printed from, and the text is produced when the record is
    written out. *)
Record record := {
  data : string;
  type : string;
  rect : Rect;
  polygon : list (Z * Z);
  source : string;
  timestamp : datetime
}.

(** A pixel buffer is opaque: it is what the decoder finds in it, or the
    failure the decoder raises on it. *)
Inductive image :=
| Pixels (found : list Decoded)
| BadPixels (why : string).

(** A file system: a file is an image [cv2.imread] loads, or something it
    does not load; a directory lists its entries in the order the
    operating system enumerates them. In a real directory the names are
    pairwise different; nothing below depends on it. *)
Inductive node :=
| File (content : option image)
| Dir (entries : list (string * node)).

Definition path := list string.

(** [str(path)]; the empty path is the directory the process runs in. *)
Definition str_of_path (p : path) : string :=
  match p with
  | [] => "."
  | _ => Py.join "/" p
  end.

Fixpoint find_entry (name : string) (es : list (string * node)) : option node :=
  match es with
  | [] => None
  | (n, c) :: rest => if String.eqb n name then Some c else find_entry name rest
  end.

Fixpoint resolve (p : path) (n : node) : option node :=
  match p with
  | [] => Some n
  | name :: rest =>
      match n with
      | File _ => None
      | Dir es =>
          match find_entry name es with
          | Some c => resolve rest c
          | None => None
          end
      end
  end.

Inductive levelname := INFO | ERROR.

(** The object [cv2.VideoCapture(0)] returns. *)
Record VideoCapture := { isOpened : bool }.

Inductive read_result :=
| ReadRaises (e : exn)
| ReadEnd                       (* ret is False *)
| ReadOk (frame : image).

(** How the preview step of a turn ends: drawing the boxes, showing the
    frame or waiting for a key raised, or [cv2.waitKey(1)] returned. *)
Inductive key_result :=
| KeyRaises (e : exn)
| Key (code : Z).

(** One turn of the frame loop as the camera and the preview window
    answer it. *)
Record iteration := { read : read_result; key : key_result }.

(** What the camera does during one call of [scan_webcam]: how opening it
    ends, and the frames it then delivers; a feed that runs out reads as
    the end of the stream. *)
Record device := { opening : outcome bool; feed : list iteration }.

Inductive json :=
| JInt (n : Z)
| JStr (s : string)
| JArr (items : list json)
| JObj (members : list (string * json)).

Inductive document :=
| JsonDoc (value : json)
| TextDoc (lines : list string).

Record QRCodeScanner := {
  output_file : option string;
  results : list record;
  camera : option VideoCapture
}.

(** [QRCodeScanner.__init__] *)
Definition init (output : option string) : QRCodeScanner :=
  {| output_file := output; results := []; camera := None |}.

(** The scanner together with what the process has done so far: the
    number of clock readings taken, the log, the standard output and the
    files written. *)
Record World := {
  self : QRCodeScanner;
  ticks : nat;
  log : list (levelname * string);
  stdout : list string;
  written : list (string * document)
}.

Definition boot (output : option string) : World :=
  {| self := init output; ticks := 0; log := []; stdout := []; written := [] |}.

(** *** Access to the state *)

Abbreviation M := (Stmt.M World).

Definition update_self (f : QRCodeScanner -> QRCodeScanner) : M unit :=
  fun w =>
    (Ret tt, {| self := f (self w); ticks := ticks w; log := log w;
                stdout := stdout w; written := written w |}).

Definition get_self : M QRCodeScanner := fun w => (Ret (self w), w).

Definition logger (lvl : levelname) (msg : string) : M unit :=
  fun w =>
    (Ret tt, {| self := self w; ticks := ticks w; log := log w ++ [(lvl, msg)];
                stdout := stdout w; written := written w |}).

Definition print (line : string) : M unit :=
  fun w =>
    (Ret tt, {| self := self w; ticks := ticks w; log := log w;
                stdout := stdout w ++ [line]; written := written w |}).

Definition write_file (filename : string) (doc : document) : M unit :=
  fun w =>
    (Ret tt, {| self := self w; ticks := ticks w; log := log w;
                stdout := stdout w; written := written w ++ [(filename, doc)] |}).

Definition set_camera (c : option VideoCapture) : M unit :=
  update_self (fun s =>
    {| output_file := output_file s; results := results s; camera := c |}).

Definition set_results (rs : list record) : M unit :=
  update_self (fun s =>
    {| output_file := output_file s; results := rs; camera := camera s |}).

(** [self.results.append(code)] *)
Definition results_append (code : record) : M unit :=
  update_self (fun s =>
    {| output_file := output_file s; results := results s ++ [code];
       camera := camera s |}).

(** [self.results.extend(codes)] *)
Definition results_extend (codes : list record) : M unit :=
  update_self (fun s =>
    {| output_file := output_file s; results := results s ++ codes;
       camera := camera s |}).

(** The parsed command line. [image] and [directory] are [None] when the
    flag is absent or empty. *)
Record Args := {
  arg_webcam : bool;
  arg_image : option path;
  arg_directory : option path;
  arg_recursive : bool;
  arg_output : option string;
  arg_duration : Z;
  arg_no_preview : bool;
  arg_gui : bool
}.

(** How [main] ends: in the graphical shell, or with a process status. *)
Inductive ending :=
| GuiLaunched
| Exit (status : Z).

(** The user's actions in the graphical shell, with what the dialogs and
    the camera answer. *)
Inductive action :=
| ScanWebcam (dev : device)
| ScanImageFile (filename : option path)
| ScanDirectory (directory : option path)
| ClearResults
| ExportResults (filename : option string).

(** *** The operations of [QRCodeScanner] *)

Section Operations.

(** The wall clock: [clock i] is what the [i]-th call of
    [datetime.now()] in this process returns. *)
Variable clock : nat -> datetime.

(** [datetime.isoformat] and [datetime.strftime]. *)
Variable isoformat : datetime -> string.
Variable strftime : string -> datetime -> string.

(** The file system the scans read, given by its root, and the file
    names [open(filename, 'w')] accepts. Exported documents are kept in
    the world's list of written files. *)
Variable fs : node.
Variable writable : string -> bool.

(** [datetime.now()] *)
Definition now : M datetime :=
  fun w =>
    (Ret (clock (ticks w)),
     {| self := self w; ticks := S (ticks w); log := log w;
        stdout := stdout w; written := written w |}).

(** [os.path.exists] *)
Definition exists_ (p : path) : bool :=
  match resolve p fs with Some _ => true | None => false end.

(** [cv2.imread]: the pixel buffer, or [None] for anything that is not a
    readable image (a directory, a missing or a damaged file). *)
Definition imread (p : path) : option image :=
  match resolve p fs with
  | Some (File (Some img)) => Some img
  | _ => None
  end.

(** [pyzbar.decode] *)
Definition pyzbar_decode (img : image) : M (list Decoded) :=
  match img with
  | Pixels found => ret found
  | BadPixels why => raise (Exception why)
  end.

(** The loop of [_decode_qr_codes]: one record per symbol, in the
    decoder's order, each with its own clock reading. *)
Fixpoint decode_each (codes : list Decoded) (source : string)
    (results : list record) : M (list record) :=
  match codes with
  | [] => ret results
  | code :: rest =>
      match Py.decode_utf8 (zdata code) with
      | None => raise (Exception "'utf-8' codec can't decode bytes")
      | Some text =>
          let! t := now in
          decode_each rest source
            (results ++ [{| data := text; type := ztype code;
                            rect := zrect code; polygon := zpolygon code;
                            source := source; timestamp := t |}])
      end
  end.

Definition _decode_qr_codes (img : image) (source : string) : M (list record) :=
  let! codes := pyzbar_decode img in
  decode_each codes source [].

Definition scan_image (image_path : path) : M (list record) :=
  try_except
    (if negb (exists_ image_path) then
       logger ERROR ("Image file not found: " ++ str_of_path image_path) ;;;
       ret []
     else
       match imread image_path with
       | None =>
           logger ERROR ("Failed to load image: " ++ str_of_path image_path) ;;;
           ret []
       | Some img => _decode_qr_codes img (str_of_path image_path)
       end)
    (fun msg =>
       logger ERROR ("Error scanning image " ++ str_of_path image_path
                     ++ ": " ++ msg) ;;;
       ret []).

(** [self._release_camera()] *)
Definition _release_camera : M unit :=
  let! s := get_self in
  match camera s with
  | Some _ => set_camera None
  | None => ret tt
  end.

(** The [for code in codes] loop of [scan_webcam]: a record is kept when
    its text is not empty and not yet in [detected_codes]. *)
Fixpoint keep_new (codes : list record) (detected_codes : gset string)
    : M (gset string) :=
  match codes with
  | [] => ret detected_codes
  | code :: rest =>
      let code_str := data code in
      if negb (String.eqb code_str "")
         && negb (bool_decide (code_str ∈ detected_codes))
      then
        results_append code ;;;
        logger INFO ("QR Code detected: " ++ Py.take_chars 50 code_str ++ "...") ;;;
        keep_new rest ({[ code_str ]} ∪ detected_codes)
      else keep_new rest detected_codes
  end.

(** The [while True] loop of [scan_webcam], one turn per element of the
    feed. [duration] is in seconds, the clock in microseconds. *)
Fixpoint frame_loop (frames : list iteration) (duration : Z)
    (show_preview : bool) (start_time : datetime)
    (detected_codes : gset string) : M unit :=
  match frames with
  | [] => ret tt
  | turn :: rest =>
      match read turn with
      | ReadRaises e => raise e
      | ReadEnd => ret tt
      | ReadOk frame =>
          let! expired :=
            (if (0 <? duration)%Z then
               let! t := now in
               ret (duration * 1000000 <=? t - start_time)%Z
             else ret false) in
          if expired then ret tt
          else
            let! codes := _decode_qr_codes frame "webcam" in
            let! detected_codes := keep_new codes detected_codes in
            if show_preview then
              match key turn with
              | KeyRaises e => raise e
              | Key code =>
                  if (Z.land code 255 =? 113)%Z then ret tt
                  else frame_loop rest duration show_preview start_time
                         detected_codes
              end
            else frame_loop rest duration show_preview start_time
                   detected_codes
      end
  end.

(** [cv2.VideoCapture(0)] followed by the assignment to [self.camera]. *)
Definition open_camera (dev : device) : M VideoCapture :=
  match opening dev with
  | Raise e => raise e
  | Ret opened =>
      let cam := {| isOpened := opened |} in
      set_camera (Some cam) ;;; ret cam
  end.

Definition scan_webcam (dev : device) (duration : Z) (show_preview : bool)
    : M (list record) :=
  try_except
    (let! cam := open_camera dev in
     if negb (isOpened cam) then
       logger ERROR "Failed to open camera" ;;;
       ret []
     else
       logger INFO "Starting webcam scan... Press 'q' to quit" ;;;
       let! start_time := now in
       frame_loop (feed dev) duration show_preview start_time ∅ ;;;
       (* cv2.destroyAllWindows() when show_preview: no state of the model *)
       _release_camera ;;;
       let! s := get_self in
       ret (results s))
    (fun msg =>
       logger ERROR ("Error during webcam scan: " ++ msg) ;;;
       _release_camera ;;;
       ret []).

(** *** Scanning a directory *)

Definition supported_formats : gset string :=
  {[ ".jpg"; ".jpeg"; ".png"; ".bmp"; ".tiff"; ".tif"; ".gif" ]}.

(** [s.rfind(c)] *)
Fixpoint rfind (c : ascii) (s : string) : option nat :=
  match s with
  | EmptyString => None
  | String a r =>
      match rfind c r with
      | Some i => Some (S i)
      | None => if Ascii.eqb a c then Some 0 else None
      end
  end.

(** [PurePath.name]: the last component. *)
Definition name (p : path) : string := List.last p "".

(** [PurePath.suffix]: from the last dot of the name on, when that dot is
    neither the first nor the last character of the name (and the empty
    text otherwise). *)
Definition suffix (p : path) : string :=
  let n := name p in
  match rfind "." n with
  | Some i =>
      if ((0 <? i) && (i <? String.length n - 1))%nat
      then String.substring i (String.length n - i) n
      else ""
  | None => ""
  end.

(** The directories below and including [n], parents first, each with its
    entries: the walk behind the pattern [**]. *)
Fixpoint iterate_directories (p : path) (n : node)
    : list (path * list (string * node)) :=
  match n with
  | File _ => []
  | Dir es =>
      (p, es) ::
      List.flat_map
        (fun e => match e with (nm, c) => iterate_directories (p ++ [nm]) c end)
        es
  end.

(** The entries of one directory: the pattern [*]. Files and directories
    alike are entries. *)
Definition children (d : path * list (string * node)) : list path :=
  List.map (fun e => fst d ++ [fst e]) (snd d).

(** [Path(directory).glob(pattern)] for the two patterns of
    [scan_directory], [**/*] and [*]; a path that is not a directory has
    nothing to enumerate. *)
Definition glob (directory : path) (recursive : bool) : list path :=
  match resolve directory fs with
  | Some (Dir es) =>
      if recursive
      then List.flat_map children (iterate_directories directory (Dir es))
      else children (directory, es)
  | _ => []
  end.

Definition is_image_file (f : path) : bool :=
  bool_decide (Py.lower (suffix f) ∈ supported_formats).

Definition image_files (directory : path) (recursive : bool) : list path :=
  List.filter is_image_file (glob directory recursive).

(** The [for image_file in image_files] loop with its local [results];
    an exception leaves the loop with what was gathered so far. *)
Fixpoint scan_files (files : list path) (results : list record) (w : World)
    : (list record * option exn) * World :=
  match files with
  | [] => ((results, None), w)
  | image_file :: rest =>
      match (logger INFO ("Scanning: " ++ str_of_path image_file) ;;;
             scan_image image_file) w with
      | (Ret codes, w') => scan_files rest (results ++ codes) w'
      | (Raise e, w') => ((results, Some e), w')
      end
  end.

Definition scan_directory (directory : path) (recursive : bool)
    : M (list record) :=
  if negb (exists_ directory) then
    logger ERROR ("Directory not found: " ++ str_of_path directory) ;;;
    ret []
  else
    let files := image_files directory recursive in
    logger INFO ("Found " ++ Py.str_of_nat (List.length files)
                 ++ " image files to scan") ;;;
    fun w =>
      match scan_files files [] w with
      | ((results, None), w') => (Ret results, w')
      | ((results, Some (Exception msg)), w') =>
          (logger ERROR ("Error scanning directory: " ++ msg) ;;;
           ret results) w'
      | ((_, Some KeyboardInterrupt), w') => (Raise KeyboardInterrupt, w')
      end.

(** *** Export *)

Definition json_of_record (r : record) : json :=
  JObj [ ("data", JStr (data r));
         ("type", JStr (type r));
         ("rect", JObj [ ("left", JInt (left (rect r)));
                         ("top", JInt (top (rect r)));
                         ("width", JInt (width (rect r)));
                         ("height", JInt (height (rect r))) ]);
         ("polygon",
          JArr (List.map (fun pt => JArr [JInt (fst pt); JInt (snd pt)])
                  (polygon r)));
         ("source", JStr (source r));
         ("timestamp", JStr (isoformat (timestamp r))) ].

(** [x or y] on an optional text: [None] and the empty text are false. *)
Definition truthy (o : option string) : bool :=
  match o with
  | Some s => negb (String.eqb s "")
  | None => false
  end.

(** [with open(filename, 'w', encoding='utf-8') as f: ...] *)
Definition open_and_write (filename : string) (doc : document) : M unit :=
  if writable filename then write_file filename doc
  else raise (Exception ("[Errno 13] Permission denied: '" +:+ filename +:+ "'")).

Definition save_results (filename : option string) : M string :=
  let! s := get_self in
  let! filename :=
    (match filename with
     | Some f => ret f
     | None =>
         match output_file s with
         | Some f => if truthy (Some f) then ret f
                     else let! t := now in
                          ret ("qr_results_" +:+ strftime "%Y%m%d_%H%M%S" t +:+ ".json")
         | None => let! t := now in
                   ret ("qr_results_" +:+ strftime "%Y%m%d_%H%M%S" t +:+ ".json")
         end
     end) in
  let! scan_date := now in
  let output :=
    JObj [ ("scan_date", JStr (isoformat scan_date));
           ("total_codes", JInt (Z.of_nat (List.length (results s))));
           ("results", JArr (List.map json_of_record (results s))) ] in
  open_and_write filename (JsonDoc output) ;;;
  logger INFO ("Results saved to " +:+ filename) ;;;
  ret filename.

(** ["=" * 50] and the like *)
Fixpoint times (s : string) (n : nat) : string :=
  match n with
  | O => ""
  | S m => s +:+ times s m
  end.

Definition LF : string := String "010"%char EmptyString.

(** The writes of the [for i, result in enumerate(self.results, 1)] loop
    of [export_to_text]. *)
Fixpoint text_blocks (i : nat) (rs : list record) : list string :=
  match rs with
  | [] => []
  | result :: rest =>
      [ "Code #" +:+ Py.str_of_nat i +:+ LF;
        "Data: " +:+ data result +:+ LF;
        "Type: " +:+ type result +:+ LF;
        "Source: " +:+ source result +:+ LF;
        "Timestamp: " +:+ isoformat (timestamp result) +:+ LF;
        times "-" 50 +:+ LF +:+ LF ]
      ++ text_blocks (S i) rest
  end.

Definition export_to_text (filename : option string) : M string :=
  let! s := get_self in
  let! filename :=
    (match filename with
     | Some f => ret f
     | None => let! t := now in
               ret ("qr_results_" +:+ strftime "%Y%m%d_%H%M%S" t +:+ ".txt")
     end) in
  if writable filename then
    let! date := now in
    write_file filename
      (TextDoc ([ "QR Code Scan Results" +:+ LF;
                  "Date: " +:+ strftime "%Y-%m-%d %H:%M:%S" date +:+ LF;
                  "Total Codes Found: "
                    +:+ Py.str_of_nat (List.length (results s)) +:+ LF;
                  times "=" 50 +:+ LF +:+ LF ]
                ++ text_blocks 1 (results s))) ;;;
    logger INFO ("Results exported to " +:+ filename) ;;;
    ret filename
  else raise (Exception ("[Errno 13] Permission denied: '" +:+ filename +:+ "'")).

(** *** The command-line entry point *)

(** The [for i, code in enumerate(scanner.results, 1)] loop of [main]. *)
Fixpoint display (i : nat) (rs : list record) : M unit :=
  match rs with
  | [] => ret tt
  | code :: rest =>
      print (LF +:+ "Code #" +:+ Py.str_of_nat i +:+ ":") ;;;
      print ("  Data: " +:+ data code) ;;;
      print ("  Type: " +:+ type code) ;;;
      print ("  Source: " +:+ source code) ;;;
      display (S i) rest
  end.

Definition export (out : string) : M unit :=
  if Py.endswith ".txt" out
  then export_to_text (Some out) ;;; ret tt
  else save_results (Some out) ;;; ret tt.

(** The body of the [try] of [main]. *)
Definition cli (args : Args) (dev : device) : M unit :=
  (if arg_webcam args then
     let! codes := scan_webcam dev (arg_duration args)
                     (negb (arg_no_preview args)) in
     print (LF +:+ "Detected " +:+ Py.str_of_nat (List.length codes)
            +:+ " QR code(s)")
   else
     match arg_image args with
     | Some img =>
         let! codes := scan_image img in
         print (LF +:+ "Detected " +:+ Py.str_of_nat (List.length codes)
                +:+ " QR code(s) in " +:+ str_of_path img)
     | None =>
         match arg_directory args with
         | Some d =>
             let! codes := scan_directory d (arg_recursive args) in
             print (LF +:+ "Detected " +:+ Py.str_of_nat (List.length codes)
                    +:+ " QR code(s) in directory")
         | None => ret tt
         end
     end) ;;;
  let! s := get_self in
  display 1 (results s) ;;;
  match arg_output args with
  | Some out =>
      if truthy (Some out) then export out
      else match results s with
           | [] => ret tt
           | _ => save_results None ;;; ret tt
           end
  | None =>
      match results s with
      | [] => ret tt
      | _ => save_results None ;;; ret tt
      end
  end.

Definition wants_gui (args : Args) : bool :=
  arg_gui args
  || (negb (arg_webcam args)
      && negb (bool_decide (is_Some (arg_image args)))
      && negb (bool_decide (is_Some (arg_directory args)))).

(** [main()], from a fresh process. *)
Definition main (args : Args) (dev : device) : ending * World :=
  if wants_gui args then (GuiLaunched, boot None)
  else
    match cli args dev (boot (arg_output args)) with
    | (Ret _, w) => (Exit 0, w)
    | (Raise KeyboardInterrupt, w) =>
        (Exit 0,
         snd ((print (LF +:+ "Scan interrupted by user") ;;;
               _release_camera) w))
    | (Raise (Exception msg), w) =>
        (Exit 1, snd (logger ERROR ("Error: " +:+ msg) w))
    end.

End Operations.

End Scanner.

(** ** The commit generator of [generate_commits.py] *)

Module Commits.

Import Stmt.
Local Open Scope py_scope.

(** *** The tables of the module *)

Definition COMMIT_TYPES : list string :=
  [ "feat";
    "fix";
    "docs";
    "style";
    "refactor";
    "perf";
    "test";
    "chore";
    "build";
    "ci";
    "revert" ].

Definition SCOPES : list string :=
  [ "scanner";
    "webcam";
    "image";
    "cli";
    "gui";
    "export";
    "logging";
    "error-handling";
    "utils";
    "config";
    "deps";
    "docs";
    "tests" ].

Definition FEAT_MESSAGES : list string :=
  [ "add {scope} functionality";
    "implement {scope} feature";
    "introduce {scope} support";
    "add new {scope} capabilities";
    "implement {scope} module";
    "add {scope} integration";
    "create {scope} component";
    "add {scope} feature with validation";
    "implement advanced {scope} features";
    "add {scope} with error handling";
    "introduce {scope} API";
    "add {scope} configuration options";
    "implement {scope} with logging";
    "add {scope} export functionality";
    "create {scope} interface";
    "add {scope} batch processing";
    "implement {scope} preview mode";
    "add {scope} real-time processing";
    "introduce {scope} optimization";
    "add {scope} multi-threading support" ].

Definition FIX_MESSAGES : list string :=
  [ "fix {scope} bug";
    "resolve {scope} issue";
    "fix {scope} error handling";
    "correct {scope} logic";
    "fix {scope} memory leak";
    "resolve {scope} race condition";
    "fix {scope} edge case";
    "correct {scope} validation";
    "fix {scope} performance issue";
    "resolve {scope} compatibility issue";
    "fix {scope} timeout handling";
    "correct {scope} exception handling";
    "fix {scope} resource cleanup";
    "resolve {scope} encoding issue";
    "fix {scope} camera initialization";
    "correct {scope} file path handling";
    "fix {scope} thread safety";
    "resolve {scope} buffer overflow";
    "fix {scope} image format detection";
    "correct {scope} coordinate calculation" ].

Definition DOCS_MESSAGES : list string :=
  [ "update {scope} documentation";
    "add {scope} usage examples";
    "improve {scope} README";
    "document {scope} API";
    "add {scope} installation guide";
    "update {scope} code comments";
    "improve {scope} inline documentation";
    "add {scope} troubleshooting section";
    "document {scope} configuration";
    "update {scope} changelog";
    "add {scope} architecture docs";
    "improve {scope} user guide";
    "document {scope} best practices";
    "add {scope} API reference";
    "update {scope} examples";
    "improve {scope} documentation structure";
    "add {scope} contribution guidelines";
    "document {scope} error codes";
    "update {scope} performance notes";
    "add {scope} deployment guide" ].

Definition STYLE_MESSAGES : list string :=
  [ "format {scope} code";
    "apply code style to {scope}";
    "clean up {scope} formatting";
    "standardize {scope} code style";
    "fix {scope} linting issues";
    "improve {scope} code readability";
    "refactor {scope} formatting";
    "apply PEP8 to {scope}";
    "clean up {scope} whitespace";
    "standardize {scope} naming";
    "fix {scope} indentation";
    "improve {scope} code structure";
    "format {scope} imports";
    "clean up {scope} comments";
    "standardize {scope} docstrings" ].

Definition REFACTOR_MESSAGES : list string :=
  [ "refactor {scope} module";
    "restructure {scope} code";
    "improve {scope} architecture";
    "optimize {scope} structure";
    "refactor {scope} functions";
    "restructure {scope} classes";
    "improve {scope} design patterns";
    "refactor {scope} error handling";
    "optimize {scope} code organization";
    "restructure {scope} components";
    "improve {scope} separation of concerns";
    "refactor {scope} initialization";
    "optimize {scope} data flow";
    "restructure {scope} file structure";
    "improve {scope} modularity" ].

Definition PERF_MESSAGES : list string :=
  [ "optimize {scope} performance";
    "improve {scope} speed";
    "reduce {scope} memory usage";
    "optimize {scope} processing";
    "improve {scope} efficiency";
    "reduce {scope} CPU usage";
    "optimize {scope} algorithm";
    "improve {scope} response time";
    "reduce {scope} latency";
    "optimize {scope} resource usage";
    "improve {scope} throughput";
    "reduce {scope} overhead";
    "optimize {scope} image processing";
    "improve {scope} frame rate";
    "reduce {scope} processing time" ].

Definition TEST_MESSAGES : list string :=
  [ "add {scope} unit tests";
    "implement {scope} test suite";
    "add {scope} integration tests";
    "improve {scope} test coverage";
    "add {scope} test cases";
    "implement {scope} test fixtures";
    "add {scope} mock tests";
    "improve {scope} test reliability";
    "add {scope} edge case tests";
    "implement {scope} performance tests";
    "add {scope} regression tests";
    "improve {scope} test documentation";
    "add {scope} test utilities";
    "implement {scope} test automation";
    "add {scope} validation tests" ].

Definition CHORE_MESSAGES : list string :=
  [ "update {scope} dependencies";
    "bump {scope} version";
    "clean up {scope} files";
    "update {scope} configuration";
    "improve {scope} build process";
    "update {scope} gitignore";
    "clean up {scope} temporary files";
    "update {scope} license";
    "improve {scope} project structure";
    "update {scope} CI/CD";
    "clean up {scope} unused code";
    "update {scope} metadata";
    "improve {scope} deployment";
    "update {scope} scripts";
    "clean up {scope} artifacts" ].

Definition BUILD_MESSAGES : list string :=
  [ "update {scope} build configuration";
    "improve {scope} build process";
    "fix {scope} build errors";
    "optimize {scope} build time";
    "update {scope} build dependencies";
    "improve {scope} build scripts";
    "fix {scope} compilation issues";
    "update {scope} build tools";
    "improve {scope} packaging";
    "fix {scope} build warnings" ].

Definition CI_MESSAGES : list string :=
  [ "update {scope} CI pipeline";
    "improve {scope} CI configuration";
    "add {scope} CI tests";
    "fix {scope} CI failures";
    "optimize {scope} CI workflow";
    "update {scope} CI dependencies";
    "improve {scope} CI reporting";
    "add {scope} CI validation";
    "fix {scope} CI timeout";
    "update {scope} CI environment" ].

(** The dictionary from commit types to their templates. *)
Definition MESSAGE_TEMPLATES : gmap string (list string) :=
  list_to_map
    [ ("feat", FEAT_MESSAGES);
      ("fix", FIX_MESSAGES);
      ("docs", DOCS_MESSAGES);
      ("style", STYLE_MESSAGES);
      ("refactor", REFACTOR_MESSAGES);
      ("perf", PERF_MESSAGES);
      ("test", TEST_MESSAGES);
      ("chore", CHORE_MESSAGES);
      ("build", BUILD_MESSAGES);
      ("ci", CI_MESSAGES);
      ("revert", ["revert {scope} changes"; "undo {scope} modification"]) ].

Definition DETAILED_MESSAGES : list string :=
  [ "with improved error handling";
    "with comprehensive logging";
    "with unit tests";
    "with performance optimizations";
    "with better documentation";
    "following best practices";
    "with enhanced security";
    "with input validation";
    "with proper error messages";
    "with code comments";
    "with type hints";
    "with async support";
    "with caching mechanism";
    "with retry logic";
    "with timeout handling";
    "with resource cleanup";
    "with memory optimization";
    "with thread safety";
    "with exception handling";
    "with validation checks" ].

(** *** The process and its surroundings *)

(** How [subprocess.run] ends: the command ran and left a return code and
    its two captured streams, or it could not be run at all. *)
Inductive run_result :=
| Completed (returncode : Z) (out err : string)
| NotRun (msg : string).

Record World := {
  draws : list N;                          (* what the random generator yields *)
  ticks : nat;                             (* clock readings taken *)
  git_dir : bool;                          (* Path(".git").exists() *)
  commit_history : option (list string);   (* the writes to commit_history.txt *)
  answers : list run_result;               (* what the commands to come answer *)
  commands : list string;                  (* the commands issued so far *)
  stdout : list string
}.

Abbreviation M := (Stmt.M World).

Definition LF : string := String "010"%char EmptyString.
Definition QUOTE : string := String "034"%char EmptyString.

Definition print (line : string) : M unit :=
  fun w =>
    (Ret tt, {| draws := draws w; ticks := ticks w; git_dir := git_dir w;
                commit_history := commit_history w; answers := answers w;
                commands := commands w; stdout := stdout w ++ [line] |}).

(** One raw draw of the generator; a generator that has run dry yields 0. *)
Definition draw : M N :=
  fun w =>
    (Ret (List.hd 0%N (draws w)),
     {| draws := List.tl (draws w); ticks := ticks w; git_dir := git_dir w;
        commit_history := commit_history w; answers := answers w;
        commands := commands w; stdout := stdout w |}).

(** [random.choice(seq)] *)
Definition choice (seq : list string) : M string :=
  match seq with
  | [] => raise (Exception "Cannot choose from an empty sequence")
  | _ =>
      let! n := draw in
      ret (List.nth (N.to_nat (n mod N.of_nat (List.length seq))) seq "")
  end.

(** [random.random() < p] for the double [p] = [num] / 2^54; the draw is
    the numerator of a multiple of 2^-53 in the unit interval. *)
Definition random_below (num : N) : M bool :=
  let! n := draw in
  ret (2 * (n mod 2 ^ 53) <? num)%N.

(** The doubles written [0.3] and [0.2], as numerators over 2^54. *)
Definition p_0_3 : N := 5404319552844595.
Definition p_0_2 : N := 3602879701896397.

(** [random.randint(a, b)] for [a <= b] *)
Definition randint (a b : nat) : M nat :=
  let! n := draw in
  ret (a + N.to_nat (n mod N.of_nat (b - a + 1))).

(** [template.format(scope=scope)] for a template whose only braces are
    those of [{scope}]. *)
Definition format (template scope : string) : string :=
  Py.replace "{scope}" scope template.

Definition generate_commit_message : M string :=
  let! commit_type := choice COMMIT_TYPES in
  let! scope := choice SCOPES in
  let templates := default FEAT_MESSAGES (MESSAGE_TEMPLATES !! commit_type) in
  let! template := choice templates in
  let message := format template scope in
  let! message :=
    (let! detailed := random_below p_0_3 in
     if detailed then
       let! detail := choice DETAILED_MESSAGES in
       ret (message +:+ " " +:+ detail)
     else ret message) in
  let message := Py.capitalize message in
  let full_message := commit_type +:+ "(" +:+ scope +:+ "): " +:+ message in
  let! with_body := random_below p_0_2 in
  if with_body then
    let! issue := randint 1 100 in
    let body_options :=
      [ LF +:+ LF +:+ "This change improves the " +:+ scope
          +:+ " functionality by" +:+ LF
          +:+ "implementing better error handling and validation.";
        LF +:+ LF +:+ "Closes #" +:+ Py.str_of_nat issue;
        LF +:+ LF +:+ "BREAKING CHANGE: " +:+ scope +:+ " API has been updated.";
        LF +:+ LF +:+ "This update enhances " +:+ scope
          +:+ " performance and reliability." ] in
    let! body := choice body_options in
    ret (full_message +:+ body)
  else ret full_message.

Section Run.

Variable clock : nat -> Z.
Variable isoformat : Z -> string.

Definition now : M Z :=
  fun w =>
    (Ret (clock (ticks w)),
     {| draws := draws w; ticks := S (ticks w); git_dir := git_dir w;
        commit_history := commit_history w; answers := answers w;
        commands := commands w; stdout := stdout w |}).

(** A write to [commit_history.txt], which creates the file if needed. *)
Definition write_history (chunks : list string) : M unit :=
  fun w =>
    (Ret tt,
     {| draws := draws w; ticks := ticks w; git_dir := git_dir w;
        commit_history := Some (default [] (commit_history w) ++ chunks);
        answers := answers w; commands := commands w; stdout := stdout w |}).

Definition make_dummy_change : M string :=
  let dummy_file := "commit_history.txt" in
  fun w =>
    match commit_history w with
    | Some _ =>
        (let! t := now in
         write_history [isoformat t +:+ LF] ;;;
         ret dummy_file) w
    | None =>
        (let! t := now in
         write_history [ "Commit History" +:+ LF;
                         Scanner.times "=" 50 +:+ LF;
                         isoformat t +:+ LF ] ;;;
         ret dummy_file) w
    end.

(** [subprocess.run(command, shell=True, capture_output=True, text=True,
    check=check)]: the command is recorded and the next answer taken; a
    shell with no answer left completes with empty streams. With [check],
    a return code other than 0 is a [CalledProcessError], which
    [run_git_command] catches itself. *)
Definition subprocess_run (command : string) : M run_result :=
  fun w =>
    (Ret (List.hd (Completed 0 "" "") (answers w)),
     {| draws := draws w; ticks := ticks w; git_dir := git_dir w;
        commit_history := commit_history w; answers := List.tl (answers w);
        commands := commands w ++ [command]; stdout := stdout w |}).

Definition run_git_command (command : string) (check : bool)
    : M (option string * string) :=
  let! r := subprocess_run command in
  match r with
  | NotRun msg => raise (Exception msg)
  | Completed returncode out err =>
      if check && negb (returncode =? 0)%Z then
        print ("Error running command: " +:+ command) ;;;
        print ("Error: " +:+ err) ;;;
        ret (None, err)
      else ret (Some (Py.strip out), Py.strip err)
  end.

Definition initialize_git : M unit :=
  fun w =>
    if negb (git_dir w) then
      (print "Initializing git repository..." ;;;
       run_git_command "git init" true ;;;
       run_git_command
         ("git config user.name " +:+ QUOTE +:+ "QR Scanner Developer" +:+ QUOTE)
         true ;;;
       run_git_command
         ("git config user.email " +:+ QUOTE +:+ "developer@qrscanner.dev"
          +:+ QUOTE) true ;;;
       print "Git repository initialized.") w
    else print "Git repository already initialized." w.

Definition commit_command (commit_message : string) : string :=
  "git commit -m " +:+ QUOTE +:+ commit_message +:+ QUOTE.

(** The body of the [try] of one turn of the loop of [create_commits];
    it returns the new value of [commits_created]. *)
Definition attempt (i commits_created : nat) : M nat :=
  let! commit_message := generate_commit_message in
  let! dummy_file := make_dummy_change in
  run_git_command ("git add " +:+ dummy_file) true ;;;
  let! (_, stderr) := run_git_command (commit_command commit_message) false in
  if negb (Py.contains "nothing to commit" (Py.lower stderr)) then
    let commits_created := S commits_created in
    (if (commits_created mod 10 =? 0)%nat
     then print ("Created " +:+ Py.str_of_nat commits_created +:+ " commits...")
     else ret tt) ;;;
    ret commits_created
  else
    write_history ["Update " +:+ Py.str_of_nat i +:+ LF] ;;;
    run_git_command ("git add " +:+ dummy_file) true ;;;
    run_git_command (commit_command commit_message) false ;;;
    ret (S commits_created).

(** One turn: an exception prints a line and the loop goes on with
    [commits_created] as it was. *)
Definition turn (i commits_created : nat) : M nat :=
  try_except (attempt i commits_created)
    (fun msg =>
       print ("Error creating commit " +:+ Py.str_of_nat (i + 1) +:+ ": " +:+ msg) ;;;
       ret commits_created).

(** [for i in range(num_commits)], from turn [i] on with [n] turns left. *)
Fixpoint turns (n i commits_created : nat) : M nat :=
  match n with
  | O => ret commits_created
  | S n' =>
      let! commits_created := turn i commits_created in
      turns n' (S i) commits_created
  end.

Definition create_commits (num_commits : nat) : M nat :=
  print ("Creating " +:+ Py.str_of_nat num_commits +:+ " professional commits...") ;;;
  initialize_git ;;;
  run_git_command
    ("git config user.name " +:+ QUOTE +:+ "QR Scanner Developer" +:+ QUOTE)
    false ;;;
  run_git_command
    ("git config user.email " +:+ QUOTE +:+ "developer@qrscanner.dev" +:+ QUOTE)
    false ;;;
  let! commits_created := turns num_commits 0 0 in
  print (LF +:+ "Successfully created " +:+ Py.str_of_nat commits_created
         +:+ " commits!") ;;;
  ret commits_created.

End Run.

End Commits.

(** ** Sample inputs *)

Module Examples.

Import Stmt Scanner.

Definition clock (i : nat) : datetime := Z.of_nat i.
Definition isoformat (t : datetime) : string := Py.str_of_nat (Z.to_nat t).
Definition strftime (fmt : string) (t : datetime) : string :=
  Py.str_of_nat (Z.to_nat t).
Definition writable (filename : string) : bool := true.

Definition symbol (text : string) : Decoded :=
  {| zdata := text; ztype := "QRCODE";
     zrect := {| left := 10; top := 20; width := 30; height := 30 |};
     zpolygon := [(10, 20); (40, 20); (40, 50); (10, 50)]%Z |}.

Definition frame (texts : list string) : iteration :=
  {| read := ReadOk (Pixels (List.map symbol texts)); key := Key (-1) |}.

(** A camera that shows the code [a] in one frame. *)
Definition camera_a : device :=
  {| opening := Ret true; feed := [frame ["a"]] |}.

(** A camera that shows [a], [b], [a] and then [b], [c]. *)
Definition camera_abc : device :=
  {| opening := Ret true; feed := [frame ["a"; "b"; "a"]; frame ["b"; "c"]] |}.

(** A camera that does not open. *)
Definition camera_closed : device := {| opening := Ret false; feed := [] |}.

(** A camera whose second read is interrupted from the keyboard. *)
Definition camera_interrupted : device :=
  {| opening := Ret true;
     feed := [frame ["a"];
              {| read := ReadRaises KeyboardInterrupt; key := Key (-1) |}] |}.

Definition pictures : node :=
  Dir [ ("a.PNG", File (Some (Pixels [symbol "x"])));
        ("notes.txt", File None);
        ("old.png", Dir [ ("b.Jpeg", File (Some (Pixels [symbol "y"; symbol "z"])));
                          ("broken.gif", File None) ]);
        (".gif", File None) ].

Definition webcam_args : Args :=
  {| arg_webcam := true; arg_image := None; arg_directory := None;
     arg_recursive := true; arg_output := None; arg_duration := 30;
     arg_no_preview := false; arg_gui := false |}.

Definition image_args : Args :=
  {| arg_webcam := false; arg_image := Some ["a.PNG"]; arg_directory := None;
     arg_recursive := true; arg_output := None; arg_duration := 30;
     arg_no_preview := false; arg_gui := false |}.

End Examples.

(** ** The vocabulary of the properties *)

Module Vocabulary.

Import Stmt Scanner.

(** The records appended to the session's collection between two states. *)
Definition appended (w w' : World) : list record :=
  drop (length (results (self w))) (results (self w')).

(** [rs] carry the readings of a strictly increasing run of calls of the
    clock, all of them from the [lo]-th on and before the [hi]-th. *)
Definition stamped (clock : nat -> datetime) (lo hi : nat) (rs : list record)
    : Prop :=
  ∃ calls : list nat,
    timestamp <$> rs = clock <$> calls
    ∧ StronglySorted lt calls
    ∧ Forall (λ i, lo ≤ i < hi)%nat calls.

(** Between [w] and [w'] the clock was only read and the collection only
    extended, by records stamped in between. *)
Definition grows (clock : nat -> datetime) (w w' : World) : Prop :=
  (ticks w ≤ ticks w')%nat
  ∧ ∃ more, results (self w') = results (self w) ++ more
            ∧ stamped clock (ticks w) (ticks w') more.

(** Between [w] and [w'] the collection was extended by records whose texts
    are not empty, not in [detected] and pairwise different, stamped in
    between; the camera handle and the output file are as before. *)
Definition collected (clock : nat -> datetime) (detected : gset string)
    (w w' : World) : Prop :=
  ∃ kept,
    results (self w') = results (self w) ++ kept
    ∧ NoDup (data <$> kept)
    ∧ (∀ d, d ∈ data <$> kept → d ≠ "" ∧ d ∉ detected)
    ∧ stamped clock (ticks w) (ticks w') kept
    ∧ (ticks w ≤ ticks w')%nat
    ∧ camera (self w') = camera (self w)
    ∧ output_file (self w') = output_file (self w).

(** [rest] leads from the directory [n] down to one of the entries below
    it, at any depth. *)
Inductive inside : node -> path -> Prop :=
| inside_entry es nm c :
    In (nm, c) es → inside (Dir es) [nm]
| inside_deeper es nm c rest :
    In (nm, c) es → inside c rest → inside (Dir es) (nm :: rest).

(** The scanner is the same in both states and the clock was only read. *)
Definition untouched (w w' : World) : Prop :=
  self w' = self w ∧ (ticks w ≤ ticks w')%nat.

(** [scan_image] applied to each file in turn, each announced in the log. *)
Fixpoint scan_sequentially (clock : nat -> datetime) (fs : node)
    (files : list path) : Stmt.M World (list (list record)) :=
  match files with
  | [] => ret []
  | f :: rest =>
      bind (bind (logger INFO ("Scanning: " ++ str_of_path f))
              (fun _ => scan_image clock fs f))
        (fun codes =>
           bind (scan_sequentially clock fs rest)
             (fun more => ret (codes :: more)))
  end.

(** A camera that opens and a feed on which nothing raises: every frame
    read decodes, every text is valid UTF-8, every key press is a key. *)
Definition calm_turn (turn : iteration) : Prop :=
  match read turn with
  | ReadRaises _ => False
  | ReadEnd => True
  | ReadOk (BadPixels _) => False
  | ReadOk (Pixels found) =>
      Forall (λ code, Py.utf8_valid (zdata code) = true) found
  end
  ∧ match key turn with
    | KeyRaises _ => False
    | Key _ => True
    end.

Definition calm (dev : device) : Prop :=
  opening dev = Ret true ∧ Forall calm_turn (feed dev).

(** Only the log differs between the two states. *)
Definition logged (w : World) (entries : list (levelname * string)) (w' : World)
    : Prop :=
  self w' = self w ∧ ticks w' = ticks w ∧ stdout w' = stdout w
  ∧ written w' = written w ∧ log w' = log w ++ entries.

(** The statement returned; it did not raise. *)
Definition returned {A} (o : outcome A) : bool :=
  match o with
  | Ret _ => true
  | Raise _ => false
  end.

(** A clock that never runs backwards. *)
Definition monotone (clock : nat -> datetime) : Prop :=
  ∀ i j, (i ≤ j)%nat → (clock i ≤ clock j)%Z.

(** Two texts that differ at most in the case of their letters. *)
Definition same_ignoring_case (a b : string) : Prop := Py.lower a = Py.lower b.

End Vocabulary.

(** ** The vocabulary of the properties of the commit generator *)

Module CommitsVocabulary.

Import Stmt Commits.

(** The text has no line feed. *)
Fixpoint one_line (s : string) : bool :=
  match s with
  | EmptyString => true
  | String c r => negb (Ascii.eqb c "010"%char) && one_line r
  end.

(** A template that begins with a small letter and stays on one line. *)
Definition plain (template : string) : bool :=
  match template with
  | EmptyString => false
  | String c _ => Py.is_lower c && one_line template
  end.

(** The templates [generate_commit_message] chooses from for a type. *)
Definition templates_of (commit_type : string) : list string :=
  default FEAT_MESSAGES (MESSAGE_TEMPLATES !! commit_type).

(** The world after one draw of the generator. *)
Definition drawn (w : World) : World := snd (draw w).

(** The commands issued between two states. *)
Definition issued (w w' : World) : list string :=
  drop (length (commands w)) (commands w').

(** What the [n]-th command to come is answered. *)
Definition answer (n : nat) (w : World) : run_result :=
  nth n (answers w) (Completed 0 "" "").

Definition could_run (a : run_result) : bool :=
  match a with
  | Completed _ _ _ => true
  | NotRun _ => false
  end.

(** The answer is one on which [create_commits] takes its second branch:
    the error stream, stripped and lowered, mentions "nothing to commit". *)
Definition nothing_to_commit (a : run_result) : bool :=
  match a with
  | Completed _ _ err => Py.contains "nothing to commit" (Py.lower (Py.strip err))
  | NotRun _ => false
  end.

(** Between [w] and [w'] exactly the commands [cmds] were issued, each
    taking one answer. *)
Definition did (cmds : list string) (w w' : World) : Prop :=
  commands w' = commands w ++ cmds
  ∧ answers w' = drop (length cmds) (answers w).

Definition git_add : string := "git add commit_history.txt".

Definition is_commit (command : string) : bool :=
  Py.startswith "git commit" command.

(** The number of commit commands issued between two states. *)
Definition commit_attempts (w w' : World) : nat :=
  length (List.filter is_commit (issued w w')).

(** A repository with nothing staged: the two configuration commands and the
    staging succeed, and the commit reports that there is nothing to
    commit. *)
Definition nothing_staged : World :=
  {| draws := [3; 2; 7; 9000000000000000; 9000000000000000]%N;
     ticks := 0;
     git_dir := true;
     commit_history := Some ["Commit History" +:+ LF];
     answers := [ Completed 0 "" ""; Completed 0 "" ""; Completed 0 "" "";
                  Completed 1 "" "nothing to commit, working tree clean" ];
     commands := [];
     stdout := [] |}.

End CommitsVocabulary.

(** ** Further notions about the scanner *)

Module ScannerNotions.

Import Stmt Scanner.

(** The record [_decode_qr_codes] builds for a symbol, its timestamp
    apart. *)
Definition record_of (source : string) (code : Decoded) (r : record) : Prop :=
  data r = zdata code
  ∧ type r = ztype code
  ∧ rect r = zrect code
  ∧ polygon r = zpolygon code
  ∧ Scanner.source r = source.

(** Every symbol carries well-formed UTF-8. *)
Definition decodable (found : list Decoded) : bool :=
  forallb (λ code, Py.utf8_valid (zdata code)) found.

(** The key answer is a key whose low byte is that of [q]. *)
Definition pressed_q (k : key_result) : bool :=
  match k with
  | Key code => (Z.land code 255 =? 113)%Z
  | KeyRaises _ => false
  end.

(** How one turn of the frame loop ends: the loop is left, by a return or
    an exception, or it goes on with a larger set of texts seen. *)
Definition one_turn (clock : nat -> datetime) (turn : iteration) (duration : Z)
    (show_preview : bool) (start_time : datetime) (detected_codes : gset string)
    (w : World) : (outcome unit * World) + (gset string * World) :=
  match read turn with
  | ReadRaises e => inl (Raise e, w)
  | ReadEnd => inl (Ret tt, w)
  | ReadOk frame =>
      let w1 :=
        if (0 <? duration)%Z then snd (now clock w) else w in
      if (0 <? duration)%Z && (duration * 1000000 <=? clock (ticks w) - start_time)%Z
      then inl (Ret tt, w1)
      else
        match _decode_qr_codes clock frame "webcam" w1 with
        | (Raise e, w2) => inl (Raise e, w2)
        | (Ret codes, w2) =>
            match keep_new codes detected_codes w2 with
            | (Raise e, w3) => inl (Raise e, w3)
            | (Ret detected_codes, w3) =>
                if show_preview then
                  match key turn with
                  | KeyRaises e => inl (Raise e, w3)
                  | Key code =>
                      if (Z.land code 255 =? 113)%Z then inl (Ret tt, w3)
                      else inr (detected_codes, w3)
                  end
                else inr (detected_codes, w3)
            end
        end
  end.

(** The turn is the last one the loop takes: its read gives no frame, or,
    with the preview, [q] is pressed in it. *)
Definition last_turn (show_preview : bool) (turn : iteration) : bool :=
  match read turn with
  | ReadOk _ => show_preview && pressed_q (key turn)
  | _ => true
  end.

(** The texts among [texts] that are not empty, not in [seen] and not
    earlier in the list: the distinct texts in the order they first
    appear. *)
Fixpoint fresh (seen : gset string) (texts : list string) : list string :=
  match texts with
  | [] => []
  | t :: rest =>
      if negb (String.eqb t "") && negb (bool_decide (t ∈ seen))
      then t :: fresh ({[ t ]} ∪ seen) rest
      else fresh seen rest
  end.

(** The texts a feed shows up to the turn that ends the loop: the first
    read that gives no frame, or, with the preview, the first turn in which
    [q] is pressed (that turn's frame included). *)
Fixpoint texts_shown (show_preview : bool) (frames : list iteration)
    : list string :=
  match frames with
  | [] => []
  | turn :: rest =>
      match read turn with
      | ReadOk (Pixels found) =>
          List.map zdata found
          ++ (if show_preview && pressed_q (key turn) then []
              else texts_shown show_preview rest)
      | _ => []
      end
  end.

(** Nothing was printed and no file written between the two states. *)
Definition silent (w w' : World) : Prop :=
  stdout w' = stdout w ∧ written w' = written w.

(** The statement ended in an [Exception]. *)
Definition failed {A} (o : outcome A) : bool :=
  match o with
  | Raise (Exception _) => true
  | _ => false
  end.

(** The statement was interrupted from the keyboard. *)
Definition interrupted {A} (o : outcome A) : bool :=
  match o with
  | Raise KeyboardInterrupt => true
  | _ => false
  end.

(** The lines the loop of [main] over the collection prints, numbered
    from [i]. *)
Fixpoint display_lines (i : nat) (rs : list record) : list string :=
  match rs with
  | [] => []
  | code :: rest =>
      [ Scanner.LF +:+ "Code #" +:+ Py.str_of_nat i +:+ ":";
        "  Data: " +:+ data code;
        "  Type: " +:+ type code;
        "  Source: " +:+ source code ]
      ++ display_lines (S i) rest
  end.

(** The file name [export_to_text] settles on in state [w]. *)
Definition text_name (clock : nat -> datetime)
    (strftime : string -> datetime -> string) (filename : option string)
    (w : World) : string :=
  match filename with
  | Some f => f
  | None => "qr_results_" +:+ strftime "%Y%m%d_%H%M%S" (clock (ticks w)) +:+ ".txt"
  end.

(** The document [save_results] writes for an empty collection. *)
Definition empty_json (scan_date : string) : document :=
  JsonDoc (JObj [ ("scan_date", JStr scan_date);
                  ("total_codes", JInt 0);
                  ("results", JArr []) ]).

(** The document [export_to_text] writes for an empty collection. *)
Definition empty_text (date : string) : document :=
  TextDoc [ "QR Code Scan Results" +:+ Scanner.LF;
            "Date: " +:+ date +:+ Scanner.LF;
            "Total Codes Found: 0" +:+ Scanner.LF;
            times "=" 50 +:+ Scanner.LF +:+ Scanner.LF ].

Section Stages.

Variable clock : nat -> datetime.
Variable isoformat : datetime -> string.
Variable strftime : string -> datetime -> string.
Variable fs : node.
Variable writable : string -> bool.

(** The first stage of the [try] of [main]: the scan the arguments ask
    for, and the line that reports it. *)
Definition scan_stage (args : Args) (dev : device) : M unit :=
  if arg_webcam args then
    bind (scan_webcam clock dev (arg_duration args) (negb (arg_no_preview args)))
      (λ codes,
         print (Scanner.LF +:+ "Detected " +:+ Py.str_of_nat (length codes)
                +:+ " QR code(s)"))
  else
    match arg_image args with
    | Some img =>
        bind (scan_image clock fs img)
          (λ codes,
             print (Scanner.LF +:+ "Detected " +:+ Py.str_of_nat (length codes)
                    +:+ " QR code(s) in " +:+ str_of_path img))
    | None =>
        match arg_directory args with
        | Some d =>
            bind (scan_directory clock fs d (arg_recursive args))
              (λ codes,
                 print (Scanner.LF +:+ "Detected "
                        +:+ Py.str_of_nat (length codes)
                        +:+ " QR code(s) in directory"))
        | None => ret tt
        end
    end.

(** The last stage of the [try] of [main]: the collection [s] holds is
    saved where the arguments say, or under a name of the scanner's own
    when it is not empty. *)
Definition save_stage (args : Args) (s : QRCodeScanner) : M unit :=
  match arg_output args with
  | Some out =>
      if truthy (Some out) then export clock isoformat strftime writable out
      else match results s with
           | [] => ret tt
           | _ => bind (save_results clock isoformat strftime writable None)
                    (λ _, ret tt)
           end
  | None =>
      match results s with
      | [] => ret tt
      | _ => bind (save_results clock isoformat strftime writable None)
               (λ _, ret tt)
      end
  end.

End Stages.

(** *** Further sample inputs *)

(** A picture with two symbols, the second of which is not UTF-8. *)
Definition damaged_symbols : list Decoded :=
  [ Examples.symbol "ok"; Examples.symbol (String "255"%char "") ].

Definition damaged : node :=
  Dir [ ("bad.png", File (Some (Pixels damaged_symbols))) ].

(** A camera whose stream ends after the first frame; a later frame is
    never delivered. *)
Definition camera_cut : device :=
  {| opening := Ret true;
     feed := [ Examples.frame ["a"];
               {| read := ReadEnd; key := Key (-1) |};
               Examples.frame ["b"] ] |}.

(** The camera [camera_a] with [q] pressed in its only turn. *)
Definition camera_a_q : device :=
  {| opening := Ret true;
     feed := [ {| read := read (Examples.frame ["a"]); key := Key 113 |} ] |}.

(** The record of the symbol [a], read from the camera at time 7. *)
Definition record_a : record :=
  {| data := "a"; type := "QRCODE";
     rect := zrect (Examples.symbol "a");
     polygon := zpolygon (Examples.symbol "a");
     source := "webcam"; timestamp := 7%Z |}.

(** The session after a webcam scan of [camera_abc]: it holds the records
    of [a], [b] and [c], read at the times 1, 2 and 5. *)
Definition after_abc : World :=
  snd (scan_webcam Examples.clock Examples.camera_abc 0 true (boot None)).

(** [--image a.PNG --output out.json] *)
Definition image_output_args : Args :=
  {| arg_webcam := false; arg_image := Some ["a.PNG"]; arg_directory := None;
     arg_recursive := true; arg_output := Some "out.json"; arg_duration := 30;
     arg_no_preview := false; arg_gui := false |}.

(** [--webcam --duration 0] *)
Definition webcam_unlimited_args : Args :=
  {| arg_webcam := true; arg_image := None; arg_directory := None;
     arg_recursive := true; arg_output := None; arg_duration := 0;
     arg_no_preview := false; arg_gui := false |}.

End ScannerNotions.

(** ** The graphical shell [QRScannerGUI]

    The shell runs its handlers on the main thread, one at a time, and
    every webcam scan on a thread of its own; all of them work on the one
    scanner, and so on the one camera field. A state of the shell holds
    the world, the flag [self.scanning], what the capture object in
    [self.camera] has still to deliver, what the handler on the main
    thread has still to do, and where each scan thread stands. The threads
    take turns at the points named here: where a handler waits for a
    dialog or has its scan behind it, and between the turns of the loop of
    [scan_webcam]. The interpreter may switch threads at more points than
    these; every run of the model is a run of the shell. What the handlers
    draw in the window belongs to the toolkit. *)

Module QRScannerGUI.

Import Stmt Scanner ScannerNotions.
Local Open Scope py_scope.

(** Where a scan thread stands in [scan_thread]. *)
Inductive thread :=
| Created (dev : device)      (* started; nothing has run yet *)
| Entered (dev : device)      (* [self.scanning = True] is done *)
| InLoop (start_time : datetime) (detected_codes : gset string)
                              (* at the head of the [while] loop *)
| LoopLeft                    (* the loop is left; the camera is to be released *)
| Returned.                   (* [scan_webcam] is back; [self.scanning = False]
                                 is to come *)

(** What the handler on the main thread has still to do. *)
Inductive handler :=
| Idle
| Extending (codes : list record)     (* [self.scanner.results.extend(codes)] *)
| Saving (filename : option string).  (* the save dialog is open *)

Record App := {
  world : World;
  scanning : bool;
  stream : list iteration;    (* what [self.camera.read()] will deliver *)
  main_thread : handler;
  threads : list thread
}.

(** [QRScannerGUI.__init__] *)
Definition launch : App :=
  {| world := boot None; scanning := false; stream := [];
     main_thread := Idle; threads := [] |}.

Definition set_world (w : World) (g : App) : App :=
  {| world := w; scanning := scanning g; stream := stream g;
     main_thread := main_thread g; threads := threads g |}.

Definition set_scanning (b : bool) (g : App) : App :=
  {| world := world g; scanning := b; stream := stream g;
     main_thread := main_thread g; threads := threads g |}.

Definition set_stream (frames : list iteration) (g : App) : App :=
  {| world := world g; scanning := scanning g; stream := frames;
     main_thread := main_thread g; threads := threads g |}.

Definition set_main_thread (h : handler) (g : App) : App :=
  {| world := world g; scanning := scanning g; stream := stream g;
     main_thread := h; threads := threads g |}.

Definition set_threads (ts : list thread) (g : App) : App :=
  {| world := world g; scanning := scanning g; stream := stream g;
     main_thread := main_thread g; threads := ts |}.

(** What the user and the scheduler do next: the user takes an action,
    which the main loop hands to its handler; the handler on the main
    thread goes on; the [i]-th scan thread goes on. *)
Inductive event :=
| Click (a : action)
| Resume
| Switch (i : nat).

Section Shell.

Variable clock : nat -> datetime.
Variable isoformat : datetime -> string.
Variable strftime : string -> datetime -> string.
Variable fs : node.
Variable writable : string -> bool.

(** The [except Exception] branch of [Scanner.scan_webcam]. *)
Definition scan_failed (msg : string) : M (list record) :=
  logger ERROR ("Error during webcam scan: " +:+ msg) ;;;
  _release_camera ;;;
  ret [].

(** What [self.camera.read()] raises once another thread has released
    the camera and set the field to [None]. *)
Definition no_camera : string :=
  "'NoneType' object has no attribute 'read'".

(** One step of a scan thread, [scan_thread] of [QRScannerGUI.scan_webcam]
    with the call [self.scanner.scan_webcam(duration=0, show_preview=True)]
    in it: the state after the step, and where the thread then stands, or
    [None] when it has ended. The thread reads from the capture object
    that [self.camera] holds at the time, which is the one opened last,
    and which delivers nothing when it did not open. An exception that
    [scan_webcam] does not catch ends the thread where it is. *)
Definition scan_thread (t : thread) (g : App) : App * option thread :=
  let w := world g in
  match t with
  | Created dev => (set_scanning true g, Some (Entered dev))
  | Entered dev =>
      match opening dev with
      | Raise KeyboardInterrupt => (g, None)
      | Raise (Exception msg) =>
          (set_world (snd (scan_failed msg w)) g, Some Returned)
      | Ret opened =>
          let w1 := snd (set_camera (Some {| isOpened := opened |}) w) in
          if negb opened then
            (set_stream []
               (set_world (snd (logger ERROR "Failed to open camera" w1)) g),
             Some Returned)
          else
            let w2 :=
              snd (logger INFO "Starting webcam scan... Press 'q' to quit" w1) in
            (set_stream (feed dev) (set_world (snd (now clock w2)) g),
             Some (InLoop (clock (ticks w2)) ∅))
      end
  | InLoop start_time detected_codes =>
      match camera (self w) with
      | None => (set_world (snd (scan_failed no_camera w)) g, Some Returned)
      | Some _ =>
          match stream g with
          | [] => (g, Some LoopLeft)
          | turn :: rest =>
              match one_turn clock turn 0 true start_time detected_codes w with
              | inr (detected_codes, w') =>
                  (set_stream rest (set_world w' g),
                   Some (InLoop start_time detected_codes))
              | inl (Ret _, w') =>
                  (set_stream rest (set_world w' g), Some LoopLeft)
              | inl (Raise (Exception msg), w') =>
                  (set_stream rest (set_world (snd (scan_failed msg w')) g),
                   Some Returned)
              | inl (Raise KeyboardInterrupt, w') =>
                  (set_stream rest (set_world w' g), None)
              end
          end
      end
  | LoopLeft => (set_world (snd (_release_camera w)) g, Some Returned)
  | Returned => (set_scanning false g, None)
  end.

(** [QRScannerGUI.scan_webcam]: the handler only starts the thread, and
    the flag it tests is set by the thread. *)
Definition scan_webcam (dev : device) (g : App) : App :=
  if scanning g then g
  else set_threads (threads g ++ [Created dev]) g.

(** [QRScannerGUI.scan_image_file], up to the return of [scan_image];
    [filename] is what the file dialog answers. *)
Definition scan_image_file (filename : option path) (g : App) : App :=
  match filename with
  | None => g
  | Some filename =>
      match scan_image clock fs filename (world g) with
      | (Ret codes, w') => set_main_thread (Extending codes) (set_world w' g)
      | (Raise _, w') => set_world w' g
      end
  end.

(** [QRScannerGUI.scan_directory], up to the return of
    [Scanner.scan_directory]. *)
Definition scan_directory (directory : option path) (g : App) : App :=
  match directory with
  | None => g
  | Some directory =>
      match Scanner.scan_directory clock fs directory true (world g) with
      | (Ret codes, w') => set_main_thread (Extending codes) (set_world w' g)
      | (Raise _, w') => set_world w' g
      end
  end.

(** [QRScannerGUI.clear_results] *)
Definition clear_results (g : App) : App :=
  set_world (snd (set_results [] (world g))) g.

(** [QRScannerGUI.export_results], up to the save dialog, which is not
    opened for an empty collection. *)
Definition export_results (filename : option string) (g : App) : App :=
  match results (self (world g)) with
  | [] => g
  | _ => set_main_thread (Saving filename) g
  end.

(** What is left of a handler once its scan is back or its dialog
    answered. *)
Definition resume (g : App) : App :=
  match main_thread g with
  | Idle => g
  | Extending codes =>
      set_main_thread Idle (set_world (snd (results_extend codes (world g))) g)
  | Saving filename =>
      set_main_thread Idle
        (if truthy filename then
           match filename with
           | Some f =>
               set_world (snd (export clock isoformat strftime writable f
                                 (world g))) g
           | None => g
           end
         else g)
  end.

Definition dispatch (a : action) (g : App) : App :=
  match a with
  | ScanWebcam dev => scan_webcam dev g
  | ScanImageFile filename => scan_image_file filename g
  | ScanDirectory directory => scan_directory directory g
  | ClearResults => clear_results g
  | ExportResults filename => export_results filename g
  end.

(** One event. An event that cannot happen in the state leaves it as it
    is: the main loop hands no action to a handler while another handler
    runs, and only a thread that is alive goes on. *)
Definition step (e : event) (g : App) : App :=
  match e with
  | Click a =>
      match main_thread g with
      | Idle => dispatch a g
      | _ => g
      end
  | Resume => resume g
  | Switch i =>
      match threads g !! i with
      | None => g
      | Some t =>
          let g' := fst (scan_thread t g) in
          set_threads
            (match snd (scan_thread t g) with
             | Some t' => <[i := t']> (threads g')
             | None => delete i (threads g')
             end) g'
      end
  end.

(** A session of the shell: the events in their order. *)
Fixpoint session (events : list event) (g : App) : App :=
  match events with
  | [] => g
  | e :: rest => session rest (step e g)
  end.

End Shell.

End QRScannerGUI.

(** ** The vocabulary of the properties of the graphical shell *)

Module ShellVocabulary.

Import Stmt Scanner QRScannerGUI.

(** The records a handler holds that are not yet in the collection. *)
Definition in_hand (h : handler) : list record :=
  match h with
  | Extending codes => codes
  | _ => []
  end.

(** The collection, followed by what a handler has in hand for it, is a
    run of records stamped in the order they stand in; and a handler that
    has records in hand finds no scan thread alive. *)
Definition in_order (clock : nat -> datetime) (g : App) : Prop :=
  Vocabulary.stamped clock 0 (ticks (world g))
    (results (self (world g)) ++ in_hand (main_thread g))
  ∧ (in_hand (main_thread g) ≠ [] → threads g = []).

(** A clock that is set back after its third reading. *)
Definition clock_set_back (i : nat) : datetime :=
  if (i <? 3)%nat then (100 + Z.of_nat i)%Z else Z.of_nat i.

Section Sessions.

Variable clock : nat -> datetime.
Variable isoformat : datetime -> string.
Variable strftime : string -> datetime -> string.
Variable fs : node.
Variable writable : string -> bool.

(** The user takes every action while no scan thread is alive: a webcam
    scan has come to its end before anything else is asked for. *)
Fixpoint one_at_a_time (events : list event) (g : App) : bool :=
  match events with
  | [] => true
  | e :: rest =>
      match e, threads g with
      | Click _, _ :: _ => false
      | _, _ => one_at_a_time rest (step clock isoformat strftime fs writable e g)
      end
  end.

End Sessions.

(** The save dialog is open and a file name is chosen in it: 1, else 0. *)
Definition chosen (h : handler) : nat :=
  match h with
  | Saving filename => if truthy filename then 1 else 0
  | _ => 0
  end.

(** The number of export actions among the events in whose save dialog a
    file name is chosen. *)
Definition saves (events : list event) : nat :=
  length (List.filter
            (λ e, match e with
                  | Click (ExportResults filename) => truthy filename
                  | _ => false
                  end) events).

(** The user starts a webcam scan and, while its thread is in the loop,
    has an image scanned: the thread takes a turn of its loop after
    [scan_image] is back and before the handler extends the collection. *)
Definition overlapping : list event :=
  [ Click (ScanWebcam Examples.camera_a);
    Switch 0; Switch 0;
    Click (ScanImageFile (Some ["a.PNG"]));
    Switch 0;
    Resume ].

(** The user has the camera scan, waits for the thread to end, and then
    has an image and a directory scanned and the results saved. *)
Definition in_turn : list event :=
  [ Click (ScanWebcam Examples.camera_abc);
    Switch 0; Switch 0; Switch 0; Switch 0; Switch 0; Switch 0; Switch 0;
    Click (ScanImageFile (Some ["a.PNG"])); Resume;
    Click (ScanDirectory (Some ["old.png"])); Resume;
    Click (ExportResults (Some "out.json")); Resume ].

End ShellVocabulary.

(** ** The vocabulary of the properties of failures *)

Module FailureVocabulary.

Import Stmt Scanner ScannerNotions.

(** The decoder raises on the picture, or one of the symbols it finds
    does not carry UTF-8. *)
Definition undecodable (img : image) : bool :=
  match img with
  | BadPixels _ => true
  | Pixels found => negb (decodable found)
  end.

Definition is_error (entry : levelname * string) : bool :=
  match fst entry with
  | ERROR => true
  | INFO => false
  end.

(** The number of ERROR lines logged between two states. *)
Definition errors_logged (w w' : World) : nat :=
  length (List.filter is_error (drop (length (log w)) (log w'))).

(** Between the two states the log was only extended, and by no ERROR
    line. *)
Definition quietly (w w' : World) : Prop :=
  ∃ more, log w' = log w ++ more ∧ List.filter is_error more = [].

(** The state in which the loop of [scan_webcam] starts, once the camera
    has opened: the camera is kept, the start is logged and the clock
    read. *)
Definition started (clock : nat -> datetime) (w : World) : World :=
  snd (now clock
         (snd (logger INFO "Starting webcam scan... Press 'q' to quit"
                 (snd (set_camera (Some {| isOpened := true |}) w))))).

(** A camera whose second read raises. *)
Definition camera_unplugged : device :=
  {| opening := Ret true;
     feed := [ Examples.frame ["a"];
               {| read := ReadRaises (Exception "cv2.error: read failed");
                  key := Key (-1) |} ] |}.

(** Where the loop stands when the second read of [camera_unplugged]
    raises. *)
Definition unplugged_loop : World :=
  snd (frame_loop Examples.clock (feed camera_unplugged) 30 true
         (Examples.clock (ticks (boot None))) ∅
         (started Examples.clock (boot None))).

(** A picture on which the decoder raises. *)
Definition unreadable_pixels : node :=
  Dir [ ("torn.png", File (Some (BadPixels "zbar: out of memory"))) ].

End FailureVocabulary.

(** ** Pushing, and further notions about the commit generator *)

Module CommitsNotions.

Import Stmt Commits CommitsVocabulary.
Local Open Scope py_scope.

Definition DEFAULT_REPO : string :=
  "https://github.com/leandre000/QR-code-Decoder.git".

(** [push_to_github(repo_url)]. All its commands run without [check];
    [run_git_command] then always gives an output text, and the [None]
    it gives otherwise would make the [in] test raise a [TypeError]. *)
Definition push_to_github (repo_url : option string) : M unit :=
  let repo_url := default DEFAULT_REPO repo_url in
  print (LF +:+ "Pushing to " +:+ repo_url +:+ "...") ;;;
  let! (stdout, _) := run_git_command "git remote -v" false in
  match stdout with
  | None => raise (Exception "argument of type 'NoneType' is not iterable")
  | Some stdout =>
      (if negb (Py.contains "origin" stdout) then
         print "Adding remote origin..." ;;;
         run_git_command ("git remote add origin " +:+ repo_url) false ;;;
         ret tt
       else
         print "Remote origin already exists. Updating URL..." ;;;
         run_git_command ("git remote set-url origin " +:+ repo_url) false ;;;
         ret tt) ;;;
      print "Pushing to main branch..." ;;;
      let! (_, stderr) := run_git_command "git push -u origin main" false in
      if Py.contains "error" (Py.lower stderr)
         || Py.contains "fatal" (Py.lower stderr)
      then
        print ("Push may require authentication. Error: " +:+ stderr) ;;;
        print (LF +:+ "You may need to:") ;;;
        print "1. Set up SSH keys or personal access token" ;;;
        print "2. Run: git push -u origin main"
      else print "Successfully pushed to GitHub!"
  end.

(** The answer with its return code forgotten. *)
Definition streams (a : run_result) : run_result :=
  match a with
  | Completed _ out err => Completed 0 out err
  | NotRun msg => NotRun msg
  end.

(** The world in which every command to come answers with the same streams
    and the return code 0. *)
Definition forget_codes (w : World) : World :=
  {| draws := draws w; ticks := ticks w; git_dir := git_dir w;
     commit_history := commit_history w;
     answers := streams <$> answers w;
     commands := commands w; stdout := stdout w |}.

(** The statement takes no notice of return codes: it ends the same way
    and leaves the same world, return codes apart. *)
Definition blind {A} (m : M A) : Prop :=
  ∀ w, m (forget_codes w) = (fst (m w), forget_codes (snd (m w))).

(** A character that stays itself between the double quotes of a shell
    command: not a double quote, a dollar sign, a back quote or a
    backslash. *)
Definition shell_plain (c : ascii) : bool :=
  negb (Ascii.eqb c "034"%char) && negb (Ascii.eqb c "036"%char)
  && negb (Ascii.eqb c "096"%char) && negb (Ascii.eqb c "092"%char).

Fixpoint shell_safe (s : string) : bool :=
  match s with
  | EmptyString => true
  | String c r => shell_plain c && shell_safe r
  end.

(** The number of double quotes in a text. *)
Fixpoint quotes (s : string) : nat :=
  match s with
  | EmptyString => 0
  | String c r => (if Ascii.eqb c "034"%char then 1 else 0) + quotes r
  end.

(** The commands that set the repository up, the first ones
    [create_commits] issues, can all be run: three of [initialize_git]
    when there is no repository yet, and the two that set the identity. *)
Definition configured (w : World) : Prop :=
  ∀ k, k < (if git_dir w then 2 else 5) → could_run (answer k w) = true.

(** Between the two states some commands were issued, each taking one
    answer. *)
Definition ran (w w' : World) : Prop := ∃ cmds, did cmds w w'.

(** What [commit_history.txt] held is still there, at the head of what it
    holds now. *)
Definition keeps (w w' : World) : Prop :=
  ∀ old, commit_history w = Some old →
         ∃ added, commit_history w' = Some (old ++ added).

(** The number of chunks written to [commit_history.txt] so far. *)
Definition history_lines (w : World) : nat :=
  length (default [] (commit_history w)).

(** A shell whose commands all run, some of them failing: the commit is
    refused every time. *)
Definition refusing : World :=
  {| draws := []; ticks := 0; git_dir := true; commit_history := None;
     answers := [ Completed 0 "" ""; Completed 0 "" "";
                  Completed 0 "" ""; Completed 128 "" "fatal: unable to write";
                  Completed 0 "" ""; Completed 128 "" "fatal: unable to write" ];
     commands := []; stdout := [] |}.

End CommitsNotions.

(** ** Repositories in which git fails *)

Module FailureWorlds.

Import Stmt Commits CommitsVocabulary.

(** The command ran and failed, and one of its streams says "nothing to
    commit". *)
Definition reports_nothing_to_commit (a : run_result) : bool :=
  match a with
  | Completed returncode out err =>
      negb (returncode =? 0)%Z
      && (Py.contains "nothing to commit" (Py.lower out)
          || Py.contains "nothing to commit" (Py.lower err))
  | NotRun _ => false
  end.

(** The command ran and left a return code other than 0. *)
Definition exited_with_failure (a : run_result) : bool :=
  match a with
  | Completed returncode _ _ => negb (returncode =? 0)%Z
  | NotRun _ => false
  end.

(** What git answers in a repository whose [.gitignore] lists
    [commit_history.txt]: the identity is set, staging the file fails, and
    the commit finds nothing to commit, which it says on its output
    stream. *)
Definition ignored_history : World :=
  {| draws := [3; 2; 7; 9000000000000000; 9000000000000000]%N;
     ticks := 0;
     git_dir := true;
     commit_history := Some ["Commit History" +:+ LF];
     answers :=
       [ Completed 0 "" "";
         Completed 0 "" "";
         Completed 1 ""
           ("The following paths are ignored by one of your .gitignore files:"
            +:+ LF +:+ "commit_history.txt"
            +:+ LF +:+ "hint: Use -f if you really want to add them."
            +:+ LF +:+ "hint: Turn this message off by running"
            +:+ LF +:+ "hint: " +:+ QUOTE
            +:+ "git config advice.addIgnoredFile false" +:+ QUOTE +:+ LF);
         Completed 1
           ("On branch master" +:+ LF
            +:+ "nothing to commit, working tree clean" +:+ LF) "" ];
     commands := [];
     stdout := [] |}.

(** What git answers in a directory whose [.git] is not a repository:
    every command fails. *)
Definition not_a_repository : World :=
  {| draws := [3; 2; 7; 9000000000000000; 9000000000000000]%N;
     ticks := 0;
     git_dir := true;
     commit_history := None;
     answers :=
       [ Completed 128 "" ("fatal: not in a git directory" +:+ LF);
         Completed 128 "" ("fatal: not in a git directory" +:+ LF);
         Completed 128 ""
           ("fatal: not a git repository (or any of the parent directories): .git"
            +:+ LF);
         Completed 128 ""
           ("fatal: not a git repository (or any of the parent directories): .git"
            +:+ LF) ];
     commands := [];
     stdout := [] |}.

(** A machine on which no command can be started. *)
Definition no_shell : World :=
  {| draws := [3; 2; 7; 9000000000000000; 9000000000000000]%N;
     ticks := 0;
     git_dir := true;
     commit_history := None;
     answers := [ NotRun "[Errno 12] Cannot allocate memory" ];
     commands := [];
     stdout := [] |}.

End FailureWorlds.

(** ** Facts about statements *)

Module StmtFacts.

Import Stmt.
Local Open Scope py_scope.

Section Along.

Context {S : Type} (R : S -> S -> Prop) `{!Reflexive R} `{!Transitive R}.

Lemma along_ret {A} (a : A) : along R (ret a).
Proof using Reflexive0. intros w. simpl. reflexivity. Qed.

Lemma along_raise {A} e : along R (@raise S A e).
Proof using Reflexive0. intros w. simpl. reflexivity. Qed.

Lemma along_bind {A B} (m : M S A) (k : A -> M S B) :
  along R m → (∀ a, along R (k a)) → along R (bind m k).
Proof using Transitive0.
  intros Hm Hk w. unfold bind. specialize (Hm w).
  destruct (m w) as [[a|e] w1]; simpl in *; [|done].
  etrans; [exact Hm|]. apply Hk.
Qed.

Lemma along_try {A} (m : M S A) h :
  along R m → (∀ msg, along R (h msg)) → along R (try_except m h).
Proof using Transitive0.
  intros Hm Hh w. unfold try_except. specialize (Hm w).
  destruct (m w) as [[a|[msg|]] w1]; simpl in *; try done.
  etrans; [exact Hm|]. apply Hh.
Qed.

End Along.

Lemma bind_run {S A B} (m : Stmt.M S A) (k : A -> Stmt.M S B) w a w' :
  m w = (Ret a, w') → bind m k w = k a w'.
Proof. intros H. unfold bind. by rewrite H. Qed.

Lemma bind_raise {S A B} (m : Stmt.M S A) (k : A -> Stmt.M S B) w e w' :
  m w = (Raise e, w') → bind m k w = (Raise e, w').
Proof. intros H. unfold bind. by rewrite H. Qed.

End StmtFacts.

(** ** Facts about the scanner *)

Module ScannerFacts.

Import Stmt StmtFacts Scanner Vocabulary.
Local Open Scope py_scope.

(** *** Runs of clock readings *)

Lemma sublist_Forall {A} (P : A -> Prop) (l l' : list A) :
  sublist l' l → Forall P l → Forall P l'.
Proof.
  intros Hsub. rewrite !Forall_forall. intros H x Hx.
  apply H. by eapply elem_of_sublist.
Qed.

Lemma sublist_StronglySorted {A} (R : relation A) (l l' : list A) :
  sublist l' l → StronglySorted R l → StronglySorted R l'.
Proof.
  induction 1 as [|x l1 l2 Hsub IH|x l1 l2 Hsub IH]; intros Hs; [done|..].
  - apply StronglySorted_inv in Hs as [Hs Hx].
    constructor; [by apply IH|]. by eapply sublist_Forall.
  - apply StronglySorted_inv in Hs as [Hs _]. by apply IH.
Qed.

Lemma sublist_fmap_eq {A B C} (f : A -> C) (g : B -> C) (l l' : list A) :
  sublist l' l → ∀ k : list B, f <$> l = g <$> k →
  ∃ k', sublist k' k ∧ f <$> l' = g <$> k'.
Proof.
  induction 1 as [|x l1 l2 Hsub IH|x l1 l2 Hsub IH]; intros k Hk.
  - exists []. split; [apply sublist_nil_l|done].
  - destruct k as [|y k]; [done|]. rewrite !fmap_cons in Hk.
    injection Hk as Hxy Hk.
    destruct (IH k Hk) as (k' & Hk' & Heq).
    exists (y :: k'). split; [by constructor|].
    by rewrite !fmap_cons, Hxy, Heq.
  - destruct k as [|y k]; [done|]. rewrite !fmap_cons in Hk.
    injection Hk as Hxy Hk.
    destruct (IH k Hk) as (k' & Hk' & Heq).
    exists k'. split; [by constructor|done].
Qed.

Lemma stamped_nil clock lo hi : stamped clock lo hi [].
Proof. exists []. repeat split; constructor. Qed.

Lemma stamped_weaken clock lo hi lo' hi' rs :
  (lo' ≤ lo)%nat → (hi ≤ hi')%nat →
  stamped clock lo hi rs → stamped clock lo' hi' rs.
Proof.
  intros Hlo Hhi (calls & Heq & Hs & Hb). exists calls. repeat split; try done.
  eapply Forall_impl; [exact Hb|]. simpl. lia.
Qed.

Lemma stamped_app clock lo mid hi xs ys :
  (lo ≤ mid)%nat → (mid ≤ hi)%nat →
  stamped clock lo mid xs → stamped clock mid hi ys →
  stamped clock lo hi (xs ++ ys).
Proof.
  intros Hlo Hhi (cx & Hx & Sx & Bx) (cy & Hy & Sy & By).
  exists (cx ++ cy). rewrite !fmap_app, Hx, Hy. split; [done|]. split.
  - apply StronglySorted_app_2; [|done..].
    rewrite Forall_forall in Bx, By. intros i j Hi Hj.
    specialize (Bx i Hi). specialize (By j Hj). simpl in *. lia.
  - apply Forall_app. split.
    + eapply Forall_impl; [exact Bx|]. simpl. lia.
    + eapply Forall_impl; [exact By|]. simpl. lia.
Qed.

Lemma stamped_snoc clock lo hi rs r :
  (lo ≤ hi)%nat → stamped clock lo hi rs → timestamp r = clock hi →
  stamped clock lo (S hi) (rs ++ [r]).
Proof.
  intros Hle Hrs Hr. apply stamped_app with hi; [done|lia|done|].
  exists [hi]. simpl. rewrite Hr. repeat split.
  - repeat constructor.
  - repeat constructor; lia.
Qed.

Lemma stamped_sublist clock lo hi rs rs' :
  sublist rs' rs → stamped clock lo hi rs → stamped clock lo hi rs'.
Proof.
  intros Hsub (calls & Heq & Hs & Hb).
  destruct (sublist_fmap_eq _ _ _ _ Hsub calls Heq) as (calls' & Hc & Heq').
  exists calls'. split; [done|]. split.
  - by eapply sublist_StronglySorted.
  - by eapply sublist_Forall.
Qed.

(** Under a clock that never runs backwards a stamped run is in
    non-decreasing order of its timestamps. *)
Lemma stamped_sorted clock lo hi rs :
  monotone clock → stamped clock lo hi rs →
  StronglySorted Z.le (timestamp <$> rs).
Proof.
  intros Hmono (calls & -> & Hs & _).
  induction Hs as [|c calls Hs IH Hc]; simpl; constructor; [done|].
  rewrite Forall_fmap. eapply Forall_impl; [exact Hc|].
  intros j Hj. simpl. apply Hmono. lia.
Qed.

Global Instance grows_refl clock : Reflexive (grows clock).
Proof.
  intros w. split; [done|]. exists []. rewrite app_nil_r.
  split; [done|apply stamped_nil].
Qed.

Global Instance grows_trans clock : Transitive (grows clock).
Proof.
  intros w1 w2 w3 (Ht1 & m1 & Hr1 & Hs1) (Ht2 & m2 & Hr2 & Hs2).
  split; [lia|]. exists (m1 ++ m2). split.
  - by rewrite Hr2, Hr1, app_assoc.
  - by eapply stamped_app.
Qed.

Global Instance untouched_refl : Reflexive untouched.
Proof. by intros w. Qed.

Global Instance untouched_trans : Transitive untouched.
Proof. intros w1 w2 w3 [H1 T1] [H2 T2]. split; [congruence|lia]. Qed.

Lemma untouched_grows clock w w' : untouched w w' → grows clock w w'.
Proof.
  intros [Hself Hticks]. split; [done|]. exists [].
  rewrite app_nil_r, Hself. split; [done|apply stamped_nil].
Qed.

(** *** The directory tree *)

(** Induction on a tree, with the property at hand for every entry of a
    directory. *)
Lemma node_entries_ind (P : node -> Prop) :
  (∀ content, P (File content)) →
  (∀ es, Forall (λ e, P (snd e)) es → P (Dir es)) →
  ∀ n, P n.
Proof.
  intros HF HD. fix IH 1. intros [content|es]; [apply HF|].
  apply HD. induction es as [|[nm c] es IHes]; constructor; [apply IH|apply IHes].
Qed.

Lemma children_in p es f :
  In f (children (p, es)) ↔ ∃ nm c, In (nm, c) es ∧ f = p ++ [nm].
Proof.
  unfold children. simpl. rewrite in_map_iff. split.
  - intros ([nm c] & <- & Hin). by exists nm, c.
  - intros (nm & c & Hin & ->). by exists (nm, c).
Qed.

(** The recursive pattern enumerates exactly the entries below the
    directory. *)
Lemma iterate_directories_inside n : ∀ p f,
  In f (flat_map children (iterate_directories p n))
  ↔ ∃ rest, f = p ++ rest ∧ inside n rest.
Proof.
  induction n as [content|es IH] using node_entries_ind; intros p f.
  - simpl. split; [done|]. intros (rest & _ & Hin). inversion Hin.
  - change (iterate_directories p (Dir es))
      with ((p, es) :: flat_map (λ e, match e with
                                      | (nm, c) => iterate_directories (p ++ [nm]) c
                                      end) es).
    change (flat_map children ((p, es) :: ?l))
      with (children (p, es) ++ flat_map children l).
    rewrite in_app_iff, children_in. split.
    + intros [(nm & c & Hin & ->)|Hdeep].
      * exists [nm]. split; [done|]. by eapply inside_entry.
      * apply in_flat_map in Hdeep as (d & Hd & Hf).
        apply in_flat_map in Hd as ([nm c] & Hin & Hd).
        rewrite Forall_forall in IH.
        assert (In f (flat_map children (iterate_directories (p ++ [nm]) c))) as Hc
          by (apply in_flat_map; by exists d).
        apply (IH (nm, c)) in Hc as (rest & -> & Hrest);
          [|by apply list_elem_of_In].
        exists (nm :: rest). split; [by rewrite <- app_assoc|].
        by eapply inside_deeper.
    + intros (rest & -> & Hin). inversion Hin as [es' nm c Hes|es' nm c rest' Hes Hc]; subst.
      * left. by exists nm, c.
      * right. rewrite Forall_forall in IH.
        assert (In (p ++ nm :: rest')
                  (flat_map children (iterate_directories (p ++ [nm]) c))) as Hf.
        { apply (IH (nm, c)); [by apply list_elem_of_In|].
          exists rest'. split; [by rewrite <- app_assoc|done]. }
        apply in_flat_map in Hf as (d & Hd & Hf).
        apply in_flat_map. exists d. split; [|done].
        apply in_flat_map. by exists (nm, c).
Qed.

(** What the two patterns of [scan_directory] enumerate: every entry below
    the directory, or the entries of the directory itself. *)
Lemma glob_inside fs directory recursive f :
  In f (glob fs directory recursive)
  ↔ ∃ n rest, resolve directory fs = Some n
              ∧ f = directory ++ rest
              ∧ inside n rest
              ∧ (recursive = true ∨ length rest = 1).
Proof.
  unfold glob. destruct (resolve directory fs) as [[content|es]|].
  - split; [done|]. intros (n & rest & [= <-] & _ & Hin & _). inversion Hin.
  - destruct recursive.
    + rewrite iterate_directories_inside. split.
      * intros (rest & -> & Hin). exists (Dir es), rest. auto.
      * intros (n & rest & [= <-] & -> & Hin & _). by exists rest.
    + rewrite children_in. split.
      * intros (nm & c & Hin & ->). exists (Dir es), [nm].
        split; [done|]. split; [done|]. split; [by eapply inside_entry|by right].
      * intros (n & rest & [= <-] & -> & Hin & [?|Hlen]); [done|].
        inversion Hin as [es' nm c Hes|es' nm c rest' Hes Hc]; subst.
        -- by exists nm, c.
        -- destruct rest'; [inversion Hc|done].
  - split; [done|]. by intros (n & rest & ? & _).
Qed.

(** *** Decoding *)

Section Scanning.

Variable clock : nat -> datetime.
Variable fs : node.

(** Decoding leaves the scanner as it is and only reads the clock; what
    it returns is stamped by the readings it took; it is not where a
    keyboard interrupt comes from. *)
Lemma decode_each_scans codes source : ∀ acc w lo r w',
  (lo ≤ ticks w)%nat → stamped clock lo (ticks w) acc →
  decode_each clock codes source acc w = (r, w') →
  self w' = self w ∧ (ticks w ≤ ticks w')%nat
  ∧ r ≠ Raise KeyboardInterrupt
  ∧ ∀ rs, r = Ret rs → stamped clock lo (ticks w') rs.
Proof.
  induction codes as [|code rest IH]; intros acc w lo r w' Hlo Hacc Hrun;
    simpl in Hrun.
  - injection Hrun as <- <-. repeat split; [done..|].
    by intros rs [= <-].
  - destruct (Py.decode_utf8 (zdata code)) as [text|].
    + unfold bind, now in Hrun. simpl in Hrun.
      apply IH with (lo := lo) in Hrun as (Hself & Hticks & Hki & Hrs);
        simpl in *.
      * repeat split; [done|lia|done..].
      * lia.
      * by apply stamped_snoc.
    + injection Hrun as <- <-. repeat split; done.
Qed.

Lemma _decode_qr_codes_scans img source w r w' :
  _decode_qr_codes clock img source w = (r, w') →
  self w' = self w ∧ (ticks w ≤ ticks w')%nat
  ∧ r ≠ Raise KeyboardInterrupt
  ∧ ∀ rs, r = Ret rs → stamped clock (ticks w) (ticks w') rs.
Proof.
  unfold _decode_qr_codes, bind, pyzbar_decode.
  destruct img as [found|why]; simpl.
  - intros Hrun. eapply decode_each_scans in Hrun; [done..|apply stamped_nil].
  - intros [= <- <-]. repeat split; done.
Qed.

Lemma logger_run lvl msg w :
  logger lvl msg w
  = (Ret tt, {| self := self w; ticks := ticks w; log := log w ++ [(lvl, msg)];
                stdout := stdout w; written := written w |}).
Proof. reflexivity. Qed.

(** [scan_image] returns, whatever the file system holds. *)
Lemma scan_image_scans image_path w r w' :
  scan_image clock fs image_path w = (r, w') →
  self w' = self w ∧ (ticks w ≤ ticks w')%nat
  ∧ ∃ rs, r = Ret rs ∧ stamped clock (ticks w) (ticks w') rs.
Proof.
  unfold scan_image, try_except.
  destruct (exists_ fs image_path); simpl.
  - destruct (imread fs image_path) as [img|]; simpl.
    + destruct (_decode_qr_codes clock img (str_of_path image_path) w)
        as [[rs|[msg|]] w1] eqn:Hdec;
        apply _decode_qr_codes_scans in Hdec as (Hself & Hticks & Hki & Hrs);
        [| |done].
      * intros [= <- <-]. split; [done|]. split; [done|]. eauto.
      * unfold bind. simpl. intros [= <- <-]. simpl.
        split; [done|]. split; [done|]. eexists. split; [done|].
        apply stamped_nil.
    + unfold bind. simpl. intros [= <- <-]. simpl.
      split; [done|]. split; [done|]. eexists. split; [done|].
      apply stamped_nil.
  - unfold bind. simpl. intros [= <- <-]. simpl.
    split; [done|]. split; [done|]. eexists. split; [done|].
    apply stamped_nil.
Qed.

(** A file that is missing or does not load: one error line, the empty
    list, and nothing else. *)
Lemma scan_image_failure_run image_path w :
  exists_ fs image_path = false ∨ imread fs image_path = None →
  ∃ msg w', scan_image clock fs image_path w = (Ret [], w')
            ∧ logged w [(ERROR, msg)] w'.
Proof.
  intros Hbad. unfold scan_image, try_except, bind.
  destruct (exists_ fs image_path) eqn:Hex; simpl.
  - destruct Hbad as [? | ->]; [done|]. simpl.
    eexists _, _. split; [reflexivity|]. by repeat split.
  - eexists _, _. split; [reflexivity|]. by repeat split.
Qed.

(** *** The camera *)

(** What [keep_new] appends: a selection of the decoded records, in their
    order, with texts that are not empty, not in [detected_codes] and
    pairwise different; nothing else of the scanner changes. *)
Lemma keep_new_spec codes : ∀ detected_codes w r w',
  keep_new codes detected_codes w = (r, w') →
  ∃ kept,
    r = Ret (list_to_set (data <$> kept) ∪ detected_codes)
    ∧ results (self w') = results (self w) ++ kept
    ∧ sublist kept codes
    ∧ NoDup (data <$> kept)
    ∧ (∀ d, d ∈ data <$> kept → d ≠ "" ∧ d ∉ detected_codes)
    ∧ camera (self w') = camera (self w)
    ∧ output_file (self w') = output_file (self w)
    ∧ ticks w' = ticks w.
Proof.
  induction codes as [|code rest IH]; intros D w r w' Hrun; simpl in Hrun.
  - injection Hrun as <- <-. exists []. simpl.
    rewrite app_nil_r, (left_id_L ∅ (∪)).
    split; [done|]. split; [done|]. split; [done|].
    split; [apply NoDup_nil_2|]. split; [|done].
    by intros d ?%elem_of_nil.
  - destruct (negb (String.eqb (data code) "")
              && negb (bool_decide (data code ∈ D))) eqn:Hnew.
    + apply andb_prop in Hnew as [Hne Hin].
      apply negb_true_iff in Hne, Hin.
      apply String.eqb_neq in Hne. apply bool_decide_eq_false in Hin.
      unfold bind in Hrun. simpl in Hrun.
      apply IH in Hrun
        as (kept & -> & Hres & Hsub & Hnd & Hd & Hcam & Hout & Hticks).
      simpl in *.
      exists (code :: kept). rewrite fmap_cons. simpl.
      split.
      { f_equal. apply set_eq. intros d.
        rewrite !elem_of_union. tauto. }
      split; [by rewrite Hres, <- app_assoc|].
      split; [by constructor|].
      split.
      { constructor; [|done]. intros Hc.
        destruct (Hd _ Hc) as [_ Hc']. apply Hc'.
        apply elem_of_union_l. by apply elem_of_singleton. }
      split; [|done].
      intros d [->|Hk]%elem_of_cons; [done|].
      destruct (Hd _ Hk) as [Hd1 Hd2]. split; [done|].
      intros Hin'. apply Hd2. by apply elem_of_union_r.
    + apply IH in Hrun
        as (kept & -> & Hres & Hsub & Hnd & Hd & Hcam & Hout & Hticks).
      exists kept. repeat split; try done; try (by apply Hd).
      by constructor.
Qed.

Lemma collected_same detected w w' :
  self w' = self w → (ticks w ≤ ticks w')%nat → collected clock detected w w'.
Proof.
  intros Hself Hticks. exists []. rewrite app_nil_r, Hself.
  split; [done|]. split; [apply NoDup_nil_2|].
  split; [by intros d ?%elem_of_nil|].
  split; [apply stamped_nil|done].
Qed.

Lemma collected_more detected w w1 w2 kept :
  results (self w1) = results (self w) ++ kept →
  NoDup (data <$> kept) →
  (∀ d, d ∈ data <$> kept → d ≠ "" ∧ d ∉ detected) →
  stamped clock (ticks w) (ticks w1) kept →
  (ticks w ≤ ticks w1)%nat →
  camera (self w1) = camera (self w) →
  output_file (self w1) = output_file (self w) →
  collected clock (list_to_set (data <$> kept) ∪ detected) w1 w2 →
  collected clock detected w w2.
Proof.
  intros Hres Hnd Hd Hst Hticks Hcam Hout
    (kept' & Hres' & Hnd' & Hd' & Hst' & Hticks' & Hcam' & Hout').
  exists (kept ++ kept').
  split; [by rewrite Hres', Hres, app_assoc|].
  split.
  { rewrite fmap_app. apply NoDup_app. split; [done|]. split; [|done].
    intros d Hin Hin'. destruct (Hd' d Hin') as [_ Hout''].
    apply Hout''. apply elem_of_union_l. by apply elem_of_list_to_set. }
  split.
  { intros d. rewrite fmap_app. intros [Hin|Hin]%elem_of_app.
    - by apply Hd.
    - destruct (Hd' d Hin) as [Hne Hnot]. split; [done|].
      intros Hdet. apply Hnot. by apply elem_of_union_r. }
  split; [by eapply stamped_app|].
  split; [lia|]. split; congruence.
Qed.

Lemma frame_loop_collects duration show_preview start_time frames :
  ∀ detected_codes w r w',
    frame_loop clock frames duration show_preview start_time
      detected_codes w = (r, w') →
    collected clock detected_codes w w'.
Proof.
  induction frames as [|turn rest IH]; intros D w r w' Hrun; simpl in Hrun.
  { injection Hrun as <- <-. by apply collected_same. }
  destruct (read turn) as [e| |frame].
  { injection Hrun as <- <-. by apply collected_same. }
  { injection Hrun as <- <-. by apply collected_same. }
  unfold bind at 1 in Hrun.
  set (check := if (0 <? duration)%Z then _ else _) in Hrun.
  assert (∃ expired w1, check w = (Ret expired, w1) ∧ self w1 = self w
                        ∧ (ticks w ≤ ticks w1)%nat)
    as (expired & w1 & Hcheck & Hself1 & Hticks1).
  { subst check. destruct (0 <? duration)%Z.
    - eexists _, _. split; [reflexivity|]. simpl. split; [done|lia].
    - eexists _, _. split; [reflexivity|]. simpl. split; [done|lia]. }
  rewrite Hcheck in Hrun. clear check Hcheck.
  destruct expired.
  { injection Hrun as <- <-. by apply collected_same. }
  unfold bind at 1 in Hrun.
  destruct (_decode_qr_codes clock frame "webcam" w1) as [[codes|e] w2] eqn:Hdec;
    apply _decode_qr_codes_scans in Hdec as (Hself2 & Hticks2 & _ & Hcodes).
  2:{ injection Hrun as <- <-. apply collected_same; [congruence|lia]. }
  specialize (Hcodes codes eq_refl).
  unfold bind at 1 in Hrun.
  destruct (keep_new codes D w2) as [r3 w3] eqn:Hkeep.
  apply keep_new_spec in Hkeep
    as (kept & -> & Hres & Hsub & Hnd & Hd & Hcam & Hout & Hticks3).
  assert (collected clock (list_to_set (data <$> kept) ∪ D) w3 w' →
          collected clock D w w') as Hmore.
  { apply collected_more; try done.
    - rewrite Hres. congruence.
    - rewrite Hticks3. eapply stamped_weaken; [exact Hticks1|reflexivity|].
      by eapply stamped_sublist.
    - lia.
    - congruence.
    - congruence. }
  destruct show_preview.
  - destruct (key turn) as [e|code].
    + injection Hrun as <- <-. by apply Hmore, collected_same.
    + destruct (Z.land code 255 =? 113)%Z.
      * injection Hrun as <- <-. by apply Hmore, collected_same.
      * apply Hmore. by eapply IH.
  - apply Hmore. by eapply IH.
Qed.

(** *** Statements that leave the scanner alone *)

Variable isoformat : datetime -> string.
Variable strftime : string -> datetime -> string.
Variable writable : string -> bool.

Lemma untouched_now : along untouched (now clock).
Proof. intros w. split; simpl; [done|lia]. Qed.

Lemma untouched_logger lvl msg : along untouched (logger lvl msg).
Proof. by intros w. Qed.

Lemma untouched_print line : along untouched (print line).
Proof. by intros w. Qed.

Lemma untouched_write_file filename doc :
  along untouched (write_file filename doc).
Proof. by intros w. Qed.

Lemma untouched_get_self {A} (k : QRCodeScanner -> M A) :
  (∀ s, along untouched (k s)) → along untouched (bind get_self k).
Proof. intros Hk. apply along_bind; [apply _|by intros w|done]. Qed.

Create HintDb untouched.
Hint Resolve untouched_now untouched_logger untouched_print
  untouched_write_file : untouched.

Ltac untouched :=
  repeat first
    [ solve [auto with untouched]
    | apply (along_ret untouched)
    | apply (along_raise untouched)
    | apply untouched_get_self; intros ?
    | apply (along_bind untouched); [|intros ?]
    | match goal with
      | |- along untouched (match ?x with _ => _ end) => destruct x
      | |- along untouched (if ?b then _ else _) => destruct b
      end ].

Lemma untouched_open_and_write filename doc :
  along untouched (open_and_write writable filename doc).
Proof. unfold open_and_write. untouched. Qed.
Hint Resolve untouched_open_and_write : untouched.

Lemma untouched_save_results filename :
  along untouched (save_results clock isoformat strftime writable filename).
Proof.
  unfold save_results, truthy. untouched.
Qed.
Hint Resolve untouched_save_results : untouched.

Lemma untouched_export_to_text filename :
  along untouched (export_to_text clock isoformat strftime writable filename).
Proof. unfold export_to_text. untouched. Qed.
Hint Resolve untouched_export_to_text : untouched.

Lemma untouched_export out :
  along untouched (export clock isoformat strftime writable out).
Proof.
  unfold export. untouched.
Qed.
Hint Resolve untouched_export : untouched.

Lemma untouched_display rs : ∀ i, along untouched (display i rs).
Proof. induction rs as [|code rest IH]; intros i; simpl; untouched. Qed.

Lemma untouched_scan_image image_path :
  along untouched (scan_image clock fs image_path).
Proof.
  intros w. destruct (scan_image clock fs image_path w) as [r w'] eqn:Hrun.
  apply scan_image_scans in Hrun as (Hself & Hticks & _). by split.
Qed.

(** *** Scanning a directory *)

(** The loop of [scan_directory] gathers what [scan_image] returns for
    each file in turn and never leaves by an exception. *)
Lemma scan_files_sequentially files : ∀ results w,
  ∃ css w',
    scan_sequentially clock fs files w = (Ret css, w')
    ∧ scan_files clock fs files results w = ((results ++ concat css, None), w')
    ∧ untouched w w'
    ∧ stamped clock (ticks w) (ticks w') (concat css).
Proof.
  induction files as [|f rest IH]; intros acc w; simpl.
  - exists [], w. simpl. rewrite app_nil_r.
    repeat split; try done. apply stamped_nil.
  - unfold bind at 1 3. unfold bind at 1 2. rewrite logger_run.
    set (w0 := {| self := self w; ticks := ticks w;
                  log := log w ++ [(INFO, "Scanning: " +:+ str_of_path f)];
                  stdout := stdout w; written := written w |}).
    destruct (scan_image clock fs f w0) as [r w1] eqn:Hrun.
    apply scan_image_scans in Hrun as (Hself & Hticks & codes & -> & Hst).
    destruct (IH (acc ++ codes) w1) as (css & w' & Hseq & Hfiles & [Hs Ht] & Hst').
    exists (codes :: css), w'. unfold bind. rewrite Hseq, Hfiles.
    subst w0. simpl in *.
    rewrite app_assoc. repeat split; try done.
    + congruence.
    + lia.
    + eapply stamped_app; [| |exact Hst|exact Hst']; lia.
Qed.

Lemma scan_directory_run directory recursive w :
  exists_ fs directory = true →
  scan_directory clock fs directory recursive w
  = (let! css :=
       (logger INFO ("Found "
                     +:+ Py.str_of_nat (length (image_files fs directory recursive))
                     +:+ " image files to scan") ;;;
        scan_sequentially clock fs (image_files fs directory recursive)) in
     ret (concat css)) w.
Proof.
  intros Hex. unfold scan_directory. rewrite Hex. simpl.
  unfold bind at 1 3. unfold bind at 2. rewrite !logger_run.
  match goal with |- context [scan_files _ _ ?files ?acc ?w0] =>
    destruct (scan_files_sequentially files acc w0)
      as (css & w' & Hseq & Hfiles & _)
  end.
  by rewrite Hfiles, Hseq.
Qed.

(** [scan_directory] returns, whatever the file system holds. *)
Lemma scan_directory_scans directory recursive w r w' :
  scan_directory clock fs directory recursive w = (r, w') →
  self w' = self w ∧ (ticks w ≤ ticks w')%nat
  ∧ ∃ rs, r = Ret rs ∧ stamped clock (ticks w) (ticks w') rs.
Proof.
  destruct (exists_ fs directory) eqn:Hex.
  - rewrite scan_directory_run by done.
    unfold bind at 1. unfold bind at 1. rewrite logger_run.
    match goal with |- context [scan_sequentially _ _ ?files ?w0] =>
      destruct (scan_files_sequentially files [] w0)
        as (css & w1 & Hseq & _ & [Hself Hticks] & Hst)
    end.
    rewrite Hseq. intros [= <- <-]. simpl in *. eauto.
  - unfold scan_directory. rewrite Hex. simpl. intros [= <- <-]. simpl.
    split; [done|]. split; [done|]. eexists. split; [done|apply stamped_nil].
Qed.

Lemma untouched_scan_directory directory recursive :
  along untouched (scan_directory clock fs directory recursive).
Proof.
  intros w.
  destruct (scan_directory clock fs directory recursive w) as [r w'] eqn:Hrun.
  apply scan_directory_scans in Hrun as (Hself & Hticks & _). by split.
Qed.

(** *** One call of [scan_webcam] *)

(** The cleanup returns and leaves no handle, and nothing else changes. *)
Lemma _release_camera_run w :
  ∃ w', _release_camera w = (Ret tt, w')
        ∧ camera (self w') = None
        ∧ results (self w') = results (self w)
        ∧ output_file (self w') = output_file (self w)
        ∧ ticks w' = ticks w ∧ log w' = log w
        ∧ stdout w' = stdout w ∧ written w' = written w.
Proof.
  unfold _release_camera, bind, get_self.
  destruct (camera (self w)) as [cam|] eqn:Hcam; simpl.
  - eexists. split; [reflexivity|]. by simpl.
  - exists w. by repeat split.
Qed.

(** What a call appends and how it leaves the camera handle, by the way
    the camera opened. *)
Lemma scan_webcam_spec dev duration show_preview w r w' :
  scan_webcam clock dev duration show_preview w = (r, w') →
  ∃ kept,
    results (self w') = results (self w) ++ kept
    ∧ NoDup (data <$> kept)
    ∧ (∀ d, d ∈ data <$> kept → d ≠ "")
    ∧ stamped clock (ticks w) (ticks w') kept
    ∧ (ticks w ≤ ticks w')%nat
    ∧ output_file (self w') = output_file (self w)
    ∧ match opening dev with
      | Raise KeyboardInterrupt =>
          r = Raise KeyboardInterrupt ∧ self w' = self w
      | Raise (Exception _) =>
          r = Ret [] ∧ camera (self w') = None ∧ kept = []
      | Ret false =>
          r = Ret [] ∧ camera (self w') = Some {| isOpened := false |}
          ∧ kept = []
      | Ret true =>
          (r = Raise KeyboardInterrupt
           ∧ camera (self w') = Some {| isOpened := true |})
          ∨ (camera (self w') = None
             ∧ (r = Ret (results (self w')) ∨ r = Ret []))
      end.
Proof.
  unfold scan_webcam, try_except, open_camera.
  destruct (opening dev) as [[|]|[msg|]] eqn:Hopen; unfold bind; simpl.
  - (* the camera opened *)
    match goal with |- context [frame_loop _ _ _ _ ?st ?D ?w2] =>
      destruct (frame_loop clock (feed dev) duration show_preview st D w2)
        as [[[]|[msg|]] w3] eqn:Hloop;
      apply frame_loop_collects in Hloop
        as (kept & Hres & Hnd & Hd & Hst & Hticks & Hcam & Hout)
    end; simpl in *.
    + destruct (_release_camera_run w3)
        as (w4 & -> & Hc4 & Hr4 & Ho4 & Ht4 & _).
      simpl. intros [= <- <-]. exists kept. rewrite Hr4, Ho4, Ht4.
      split; [done|]. split; [done|]. split; [by intros d Hin; apply Hd|].
      split; [eapply stamped_weaken; [| |exact Hst]; lia|].
      split; [lia|]. split; [done|]. right. split; [done|]. by left.
    + match goal with |- context [_release_camera ?w0] =>
        destruct (_release_camera_run w0)
          as (w4 & -> & Hc4 & Hr4 & Ho4 & Ht4 & _)
      end.
      simpl in *. intros [= <- <-]. exists kept. rewrite Hr4, Ho4, Ht4.
      split; [done|]. split; [done|]. split; [by intros d Hin; apply Hd|].
      split; [eapply stamped_weaken; [| |exact Hst]; lia|].
      split; [lia|]. split; [done|]. right. split; [done|]. by right.
    + intros [= <- <-]. exists kept.
      split; [done|]. split; [done|]. split; [by intros d Hin; apply Hd|].
      split; [eapply stamped_weaken; [| |exact Hst]; lia|].
      split; [lia|]. split; [done|]. left. by rewrite Hcam.
  - (* the camera did not open *)
    intros [= <- <-]. simpl. exists []. rewrite app_nil_r.
    split; [done|]. split; [apply NoDup_nil_2|].
    split; [by intros d ?%elem_of_nil|]. split; [apply stamped_nil|done].
  - (* opening raised an exception *)
    match goal with |- context [_release_camera ?w0] =>
      destruct (_release_camera_run w0)
        as (w4 & -> & Hc4 & Hr4 & Ho4 & Ht4 & _)
    end.
    simpl in *. intros [= <- <-]. exists []. rewrite app_nil_r, Hr4, Ho4, Ht4.
    split; [done|]. split; [apply NoDup_nil_2|].
    split; [by intros d ?%elem_of_nil|]. split; [apply stamped_nil|done].
  - (* opening was interrupted *)
    intros [= <- <-]. exists []. rewrite app_nil_r.
    split; [done|]. split; [apply NoDup_nil_2|].
    split; [by intros d ?%elem_of_nil|]. split; [apply stamped_nil|done].
Qed.

Lemma grows_scan_webcam dev duration show_preview :
  along (grows clock) (scan_webcam clock dev duration show_preview).
Proof.
  intros w.
  destruct (scan_webcam clock dev duration show_preview w) as [r w'] eqn:Hrun.
  apply scan_webcam_spec in Hrun as (kept & Hres & _ & _ & Hst & Hticks & _).
  split; [done|]. by exists kept.
Qed.

Lemma along_untouched_grows {A} (m : M A) :
  along untouched m → along (grows clock) m.
Proof. intros Hm w. apply untouched_grows, Hm. Qed.

Lemma grows_release_camera : along (grows clock) _release_camera.
Proof.
  intros w. destruct (_release_camera_run w) as (w' & -> & _ & Hr & _ & Ht & _).
  simpl. split; [lia|]. exists []. rewrite app_nil_r.
  split; [done|apply stamped_nil].
Qed.

(** *** A calm camera *)

Lemma decode_each_valid codes source : ∀ acc w,
  Forall (λ code, Py.utf8_valid (zdata code) = true) codes →
  ∃ rs w', decode_each clock codes source acc w = (Ret rs, w').
Proof.
  induction codes as [|code rest IH]; intros acc w Hvalid; simpl.
  - by eexists _, _.
  - apply Forall_cons in Hvalid as [Hcode Hrest].
    unfold Py.decode_utf8. rewrite Hcode. unfold bind, now. simpl.
    by apply IH.
Qed.

Lemma frame_loop_calm duration show_preview start_time frames :
  Forall calm_turn frames →
  ∀ detected_codes w,
    ∃ w', frame_loop clock frames duration show_preview start_time
            detected_codes w = (Ret tt, w').
Proof.
  induction 1 as [|turn rest [Hread Hkey] _ IH]; intros D w; simpl.
  { by eexists. }
  destruct (read turn) as [e| |[found|why]]; try done.
  { by eexists. }
  unfold bind at 1.
  set (check := if (0 <? duration)%Z then _ else _).
  assert (∃ expired w1, check w = (Ret expired, w1))
    as (expired & w1 & ->).
  { subst check. destruct (0 <? duration)%Z; by eexists _, _. }
  destruct expired; [by eexists|].
  unfold bind at 1. unfold _decode_qr_codes, bind at 1. simpl.
  destruct (decode_each_valid found "webcam" [] w1 Hread) as (codes & w2 & ->).
  unfold bind at 1.
  destruct (keep_new codes D w2) as [r3 w3] eqn:Hkeep.
  destruct (keep_new_spec _ _ _ _ _ Hkeep) as (kept & -> & _).
  destruct show_preview; [|apply IH].
  destruct (key turn) as [e|code]; [done|].
  destruct (Z.land code 255 =? 113)%Z; [by eexists|apply IH].
Qed.

(** With a calm camera the call ends by its last statement: it returns
    the whole collection. *)
Lemma scan_webcam_calm dev duration show_preview w :
  calm dev →
  ∃ w', scan_webcam clock dev duration show_preview w
        = (Ret (results (self w')), w').
Proof.
  intros [Hopen Hfeed]. unfold scan_webcam, try_except, open_camera.
  rewrite Hopen. unfold bind. simpl.
  match goal with |- context [frame_loop _ _ _ _ ?st ?D ?w2] =>
    destruct (frame_loop_calm duration show_preview st _ Hfeed D w2)
      as (w3 & ->)
  end.
  destruct (_release_camera_run w3) as (w4 & -> & _).
  by exists w4.
Qed.

(** *** The command-line entry point *)

Ltac grows :=
  repeat first
    [ solve [apply along_untouched_grows; untouched]
    | apply grows_scan_webcam
    | apply grows_release_camera
    | apply (along_ret (grows clock))
    | apply (along_bind (grows clock)); [|intros ?]
    | match goal with
      | |- along (grows clock) (match ?x with _ => _ end) => destruct x
      | |- along (grows clock) (if ?b then _ else _) => destruct b
      end ].

Hint Resolve untouched_display untouched_scan_image
  untouched_scan_directory : untouched.

Lemma grows_cli args dev :
  along (grows clock) (cli clock isoformat strftime fs writable args dev).
Proof. unfold cli, truthy. grows. Qed.

Lemma main_stamped args dev :
  let w' := snd (main clock isoformat strftime fs writable args dev) in
  stamped clock 0 (ticks w') (results (self w')).
Proof.
  unfold main. destruct (wants_gui args); simpl; [apply stamped_nil|].
  pose proof (grows_cli args dev (boot (arg_output args))) as Hcli.
  destruct (cli clock isoformat strftime fs writable args dev
              (boot (arg_output args))) as [[[]|[msg|]] w1]; simpl in *.
  - destruct Hcli as (_ & more & -> & Hst). by simpl in *.
  - destruct Hcli as (_ & more & -> & Hst). by simpl in *.
  - unfold bind. simpl.
    match goal with |- context [_release_camera ?w0] =>
      destruct (_release_camera_run w0) as (w2 & Hrel & _ & Hr & _ & Ht & _)
    end.
    rewrite Hrel. simpl in *. rewrite Hr, Ht.
    destruct Hcli as (_ & more & -> & Hst). by simpl in *.
Qed.

Lemma along_bind_snd {A B} (R : World -> World -> Prop) `{!Reflexive R}
    (m : M A) (k : A -> M B) w :
  (∀ a, along R (k a)) → R (snd (m w)) (snd (bind m k w)).
Proof.
  intros Hk. unfold bind. destruct (m w) as [[a|e] w1]; simpl; [apply Hk|done].
Qed.

Lemma bind_interrupted {A B} (m : M A) (k : A -> M B) w :
  fst (m w) = Raise KeyboardInterrupt →
  fst (bind m k w) = Raise KeyboardInterrupt.
Proof.
  unfold bind. destruct (m w) as [[a|e] w1]; simpl; [discriminate|].
  by intros [= ->].
Qed.

(** In a webcam run of the command line no handle is left, unless the
    camera did not open. *)
Lemma main_releases args dev :
  arg_webcam args = true → wants_gui args = false →
  opening dev ≠ Ret false →
  camera (self (snd (main clock isoformat strftime fs writable args dev))) = None.
Proof.
  intros Hweb Hgui Hopen. unfold main. rewrite Hgui.
  destruct (cli clock isoformat strftime fs writable args dev
              (boot (arg_output args))) as [r w1] eqn:Hcli.
  assert (r ≠ Raise KeyboardInterrupt → camera (self w1) = None) as Hnone.
  { intros Hr. revert Hcli. unfold cli. rewrite Hweb.
    set (scan := scan_webcam clock dev (arg_duration args)
                   (negb (arg_no_preview args))).
    set (w0 := boot (arg_output args)).
    intros Hcli.
    match type of Hcli with bind (bind scan ?p) ?k w0 = _ =>
      assert (untouched (snd (bind scan p w0)) w1) as [Hself _];
      [ replace w1 with (snd (bind (bind scan p) k w0)) by (by rewrite Hcli);
        apply (along_bind_snd untouched); intros ?; unfold truthy; untouched
      | assert (untouched (snd (scan w0)) (snd (bind scan p w0))) as [Hself' _]
          by (apply (along_bind_snd untouched); intros ?; untouched);
        assert (fst (scan w0) ≠ Raise KeyboardInterrupt) as Hscan
          by (intros Hki; apply Hr;
              replace r with (fst (bind (bind scan p) k w0)) by (by rewrite Hcli);
              by do 2 apply bind_interrupted) ]
    end.
    rewrite Hself, Hself'.
    destruct (scan w0) as [r0 w2] eqn:Hrun. subst scan. simpl in *.
    apply scan_webcam_spec in Hrun as (kept & _ & _ & _ & _ & _ & _ & Hcase).
    destruct (opening dev) as [[|]|[msg|]]; try done.
    - by destruct Hcase as [[? _]|[? _]].
    - by destruct Hcase as (_ & ? & _).
    - by destruct Hcase as [? _]. }
  destruct r as [[]|[msg|]]; simpl.
  - by apply Hnone.
  - by apply Hnone.
  - unfold bind. simpl.
    match goal with |- context [_release_camera ?w0] =>
      destruct (_release_camera_run w0) as (w2 & Hrel & Hcam & _)
    end.
    by rewrite Hrel.
Qed.

(** An image or directory run of the command line ends with the empty
    collection it started with. *)
Lemma main_scans_keep_nothing args dev :
  arg_webcam args = false →
  results (self (snd (main clock isoformat strftime fs writable args dev))) = [].
Proof.
  intros Hweb. unfold main. destruct (wants_gui args); [done|].
  assert (along untouched (cli clock isoformat strftime fs writable args dev))
    as Hcli by (unfold cli, truthy; rewrite Hweb; untouched).
  specialize (Hcli (boot (arg_output args))) as [Hself _].
  destruct (cli clock isoformat strftime fs writable args dev
              (boot (arg_output args))) as [[[]|[msg|]] w1]; simpl in *.
  - by rewrite Hself.
  - by rewrite Hself.
  - unfold bind. simpl.
    match goal with |- context [_release_camera ?w0] =>
      destruct (_release_camera_run w0) as (w2 & Hrel & _ & Hr & _)
    end.
    rewrite Hrel. simpl in *. by rewrite Hr, Hself.
Qed.

End Scanning.

End ScannerFacts.

(** ** Facts about the commit generator *)

Module CommitsFacts.

Import Stmt StmtFacts Commits CommitsVocabulary.
Local Open Scope py_scope.

Lemma choice_run seq w :
  seq ≠ [] → ∃ x, choice seq w = (Ret x, drawn w) ∧ In x seq.
Proof.
  intros Hne. destruct seq as [|a rest]; [done|].
  unfold choice, bind, draw, drawn. simpl fst. simpl snd. cbv beta iota.
  eexists. split; [reflexivity|].
  apply nth_In.
  set (len := length (a :: rest)).
  assert (N.of_nat len ≠ 0%N) as Hlen by (subst len; simpl; lia).
  pose proof (N.mod_lt (hd 0%N (draws w)) (N.of_nat len) Hlen). lia.
Qed.

Lemma templates_plain commit_type :
  In commit_type COMMIT_TYPES →
  templates_of commit_type ≠ [] ∧ forallb plain (templates_of commit_type) = true.
Proof.
  intros Hin. simpl in Hin.
  repeat (destruct Hin as [<-|Hin]; [by vm_compute|]). done.
Qed.

Lemma random_below_run num w : ∃ b, random_below num w = (Ret b, drawn w).
Proof. by eexists. Qed.

Lemma randint_run a b w : ∃ n, randint a b w = (Ret n, drawn w).
Proof. by eexists. Qed.

(** *** Lines and letters *)

Lemma lower_char_lf c :
  Ascii.eqb (Py.lower_char c) "010"%char = Ascii.eqb c "010"%char.
Proof. by destruct c as [[] [] [] [] [] [] [] []]. Qed.

Lemma upper_char_lf c :
  Ascii.eqb (Py.upper_char c) "010"%char = Ascii.eqb c "010"%char.
Proof. by destruct c as [[] [] [] [] [] [] [] []]. Qed.

Lemma upper_char_upper c : Py.is_lower c = true → Py.is_upper (Py.upper_char c) = true.
Proof. by destruct c as [[] [] [] [] [] [] [] []]. Qed.

Lemma lower_not_brace c : Py.is_lower c = true → Ascii.eqb "{"%char c = false.
Proof. by destruct c as [[] [] [] [] [] [] [] []]. Qed.

Lemma one_line_app a b : one_line (a +:+ b) = one_line a && one_line b.
Proof.
  induction a as [|c a IH]; simpl; [done|]. by rewrite IH, andb_assoc.
Qed.

Lemma one_line_lower s : one_line (Py.lower s) = one_line s.
Proof. induction s as [|c s IH]; simpl; [done|]. by rewrite lower_char_lf, IH. Qed.

Lemma one_line_capitalize s : one_line (Py.capitalize s) = one_line s.
Proof. destruct s as [|c s]; simpl; [done|]. by rewrite upper_char_lf, one_line_lower. Qed.

Lemma one_line_substring s : ∀ n m,
  one_line s = true → one_line (String.substring n m s) = true.
Proof.
  induction s as [|c s IH]; intros n m Hs; simpl in *.
  - by destruct n, m.
  - apply andb_prop in Hs as [Hc Hs].
    destruct n as [|n]; [destruct m as [|m]; [done|]|]; simpl.
    + rewrite Hc. simpl. by apply IH.
    + by apply IH.
Qed.

Lemma replace_from_cons fuel old new c s :
  Py.replace_from (S fuel) old new (String c s)
  = if Py.startswith old (String c s)
    then new +:+ Py.replace_from fuel old new
                   (String.substring (String.length old)
                      (String.length (String c s) - String.length old)
                      (String c s))
    else String c (Py.replace_from fuel old new s).
Proof. reflexivity. Qed.

Lemma one_line_replace_from old new fuel : ∀ s,
  one_line new = true → one_line s = true →
  one_line (Py.replace_from fuel old new s) = true.
Proof.
  induction fuel as [|fuel IH]; intros s Hnew Hs; [done|].
  destruct s as [|c s]; [done|]. rewrite replace_from_cons.
  destruct (Py.startswith old (String c s)).
  - rewrite one_line_app, Hnew, andb_true_l. apply IH; [done|].
    by apply one_line_substring.
  - cbn [one_line] in *. apply andb_prop in Hs as [Hc Hs].
    rewrite Hc, andb_true_l. by apply IH.
Qed.

Lemma one_line_format template scope :
  one_line template = true → one_line scope = true →
  one_line (format template scope) = true.
Proof. intros Ht Hs. by apply one_line_replace_from. Qed.

(** The first line of a one-line text followed by nothing or by a text that
    starts on a new line is that text. *)
Lemma first_line_app head body :
  one_line head = true →
  body = "" ∨ (∃ rest, body = String "010"%char rest) →
  Py.first_line (head +:+ body) = head.
Proof.
  intros Hhead Hbody. induction head as [|c head IH]; simpl in *.
  - by destruct Hbody as [->|(rest & ->)].
  - apply andb_prop in Hhead as [Hc Hhead].
    apply negb_true_iff in Hc. rewrite Hc. f_equal. by apply IH.
Qed.

(** A template that begins with a small letter keeps it when [{scope}] is
    filled in, and [capitalize] turns it into a capital. *)
Lemma format_head template scope :
  plain template = true →
  ∃ c rest, Py.is_lower c = true ∧ format template scope = String c rest.
Proof.
  destruct template as [|c rest]; [done|]. intros [Hc _]%andb_prop.
  exists c. unfold format, Py.replace. rewrite replace_from_cons.
  change (Py.startswith "{scope}" (String c rest))
    with (Ascii.eqb "{" c && Py.startswith "scope}" rest).
  rewrite (lower_not_brace c Hc), andb_false_l. by eexists.
Qed.

Lemma one_line_in (l : list string) x :
  forallb one_line l = true → In x l → one_line x = true.
Proof. intros Hall Hin. by apply (proj1 (forallb_forall one_line l) Hall). Qed.

Lemma append_empty_r s : s +:+ "" = s.
Proof.
  induction s as [|c s IH]; [done|].
  change (String c (s +:+ "") = String c s). by rewrite IH.
Qed.

(** The suffix step: the message, or the message, a space and a detail. *)
Lemma detail_run message w :
  ∃ suffix w',
    (let! detailed := random_below p_0_3 in
     if detailed then
       let! detail := choice DETAILED_MESSAGES in
       ret (message +:+ " " +:+ detail)
     else ret message) w
    = (Ret (message +:+ suffix), w')
    ∧ one_line suffix = true.
Proof.
  destruct (random_below_run p_0_3 w) as ([|] & Hb); rewrite (bind_run _ _ _ _ _ Hb).
  - destruct (choice_run DETAILED_MESSAGES (drawn w)) as (d & Hd & Hin); [done|].
    rewrite (bind_run _ _ _ _ _ Hd). exists (" " +:+ d). eexists.
    split; [reflexivity|]. simpl. by apply (one_line_in DETAILED_MESSAGES).
  - exists "". eexists. split; [|done]. by rewrite append_empty_r.
Qed.

(** The body step: nothing, or a text that starts on a new line. *)
Lemma body_run full_message (scope : string) w :
  ∃ body w',
    (let! with_body := random_below p_0_2 in
     if with_body then
       let! issue := randint 1 100 in
       let body_options :=
         [ LF +:+ LF +:+ "This change improves the " +:+ scope
             +:+ " functionality by" +:+ LF
             +:+ "implementing better error handling and validation.";
           LF +:+ LF +:+ "Closes #" +:+ Py.str_of_nat issue;
           LF +:+ LF +:+ "BREAKING CHANGE: " +:+ scope +:+ " API has been updated.";
           LF +:+ LF +:+ "This update enhances " +:+ scope
             +:+ " performance and reliability." ] in
       let! body := choice body_options in
       ret (full_message +:+ body)
     else ret full_message) w
    = (Ret (full_message +:+ body), w')
    ∧ (body = "" ∨ ∃ rest, body = String "010"%char rest).
Proof.
  destruct (random_below_run p_0_2 w) as ([|] & Hb); rewrite (bind_run _ _ _ _ _ Hb).
  - destruct (randint_run 1 100 (drawn w)) as (issue & Hi).
    rewrite (bind_run _ _ _ _ _ Hi). cbv zeta.
    match goal with |- context [choice ?opts] =>
      destruct (choice_run opts (drawn (drawn w))) as (b & Hc & Hin); [done|]
    end.
    rewrite (bind_run _ _ _ _ _ Hc). exists b. eexists. split; [reflexivity|].
    right. simpl in Hin.
    destruct Hin as [<-|[<-|[<-|[<-|[]]]]]; by eexists.
  - exists "". eexists. split; [|by left]. by rewrite append_empty_r.
Qed.

(** *** Commands issued *)

Lemma did_issued cmds w w' : did cmds w w' → issued w w' = cmds.
Proof. intros [Hc _]. unfold issued. by rewrite Hc, drop_app_length. Qed.

Lemma did_answer cmds w w' :
  did cmds w w' → hd (Completed 0 "" "") (answers w') = answer (length cmds) w.
Proof.
  intros [_ ->]. unfold answer. generalize (length cmds) as n.
  induction (answers w) as [|a l IH]; intros [|n]; simpl; done.
Qed.

Global Instance quiet_refl : Reflexive (did []).
Proof. intros w. split; [by rewrite app_nil_r|done]. Qed.

Global Instance quiet_trans : Transitive (did []).
Proof.
  intros w1 w2 w3 [C1 A1] [C2 A2]. split.
  - by rewrite C2, C1, !app_nil_r.
  - by rewrite A2, A1.
Qed.

Lemma did_then c1 c2 w w1 w2 :
  did c1 w w1 → did c2 w1 w2 → did (c1 ++ c2) w w2.
Proof.
  intros [C1 A1] [C2 A2]. split.
  - by rewrite C2, C1, app_assoc.
  - by rewrite A2, A1, drop_drop, length_app.
Qed.

Lemma quiet_print line : along (did []) (print line).
Proof. intros w. split; simpl; [by rewrite app_nil_r|done]. Qed.

Lemma quiet_draw : along (did []) draw.
Proof. intros w. split; simpl; [by rewrite app_nil_r|done]. Qed.

Lemma quiet_write_history chunks : along (did []) (write_history chunks).
Proof. intros w. split; simpl; [by rewrite app_nil_r|done]. Qed.

Lemma quiet_now clock : along (did []) (now clock).
Proof. intros w. split; simpl; [by rewrite app_nil_r|done]. Qed.

Create HintDb quiet.
#[export] Hint Resolve quiet_print quiet_draw quiet_write_history quiet_now : quiet.

Ltac quiet :=
  repeat first
    [ solve [auto with quiet]
    | apply (StmtFacts.along_ret (did []))
    | apply (StmtFacts.along_raise (did []))
    | apply (StmtFacts.along_bind (did [])); [|intros ?]
    | match goal with
      | |- along (did []) (match ?x with _ => _ end) => destruct x
      | |- along (did []) (if ?b then _ else _) => destruct b
      end ].

Lemma quiet_choice seq : along (did []) (choice seq).
Proof. unfold choice. quiet. Qed.

Lemma quiet_random_below num : along (did []) (random_below num).
Proof. unfold random_below. quiet. Qed.

Lemma quiet_randint a b : along (did []) (randint a b).
Proof. unfold randint. quiet. Qed.

#[export] Hint Resolve quiet_choice quiet_random_below quiet_randint : quiet.

Lemma quiet_generate_commit_message : along (did []) generate_commit_message.
Proof. unfold generate_commit_message. quiet. Qed.

Lemma make_dummy_change_run clock isoformat w :
  ∃ w', make_dummy_change clock isoformat w = (Ret "commit_history.txt", w')
        ∧ did [] w w'.
Proof.
  unfold make_dummy_change.
  destruct (commit_history w) eqn:Hh; eexists; (split; [reflexivity|]);
    split; simpl; by rewrite ?app_nil_r.
Qed.

Lemma write_history_run chunks w :
  ∃ w', write_history chunks w = (Ret tt, w') ∧ did [] w w'.
Proof. eexists. split; [reflexivity|]. apply quiet_write_history. Qed.

(** One call of [run_git_command]: the command is issued and one answer
    taken; it raises only when the command could not be run, and without
    [check] it returns the stripped error stream. *)
Lemma run_git_command_run command check w :
  ∃ w', did [command] w w'
        ∧ match answer 0 w with
          | NotRun msg =>
              run_git_command command check w = (Raise (Exception msg), w')
          | Completed returncode out err =>
              ∃ o, run_git_command command check w
                   = (Ret (o, if check && negb (returncode =? 0)%Z
                              then err else Py.strip err), w')
          end.
Proof.
  unfold run_git_command, subprocess_run, answer, bind. simpl.
  replace (nth 0 (answers w) (Completed 0 "" ""))
    with (hd (Completed 0 "" "") (answers w)) by (by destruct (answers w)).
  destruct (hd (Completed 0 "" "") (answers w)) as [rc out err|msg]; simpl.
  - destruct (check && negb (rc =? 0)%Z); simpl.
    + eexists. split; [|by eexists]. by split.
    + eexists. split; [|by eexists]. by split.
  - eexists. split; [|reflexivity]. by split.
Qed.

(** The message [generate_commit_message] returns: a type, a scope, the
    capitalized text of a template with or without a detail, and after them
    nothing or a body that starts on a new line. *)
Lemma generate_commit_message_run w :
  ∃ commit_type scope template suffix body w',
    generate_commit_message w
    = (Ret ((commit_type +:+ "(" +:+ scope +:+ "): "
             +:+ Py.capitalize (format template scope +:+ suffix)) +:+ body), w')
    ∧ In commit_type COMMIT_TYPES
    ∧ In scope SCOPES
    ∧ plain template = true
    ∧ one_line suffix = true
    ∧ (body = "" ∨ ∃ rest, body = String "010"%char rest).
Proof.
  unfold generate_commit_message.
  destruct (choice_run COMMIT_TYPES w) as (ct & Hct & Hin_ct); [done|].
  rewrite (bind_run _ _ _ _ _ Hct).
  destruct (choice_run SCOPES (drawn w)) as (sc & Hsc & Hin_sc); [done|].
  rewrite (bind_run _ _ _ _ _ Hsc). cbv zeta. fold (templates_of ct).
  destruct (templates_plain ct Hin_ct) as [Hne Hplain].
  destruct (choice_run (templates_of ct) (drawn (drawn w)) Hne)
    as (tpl & Htpl & Hin_tpl).
  rewrite (bind_run _ _ _ _ _ Htpl).
  destruct (detail_run (format tpl sc) (drawn (drawn (drawn w))))
    as (suffix & w4 & Hdetail & Hsuffix).
  rewrite (bind_run _ _ _ _ _ Hdetail).
  destruct (body_run
              (ct +:+ "(" +:+ sc +:+ "): "
               +:+ Py.capitalize (format tpl sc +:+ suffix)) sc w4)
    as (body & w5 & Hbody & Hstart).
  cbv zeta in Hbody. rewrite Hbody.
  exists ct, sc, tpl, suffix, body, w5. split; [done|].
  split; [done|]. split; [done|]. split; [|done].
  by apply (proj1 (forallb_forall plain _) Hplain).
Qed.

Lemma did_answer_shift cmds w w' k :
  did cmds w w' → answer k w' = answer (length cmds + k) w.
Proof.
  intros [_ Ha]. unfold answer. rewrite Ha. clear Ha.
  generalize (length cmds) as n.
  induction (answers w) as [|a l IH]; intros [|n]; simpl; try done.
  by destruct k.
Qed.

(** One turn of the loop of [create_commits], by what the commands are
    answered: which commands it issues and whether it counts a commit. *)
Lemma turn_run clock isoformat i commits_created w :
  ∃ message,
    fst (generate_commit_message w) = Ret message
    ∧ let commit := commit_command message in
      let r := fst (turn clock isoformat i commits_created w) in
      let w' := snd (turn clock isoformat i commits_created w) in
      if negb (could_run (answer 0 w)) then
        r = Ret commits_created ∧ issued w w' = [git_add]
      else if negb (could_run (answer 1 w)) then
        r = Ret commits_created ∧ issued w w' = [git_add; commit]
      else if negb (nothing_to_commit (answer 1 w)) then
        r = Ret (S commits_created) ∧ issued w w' = [git_add; commit]
      else if negb (could_run (answer 2 w)) then
        r = Ret commits_created ∧ issued w w' = [git_add; commit; git_add]
      else if negb (could_run (answer 3 w)) then
        r = Ret commits_created
        ∧ issued w w' = [git_add; commit; git_add; commit]
      else
        r = Ret (S commits_created)
        ∧ issued w w' = [git_add; commit; git_add; commit].
Proof.
  destruct (generate_commit_message_run w)
    as (ct & sc & tpl & suffix & body & w1 & Hgen & _).
  eexists. split; [by rewrite Hgen|]. cbv zeta.
  pose proof (quiet_generate_commit_message w) as Hq1.
  rewrite Hgen in Hq1. simpl in Hq1.
  set (message := (ct +:+ "(" +:+ sc +:+ "): "
                   +:+ Py.capitalize (format tpl sc +:+ suffix)) +:+ body) in *.
  unfold turn, attempt, try_except.
  rewrite (bind_run _ _ _ _ _ Hgen).
  destruct (make_dummy_change_run clock isoformat w1) as (w2 & Hdummy & Hq2).
  rewrite (bind_run _ _ _ _ _ Hdummy).
  assert (did [] w w2) as Hw2 by (by etrans).
  (* git add *)
  destruct (run_git_command_run git_add true w2) as (w3 & Hd3 & Hrun3).
  pose proof (did_then _ _ _ _ _ Hw2 Hd3) as Hw3. simpl in Hw3.
  rewrite (did_answer_shift _ _ _ 0 Hw2) in Hrun3. simpl in Hrun3.
  change ("git add " +:+ "commit_history.txt") with git_add.
  destruct (answer 0 w) as [rc0 out0 err0|msg0]; simpl.
  2:{ rewrite (bind_raise _ _ _ _ _ Hrun3). simpl.
      split; [done|]. apply did_issued. destruct Hw3 as [? ?]. by split. }
  destruct Hrun3 as (o3 & Hrun3). rewrite (bind_run _ _ _ _ _ Hrun3).
  (* git commit *)
  destruct (run_git_command_run (commit_command message) false w3)
    as (w4 & Hd4 & Hrun4).
  pose proof (did_then _ _ _ _ _ Hw3 Hd4) as Hw4. simpl in Hw4.
  rewrite (did_answer_shift _ _ _ 0 Hw3) in Hrun4. simpl in Hrun4.
  destruct (answer 1 w) as [rc1 out1 err1|msg1]; simpl.
  2:{ rewrite (bind_raise _ _ _ _ _ Hrun4). simpl.
      split; [done|]. apply did_issued. destruct Hw4 as [? ?]. by split. }
  destruct Hrun4 as (o4 & Hrun4). rewrite (bind_run _ _ _ _ _ Hrun4).
  destruct (Py.contains "nothing to commit" (Py.lower (Py.strip err1))); simpl.
  2:{ unfold bind.
      match goal with |- context [if ?b then print _ else ret _] =>
        destruct b
      end; simpl;
        (split; [done|]); apply did_issued; destruct Hw4 as [? ?]; by split. }
  (* the second attempt *)
  destruct (write_history_run ["Update " +:+ Py.str_of_nat i +:+ LF] w4)
    as (w5 & Hwrite & Hq5).
  rewrite (bind_run _ _ _ _ _ Hwrite).
  assert (did [git_add; commit_command message] w w5) as Hw5.
  { replace [git_add; commit_command message]
      with ([git_add; commit_command message] ++ []) by apply app_nil_r.
    by eapply did_then. }
  destruct (run_git_command_run git_add true w5) as (w6 & Hd6 & Hrun6).
  rewrite (did_answer_shift _ _ _ 0 Hw5) in Hrun6. simpl in Hrun6.
  pose proof (did_then _ _ _ _ _ Hw5 Hd6) as Hw6. simpl in Hw6.
  destruct (answer 2 w) as [rc2 out2 err2|msg2]; simpl.
  2:{ rewrite (bind_raise _ _ _ _ _ Hrun6). simpl.
      split; [done|]. apply did_issued. destruct Hw6 as [? ?]. by split. }
  destruct Hrun6 as (o6 & Hrun6). rewrite (bind_run _ _ _ _ _ Hrun6).
  destruct (run_git_command_run (commit_command message) false w6)
    as (w7 & Hd7 & Hrun7).
  pose proof (did_then _ _ _ _ _ Hw6 Hd7) as Hw7. simpl in Hw7.
  rewrite (did_answer_shift _ _ _ 0 Hw6) in Hrun7. simpl in Hrun7.
  destruct (answer 3 w) as [rc3 out3 err3|msg3]; simpl.
  2:{ rewrite (bind_raise _ _ _ _ _ Hrun7). simpl.
      split; [done|]. apply did_issued. destruct Hw7 as [? ?]. by split. }
  destruct Hrun7 as (o7 & Hrun7). rewrite (bind_run _ _ _ _ _ Hrun7). simpl.
  split; [done|]. by apply did_issued.
Qed.

End CommitsFacts.

(** ** Properties of the scanner *)

Module ScannerProperties.

Import Stmt StmtFacts Scanner Vocabulary ScannerFacts.
Local Open Scope py_scope.

(** C1. For every sequence of camera frames, [scan_webcam] deduplicates by
    exact match on the decoded text: what one call appends to the
    session's collection is a run of records whose [data] texts are
    pairwise different (and not empty), so a record is appended only if
    its text was not appended earlier in that call. *)
Theorem scan_webcam_deduplicates clock dev duration show_preview w :
  let w' := snd (scan_webcam clock dev duration show_preview w) in
  results (self w') = results (self w) ++ appended w w'
  ∧ NoDup (data <$> appended w w')
  ∧ ∀ r, r ∈ appended w w' → data r ≠ "".
Proof.
  intros w'. subst w'.
  destruct (scan_webcam clock dev duration show_preview w) as [r w'] eqn:Hrun.
  apply scan_webcam_spec in Hrun as (kept & Hres & Hnd & Hne & _).
  simpl. unfold appended. rewrite Hres, drop_app_length.
  split; [done|]. split; [done|].
  intros rec Hrec. apply Hne. by apply list_elem_of_fmap_2.
Qed.

Lemma supported_formats_lower e :
  e ∈ supported_formats → Py.lower e = e.
Proof.
  unfold supported_formats. rewrite !elem_of_union, !elem_of_singleton.
  intros H. repeat destruct H as [H|H]; by subst.
Qed.

Lemma is_image_file_case f :
  is_image_file f = true
  ↔ ∃ e, e ∈ supported_formats ∧ same_ignoring_case (suffix f) e.
Proof.
  unfold is_image_file, same_ignoring_case. rewrite bool_decide_eq_true. split.
  - intros Hin. exists (Py.lower (suffix f)). split; [done|].
    symmetry. by apply supported_formats_lower.
  - intros (e & He & Heq). rewrite Heq.
    by rewrite supported_formats_lower.
Qed.

Lemma filter_sublist {A} (p : A -> bool) (l : list A) :
  sublist (List.filter p l) l.
Proof.
  induction l as [|x l IH]; simpl; [done|].
  destruct (p x); by constructor.
Qed.

(** C2. For every directory tree, [scan_directory] enumerates the entries of
    the directory, or every entry below it when [recursive] is true, selects
    exactly those whose suffix is, up to the case of its letters, one of the
    seven supported ones, keeps them in enumeration order, applies
    [scan_image] to each in turn and returns the concatenation of the
    results. *)
Theorem scan_directory_scans_image_files clock fs directory recursive w :
  exists_ fs directory = true →
  let files := image_files fs directory recursive in
  (∀ f, f ∈ glob fs directory recursive
        ↔ ∃ n rest, resolve directory fs = Some n
                    ∧ f = directory ++ rest
                    ∧ inside n rest
                    ∧ (recursive = true ∨ length rest = 1))
  ∧ (∀ f, f ∈ files
          ↔ f ∈ glob fs directory recursive
            ∧ ∃ e, e ∈ supported_formats ∧ same_ignoring_case (suffix f) e)
  ∧ sublist files (glob fs directory recursive)
  ∧ scan_directory clock fs directory recursive w
    = (let! css :=
         (logger INFO ("Found " +:+ Py.str_of_nat (length files)
                       +:+ " image files to scan") ;;;
          scan_sequentially clock fs files) in
       ret (concat css)) w.
Proof.
  intros Hex files. split; [|split; [|split]].
  - intros f. rewrite list_elem_of_In. apply glob_inside.
  - intros f. subst files. unfold image_files.
    rewrite !list_elem_of_In, filter_In, is_image_file_case. tauto.
  - apply filter_sublist.
  - by apply scan_directory_run.
Qed.

(** C4. For every session state, [save_results] hands to [json.dump] an
    object with exactly the keys [scan_date], [total_codes] and [results],
    in this order. [scan_date] is the ISO text of a reading of the clock
    taken during the call, [total_codes] is the number of records of the
    session's collection, and [results] is that collection record by
    record in its order, each record being the object the decoder built:
    its [data] and [type] texts, its [rect] with the four numbers [left],
    [top], [width] and [height], its [polygon] as the list of its points,
    each a pair of numbers, its [source], and the ISO text of its
    [timestamp]. The file is the one named in the call when one is named;
    the document is written when the file can be opened, leaving the
    scanner as it was, and nothing is written otherwise. *)
Theorem save_results_document clock isoformat strftime
    (writable : string -> bool) filename w :
  ∃ name t,
    let output :=
      JObj [ ("scan_date", JStr (isoformat (clock t)));
             ("total_codes", JInt (Z.of_nat (length (results (self w)))));
             ("results",
              JArr (List.map
                      (λ r,
                         JObj [ ("data", JStr (data r));
                                ("type", JStr (type r));
                                ("rect",
                                 JObj [ ("left", JInt (left (rect r)));
                                        ("top", JInt (top (rect r)));
                                        ("width", JInt (width (rect r)));
                                        ("height", JInt (height (rect r))) ]);
                                ("polygon",
                                 JArr (List.map
                                         (λ pt, JArr [ JInt (fst pt);
                                                       JInt (snd pt) ])
                                         (polygon r)));
                                ("source", JStr (source r));
                                ("timestamp",
                                 JStr (isoformat (timestamp r))) ])
                      (results (self w)))) ] in
    (ticks w ≤ t ≤ S (ticks w))%nat
    ∧ (∀ f, filename = Some f → name = f)
    ∧ if writable name then
        ∃ w', save_results clock isoformat strftime writable filename w
              = (Ret name, w')
              ∧ written w' = written w ++ [(name, JsonDoc output)]
              ∧ self w' = self w
      else
        ∃ msg w', save_results clock isoformat strftime writable filename w
                  = (Raise (Exception msg), w')
                  ∧ written w' = written w.
Proof.
  unfold save_results, bind, get_self. simpl.
  set (pick := match filename with Some f => _ | None => _ end).
  assert (∃ name w1, pick w = (Ret name, w1) ∧ self w1 = self w
                     ∧ written w1 = written w
                     ∧ (ticks w ≤ ticks w1 ≤ S (ticks w))%nat
                     ∧ (∀ f, filename = Some f → name = f))
    as (name & w1 & -> & Hs & Hw & Ht & Hname).
  { subst pick. destruct filename as [f|].
    - eexists _, _. split; [reflexivity|]. repeat split; try done; try lia.
      by intros ? [= ->].
    - destruct (output_file (self w)) as [f|];
        [destruct (negb _)|];
        eexists _, _; (split; [reflexivity|]); simpl;
        repeat split; try done; lia. }
  exists name, (ticks w1). split; [done|]. split; [done|].
  unfold now, open_and_write, json_of_record. simpl.
  destruct (writable name); simpl.
  - eexists. split; [reflexivity|]. simpl. by rewrite Hw, Hs.
  - by eexists _, _.
Qed.
(** C5. For every path, if the image file does not exist or cannot be
    loaded as an image, [scan_image] returns the empty list: it logs one
    error line that names the file, does nothing else (no second attempt)
    and raises nothing. *)
Theorem scan_image_missing_or_unreadable clock fs image_path w :
  exists_ fs image_path = false ∨ imread fs image_path = None →
  let msg :=
    (if exists_ fs image_path then "Failed to load image: "
     else "Image file not found: ") +:+ str_of_path image_path in
  ∃ w', scan_image clock fs image_path w = (Ret [], w')
        ∧ logged w [(ERROR, msg)] w'.
Proof.
  intros Hbad msg. subst msg. unfold scan_image, try_except, bind.
  destruct (exists_ fs image_path) eqn:Hex; simpl.
  - destruct Hbad as [Hmissing | Hload]; [done|]. rewrite Hload. simpl.
    eexists. split; [reflexivity|]. by repeat split.
  - eexists. split; [reflexivity|]. by repeat split.
Qed.

(** C8, as amended. After every completion of [scan_webcam] in which the
    camera was opened or opening it raised an exception, the handle has
    been released by [_release_camera] and the camera field is [None]:
    when the call returns, and, when it is left by a keyboard interrupt,
    after the command-line entry point has handled it. When the camera
    does not open, [scan_webcam] returns the empty list without the
    cleanup and the field keeps the unopened capture object. *)
Theorem scan_webcam_releases_opened_camera
    clock isoformat strftime fs writable dev duration show_preview w r w' :
  scan_webcam clock dev duration show_preview w = (r, w') →
  (opening dev ≠ Ret false → r ≠ Raise KeyboardInterrupt →
   camera (self w') = None)
  ∧ (opening dev ≠ Ret false →
     ∀ args, arg_webcam args = true → wants_gui args = false →
     camera (self (snd (main clock isoformat strftime fs writable args dev)))
     = None)
  ∧ (opening dev = Ret false →
     r = Ret [] ∧ camera (self w') = Some {| isOpened := false |}).
Proof.
  intros Hrun.
  apply scan_webcam_spec in Hrun as (kept & _ & _ & _ & _ & _ & _ & Hcase).
  split; [|split].
  - intros Hopen Hr. destruct (opening dev) as [[|]|[msg|]]; try done.
    + by destruct Hcase as [[? _]|[? _]].
    + by destruct Hcase as (_ & ? & _).
    + by destruct Hcase as [? _].
  - intros Hopen args Hweb Hgui. by apply main_releases.
  - intros Hopen. rewrite Hopen in Hcase. by destruct Hcase as (? & ? & _).
Qed.

(** C9. [scan_image] and [scan_directory] leave the scanner, and so its
    collection, as it is; [scan_webcam] only extends the collection, and
    does extend it; so an image or directory run of the command line ends
    with the collection the scanner was created with. *)
Theorem only_scan_webcam_appends clock isoformat strftime fs writable :
  (∀ image_path w, self (snd (scan_image clock fs image_path w)) = self w)
  ∧ (∀ directory recursive w,
       self (snd (scan_directory clock fs directory recursive w)) = self w)
  ∧ (∀ dev duration show_preview w,
       results (self w)
         `prefix_of` results (self (snd (scan_webcam clock dev duration
                                           show_preview w))))
  ∧ (∃ dev w,
       results (self (snd (scan_webcam clock dev 0 false w)))
       ≠ results (self w))
  ∧ (∀ args dev,
       arg_webcam args = false →
       results (self (snd (main clock isoformat strftime fs writable args dev)))
       = results (init (arg_output args))).
Proof.
  split; [|split; [|split; [|split]]].
  - intros p w. apply untouched_scan_image.
  - intros d rec w. apply untouched_scan_directory.
  - intros dev duration show w.
    destruct (scan_webcam clock dev duration show w) as [r w'] eqn:Hrun.
    apply scan_webcam_spec in Hrun as (kept & Hres & _). simpl.
    rewrite Hres. by apply prefix_app_r.
  - exists Examples.camera_a, (boot None).
    assert (length (results (self (snd (scan_webcam clock Examples.camera_a
                                          0 false (boot None))))) = 1)
      as Hlen by reflexivity.
    intros Hsame. rewrite Hsame in Hlen. discriminate Hlen.
  - intros args dev Hweb. by apply main_scans_keep_nothing.
Qed.

(** C10. [scan_webcam] returns a copy of the whole collection accumulated
    in the session, not only what the call detected: a call on which the
    camera opens and nothing raises returns the collection as it is after
    the call, which begins with what was there before. The set of texts
    already seen is local to a call, so a later call on the same scanner
    appends and returns a record whose text an earlier call recorded. *)
Theorem scan_webcam_returns_whole_collection clock :
  (∀ dev duration show_preview w,
     calm dev →
     ∃ w', scan_webcam clock dev duration show_preview w
           = (Ret (results (self w')), w')
           ∧ results (self w) `prefix_of` results (self w'))
  ∧ (let w1 := snd (scan_webcam clock Examples.camera_a 0 false (boot None)) in
     let w2 := snd (scan_webcam clock Examples.camera_a 0 false w1) in
     data <$> results (self w1) = ["a"]
     ∧ fst (scan_webcam clock Examples.camera_a 0 false w1)
       = Ret (results (self w2))
     ∧ data <$> results (self w2) = ["a"; "a"]).
Proof.
  split.
  - intros dev duration show w Hcalm.
    destruct (scan_webcam_calm clock dev duration show w Hcalm) as (w' & Hrun).
    exists w'. split; [done|].
    apply scan_webcam_spec in Hrun as (kept & Hres & _).
    rewrite Hres. by apply prefix_app_r.
  - split; [reflexivity|]. split; reflexivity.
Qed.

(** *** The properties at sample inputs *)

Lemma scan_directory_scans_image_files_witness :
  exists_ Examples.pictures [] = true
  ∧ image_files Examples.pictures [] true = [["a.PNG"]; ["old.png"]; ["old.png"; "b.Jpeg"]; ["old.png"; "broken.gif"]]
  ∧ sublist (image_files Examples.pictures [] true)
      (glob Examples.pictures [] true)
  ∧ (data <$>
       match fst (scan_directory Examples.clock Examples.pictures [] true
                    (boot None)) with
       | Ret rs => rs
       | Raise _ => []
       end) = ["x"; "y"; "z"].
Proof.
  split; [reflexivity|]. split; [reflexivity|].
  destruct (scan_directory_scans_image_files Examples.clock Examples.pictures
              [] true (boot None) eq_refl) as (_ & _ & Hsub & Hrun).
  split; [exact Hsub|]. rewrite Hrun. reflexivity.
Defined.

Lemma scan_image_missing_or_unreadable_witness :
  (exists_ Examples.pictures ["missing.png"] = false
   ∨ imread Examples.pictures ["missing.png"] = None)
  ∧ ∃ w',
      scan_image Examples.clock Examples.pictures ["missing.png"] (boot None)
      = (Ret [], w')
      ∧ logged (boot None) [(ERROR, "Image file not found: missing.png")] w'.
Proof.
  split; [left; reflexivity|].
  exact (scan_image_missing_or_unreadable Examples.clock Examples.pictures
           ["missing.png"] (boot None) (or_introl eq_refl)).
Defined.

Lemma examples_clock_monotone : monotone Examples.clock.
Proof. intros i j Hij. unfold Examples.clock. lia. Qed.

Lemma camera_abc_returns :
  returned (fst (scan_webcam Examples.clock Examples.camera_abc 30 true
                   (boot None))) = true.
Proof. reflexivity. Qed.

Lemma scan_webcam_releases_opened_camera_witness :
  let run := scan_webcam Examples.clock Examples.camera_abc 30 true (boot None) in
  run = (fst run, snd run)
  ∧ opening Examples.camera_abc ≠ Ret false
  ∧ fst run ≠ Raise KeyboardInterrupt
  ∧ camera (self (snd run)) = None.
Proof.
  intros run.
  assert (run = (fst run, snd run)) as Hrun by apply surjective_pairing.
  assert (opening Examples.camera_abc ≠ Ret false) as Hopen by discriminate.
  assert (fst run ≠ Raise KeyboardInterrupt) as Hret.
  { intros H. pose proof camera_abc_returns as H0. fold run in H0.
    rewrite H in H0. discriminate H0. }
  split; [exact Hrun|]. split; [exact Hopen|]. split; [exact Hret|].
  exact (proj1 (scan_webcam_releases_opened_camera Examples.clock
                  Examples.isoformat Examples.strftime Examples.pictures
                  Examples.writable Examples.camera_abc 30 true (boot None)
                  (fst run) (snd run) Hrun) Hopen Hret).
Defined.

(** C8, as stated, fails when the camera does not open: the call completes
    and the camera field is not [None]. *)
Lemma scan_webcam_unopened_keeps_handle :
  let run := scan_webcam Examples.clock Examples.camera_closed 30 true
               (boot None) in
  fst run = Ret [] ∧ camera (self (snd run)) ≠ None.
Proof. split; [reflexivity|]. intros H. discriminate H. Qed.

Lemma only_scan_webcam_appends_witness :
  arg_webcam Examples.image_args = false
  ∧ results (self (snd (main Examples.clock Examples.isoformat
                          Examples.strftime Examples.pictures Examples.writable
                          Examples.image_args Examples.camera_a)))
    = [].
Proof.
  split; [reflexivity|].
  exact (proj2 (proj2 (proj2 (proj2
           (only_scan_webcam_appends Examples.clock Examples.isoformat
              Examples.strftime Examples.pictures Examples.writable))))
           Examples.image_args Examples.camera_a eq_refl).
Defined.

Lemma camera_abc_calm : calm Examples.camera_abc.
Proof.
  split; [reflexivity|]. repeat constructor.
Qed.

Lemma scan_webcam_returns_whole_collection_witness :
  calm Examples.camera_abc
  ∧ ∃ w', scan_webcam Examples.clock Examples.camera_abc 0%Z true (boot None)
          = (Ret (results (self w')), w')
          ∧ results (self (boot None)) `prefix_of` results (self w').
Proof.
  split; [exact camera_abc_calm|].
  exact (proj1 (scan_webcam_returns_whole_collection Examples.clock)
           Examples.camera_abc 0%Z true (boot None) camera_abc_calm).
Defined.

End ScannerProperties.

(** ** Properties of the commit generator *)

Module CommitsProperties.

Import Stmt StmtFacts Commits CommitsVocabulary CommitsFacts.
Local Open Scope py_scope.

(** C3. For every sequence of draws of the random generator,
    [generate_commit_message] returns a text whose first line has the form
    [type(scope): Text], where the type is one of [COMMIT_TYPES], the scope
    one of [SCOPES], and the text begins with a capital letter. *)
Theorem generate_commit_message_form w :
  ∃ message commit_type scope text,
    fst (generate_commit_message w) = Ret message
    ∧ Py.first_line message = commit_type +:+ "(" +:+ scope +:+ "): " +:+ text
    ∧ commit_type ∈ COMMIT_TYPES
    ∧ scope ∈ SCOPES
    ∧ ∃ c rest, text = String c rest ∧ Py.is_upper c = true.
Proof.
  destruct (generate_commit_message_run w)
    as (ct & sc & tpl & suffix & body & w' & Hrun & Hct & Hsc & Htpl & Hsuffix
        & Hbody).
  assert (one_line ct = true) as Hct1 by (by apply (one_line_in COMMIT_TYPES)).
  assert (one_line sc = true) as Hsc1 by (by apply (one_line_in SCOPES)).
  destruct (format_head tpl sc Htpl) as (c & rest & Hc & Hformat).
  eexists _, ct, sc, _. split; [by rewrite Hrun|]. split.
  - (* the header has no line feed, and a body starts with one *)
    apply first_line_app; [|done].
    rewrite !one_line_app, one_line_capitalize, one_line_app, Hct1, Hsc1, Hsuffix.
    rewrite one_line_format; [done| |done].
    destruct tpl; [done|]. by apply andb_prop in Htpl as [_ ?].
  - split; [by apply list_elem_of_In|]. split; [by apply list_elem_of_In|].
    (* the template starts with a small letter, which capitalize raises *)
    rewrite Hformat. simpl. eexists _, _. split; [reflexivity|].
    by apply upper_char_upper.
Qed.

End CommitsProperties.

(** ** Further facts about the scanner *)

Module ScannerBehaviourFacts.

Import Stmt StmtFacts Scanner Vocabulary ScannerFacts ScannerNotions.
Local Open Scope py_scope.

Section Decoding.

Variable clock : nat -> datetime.

(** With well-formed texts the loop of [_decode_qr_codes] adds one record a
    symbol, in order, stamped by successive readings of the clock. *)
Lemma decode_each_copies codes source : ∀ acc w,
  decodable codes = true →
  ∃ new w',
    decode_each clock codes source acc w = (Ret (acc ++ new), w')
    ∧ Forall2 (record_of source) codes new
    ∧ timestamp <$> new = clock <$> seq (ticks w) (length codes)
    ∧ ticks w' = ticks w + length codes
    ∧ self w' = self w ∧ log w' = log w
    ∧ stdout w' = stdout w ∧ written w' = written w.
Proof.
  induction codes as [|code rest IH]; intros acc w Hok; simpl.
  - exists [], w. rewrite app_nil_r. split; [done|]. split; [constructor|].
    split; [done|]. split; [lia|done].
  - simpl in Hok. apply andb_prop in Hok as [Hcode Hrest].
    unfold Py.decode_utf8. rewrite Hcode. unfold bind, now. simpl.
    match goal with |- context [decode_each clock rest source ?acc' ?w1] =>
      destruct (IH acc' w1 Hrest)
        as (new & w' & Hrun & Hall & Hts & Hticks & Hself & Hlog & Hout & Hwr)
    end.
    simpl in *. eexists (_ :: new), w'. rewrite Hrun, <- app_assoc. simpl.
    split; [done|]. split; [constructor; [by repeat split|done]|].
    split; [csimpl; by rewrite Hts|]. split; [lia|done].
Qed.

(** One symbol whose bytes are not UTF-8 makes the loop raise, whatever the
    other symbols are; only the clock has been read by then. *)
Lemma decode_each_undecodable codes source : ∀ acc w,
  decodable codes = false →
  ∃ w',
    decode_each clock codes source acc w
    = (Raise (Exception "'utf-8' codec can't decode bytes"), w')
    ∧ self w' = self w ∧ log w' = log w
    ∧ stdout w' = stdout w ∧ written w' = written w.
Proof.
  induction codes as [|code rest IH]; intros acc w Hbad; simpl in *; [done|].
  unfold Py.decode_utf8.
  destruct (Py.utf8_valid (zdata code)) eqn:Hcode; simpl in Hbad.
  - unfold bind, now. simpl.
    match goal with |- context [decode_each clock rest source ?acc' ?w1] =>
      destruct (IH acc' w1 Hbad) as (w' & Hrun & Hself & Hlog & Hout & Hwr)
    end.
    exists w'. by rewrite Hrun.
  - by exists w.
Qed.

Variable fs : node.

(** Whatever [scan_image] returns carries the path it was given as its
    source. *)
Lemma scan_image_sources image_path w :
  ∃ rs w',
    scan_image clock fs image_path w = (Ret rs, w')
    ∧ Forall (λ r, source r = str_of_path image_path) rs.
Proof.
  unfold scan_image, try_except.
  destruct (exists_ fs image_path); simpl; [|by eexists _, _].
  destruct (imread fs image_path) as [[found|why]|]; simpl;
    [| by eexists _, _ | by eexists _, _].
  unfold _decode_qr_codes, bind at 1. simpl.
  destruct (decodable found) eqn:Hok.
  - destruct (decode_each_copies found (str_of_path image_path) [] w Hok)
      as (rs & w' & Hrun & Hall & _).
    rewrite Hrun. exists rs, w'. split; [done|].
    clear Hrun Hok. induction Hall as [|code r codes rs' Hr _ IH];
      [constructor|].
    constructor; [by destruct Hr as (_ & _ & _ & _ & ?)|done].
  - destruct (decode_each_undecodable found (str_of_path image_path) [] w Hok)
      as (w' & Hrun & _).
    rewrite Hrun. by eexists _, _.
Qed.

Lemma scan_sequentially_sources files : ∀ w,
  ∃ css w',
    scan_sequentially clock fs files w = (Ret css, w')
    ∧ Forall2 (λ f cs, Forall (λ r, source r = str_of_path f) cs) files css.
Proof.
  induction files as [|f rest IH]; intros w; simpl.
  - exists [], w. split; [done|constructor].
  - unfold bind at 1. unfold bind at 1. rewrite logger_run.
    match goal with |- context [scan_image clock fs f ?w0] =>
      destruct (scan_image_sources f w0) as (codes & w1 & Hrun & Hsrc)
    end.
    rewrite Hrun. destruct (IH w1) as (css & w' & Hseq & Hall).
    unfold bind. rewrite Hseq. exists (codes :: css), w'.
    split; [done|by constructor].
Qed.

End Decoding.

(** *** The frame loop, turn by turn *)

Lemma frame_loop_cons clock turn rest duration show_preview start_time
    detected_codes w :
  frame_loop clock (turn :: rest) duration show_preview start_time
    detected_codes w
  = match one_turn clock turn duration show_preview start_time detected_codes w with
    | inl r => r
    | inr (detected_codes, w') =>
        frame_loop clock rest duration show_preview start_time detected_codes w'
    end.
Proof.
  unfold one_turn. simpl. destruct (read turn) as [e| |frame]; try done.
  unfold bind at 1. destruct (0 <? duration)%Z; simpl.
  - destruct (duration * 1000000 <=? clock (ticks w) - start_time)%Z; [done|].
    unfold bind at 1.
    destruct (_decode_qr_codes clock frame "webcam" _) as [[codes|e] w2]; [|done].
    unfold bind at 1.
    destruct (keep_new codes detected_codes w2) as [[D|e] w3]; [|done].
    destruct show_preview; [|done].
    destruct (key turn) as [e|code]; [done|].
    by destruct (Z.land code 255 =? 113)%Z.
  - unfold bind at 1.
    destruct (_decode_qr_codes clock frame "webcam" w) as [[codes|e] w2]; [|done].
    unfold bind at 1.
    destruct (keep_new codes detected_codes w2) as [[D|e] w3]; [|done].
    destruct show_preview; [|done].
    destruct (key turn) as [e|code]; [done|].
    by destruct (Z.land code 255 =? 113)%Z.
Qed.

Lemma one_turn_no_limit clock turn duration show_preview start_time D w :
  (duration ≤ 0)%Z →
  one_turn clock turn duration show_preview start_time D w
  = one_turn clock turn 0 show_preview start_time D w.
Proof.
  intros Hd. unfold one_turn.
  replace (0 <? duration)%Z with false by (symmetry; apply Z.ltb_ge; lia).
  done.
Qed.

Lemma frame_loop_no_limit clock duration show_preview start_time frames :
  (duration ≤ 0)%Z →
  ∀ D w,
    frame_loop clock frames duration show_preview start_time D w
    = frame_loop clock frames 0 show_preview start_time D w.
Proof.
  intros Hd. induction frames as [|turn rest IH]; intros D w; [done|].
  rewrite !frame_loop_cons, one_turn_no_limit by done.
  destruct (one_turn clock turn 0 show_preview start_time D w) as [r|[D' w']];
    [done|apply IH].
Qed.

Lemma frame_loop_keys_unseen clock duration start_time frames frames' :
  Forall2 (λ t t', read t = read t') frames frames' →
  ∀ D w,
    frame_loop clock frames duration false start_time D w
    = frame_loop clock frames' duration false start_time D w.
Proof.
  induction 1 as [|t t' frames frames' Hread _ IH]; intros D w; [done|].
  rewrite !frame_loop_cons.
  replace (one_turn clock t' duration false start_time D w)
    with (one_turn clock t duration false start_time D w)
    by (unfold one_turn; by rewrite Hread).
  destruct (one_turn clock t duration false start_time D w) as [r|[D' w']];
    [done|apply IH].
Qed.

Lemma one_turn_last clock turn duration show_preview start_time D w :
  last_turn show_preview turn = true →
  ∃ r, one_turn clock turn duration show_preview start_time D w = inl r.
Proof.
  unfold last_turn, one_turn. destruct (read turn) as [e| |frame];
    [by eexists|by eexists|].
  intros [-> Hq]%andb_prop.
  destruct (_ && _); [by eexists|].
  destruct (_decode_qr_codes _ _ _ _) as [[codes|e] w2]; [|by eexists].
  destruct (keep_new _ _ _) as [[D'|e] w3]; [|by eexists].
  destruct (key turn) as [e|code]; [by eexists|]. simpl in Hq. rewrite Hq.
  by eexists.
Qed.

Lemma frame_loop_last clock duration show_preview start_time turn rest pre :
  last_turn show_preview turn = true →
  ∀ D w,
    frame_loop clock (pre ++ turn :: rest) duration show_preview start_time D w
    = frame_loop clock (pre ++ [turn]) duration show_preview start_time D w.
Proof.
  intros Hlast. induction pre as [|t pre IH]; intros D w; simpl app.
  - rewrite !frame_loop_cons.
    by destruct (one_turn_last clock turn duration show_preview start_time D w
                   Hlast) as (r & ->).
  - rewrite !frame_loop_cons.
    destruct (one_turn clock t duration show_preview start_time D w)
      as [r|[D' w']]; [done|apply IH].
Qed.

(** *** What the loop records *)

Lemma fresh_app a : ∀ seen b,
  fresh seen (a ++ b)
  = fresh seen a ++ fresh (list_to_set (fresh seen a) ∪ seen) b.
Proof.
  induction a as [|t a IH]; intros seen b; simpl.
  - by rewrite (left_id_L ∅ (∪)).
  - destruct (negb (String.eqb t "") && negb (bool_decide (t ∈ seen))); simpl.
    + rewrite IH. f_equal. f_equal. f_equal. apply set_eq. intros x.
      rewrite !elem_of_union. tauto.
    + apply IH.
Qed.

Lemma fresh_elem texts : ∀ seen t,
  t ∈ fresh seen texts ↔ t ∈ texts ∧ t ≠ "" ∧ t ∉ seen.
Proof.
  induction texts as [|x texts IH]; intros seen t; simpl.
  - rewrite !elem_of_nil. tauto.
  - destruct (String.eqb_spec x "") as [->|Hx]; simpl.
    + rewrite IH, elem_of_cons. split; [tauto|].
      intros ([->|?] & ? & ?); [done|tauto].
    + destruct (bool_decide_reflect (x ∈ seen)) as [Hin|Hin]; simpl.
      * rewrite IH, elem_of_cons. split; [tauto|].
        intros ([->|?] & ? & ?); [done|tauto].
      * rewrite elem_of_cons, IH, elem_of_cons, elem_of_union, elem_of_singleton.
        split.
        -- intros [->|(? & ? & ?)]; [by auto|]. split; [tauto|]. split; [done|].
           tauto.
        -- intros ([->|?] & ? & ?); [by left|].
           destruct (decide (t = x)) as [->|Hne]; [by left|right]. tauto.
Qed.

(** What [keep_new] appends, text by text. *)
Lemma keep_new_fresh codes : ∀ D w,
  ∃ kept w',
    keep_new codes D w
    = (Ret (list_to_set (fresh D (data <$> codes)) ∪ D), w')
    ∧ results (self w') = results (self w) ++ kept
    ∧ data <$> kept = fresh D (data <$> codes).
Proof.
  induction codes as [|code rest IH]; intros D w; simpl.
  - exists [], w. by rewrite app_nil_r, (left_id_L ∅ (∪)).
  - destruct (negb (String.eqb (data code) "")
              && negb (bool_decide (data code ∈ D))).
    + unfold bind. simpl.
      match goal with |- context [keep_new rest ?D' ?w1] =>
        destruct (IH D' w1) as (kept & w' & Hrun & Hres & Hdata)
      end.
      exists (code :: kept), w'. rewrite Hrun. simpl in Hres.
      split; [|split].
      * f_equal. f_equal. simpl. apply set_eq. intros x.
        rewrite !elem_of_union. tauto.
      * by rewrite Hres, <- app_assoc.
      * by rewrite fmap_cons, Hdata.
    + apply IH.
Qed.

Lemma record_of_data source codes rs :
  Forall2 (record_of source) codes rs → data <$> rs = List.map zdata codes.
Proof.
  induction 1 as [|code r codes rs [Hdata _] _ IH]; [done|].
  rewrite fmap_cons. simpl. by rewrite Hdata, IH.
Qed.

(** With no time limit and a calm feed the loop returns, and what it
    appends are the fresh ones among the texts shown. *)
Lemma frame_loop_shown clock show_preview start_time frames :
  Forall calm_turn frames →
  ∀ D w,
    ∃ kept w',
      frame_loop clock frames 0 show_preview start_time D w = (Ret tt, w')
      ∧ results (self w') = results (self w) ++ kept
      ∧ data <$> kept = fresh D (texts_shown show_preview frames).
Proof.
  induction 1 as [|turn rest [Hread Hkey] _ IH]; intros D w.
  { exists [], w. by rewrite app_nil_r. }
  rewrite frame_loop_cons. unfold one_turn. simpl texts_shown.
  destruct (read turn) as [e| |[found|why]]; try done.
  { exists [], w. by rewrite app_nil_r. }
  simpl. unfold _decode_qr_codes, bind, pyzbar_decode. simpl.
  assert (decodable found = true) as Hok.
  { unfold decodable. apply forallb_forall. intros code Hin.
    by apply (proj1 (Forall_forall _ _) Hread), list_elem_of_In. }
  destruct (decode_each_copies clock found "webcam" [] w Hok)
    as (codes & w2 & Hrun & Hall & _ & _ & Hself & _).
  simpl in Hrun. rewrite Hrun.
  destruct (keep_new_fresh codes D w2) as (kept & w3 & Hkeep & Hres & Hdata).
  rewrite Hkeep. rewrite (record_of_data _ _ _ Hall) in *. rewrite Hself in Hres.
  destruct (key turn) as [e|code]; [done|]. simpl pressed_q. rewrite fresh_app.
  destruct show_preview; simpl andb.
  - destruct (Z.land code 255 =? 113)%Z.
    + exists kept, w3. simpl. by rewrite app_nil_r.
    + destruct (IH (list_to_set (fresh D (List.map zdata found)) ∪ D) w3)
        as (kept' & w' & Hloop & Hres' & Hdata').
      exists (kept ++ kept'), w'. rewrite Hloop.
      split; [done|]. split; [by rewrite Hres', Hres, app_assoc|].
      by rewrite fmap_app, Hdata, Hdata'.
  - destruct (IH (list_to_set (fresh D (List.map zdata found)) ∪ D) w3)
      as (kept' & w' & Hloop & Hres' & Hdata').
    exists (kept ++ kept'), w'. rewrite Hloop.
    split; [done|]. split; [by rewrite Hres', Hres, app_assoc|].
    by rewrite fmap_app, Hdata, Hdata'.
Qed.

(** Two cameras that open alike and whose frame loops run alike make
    [scan_webcam] run alike. *)
Lemma scan_webcam_ext clock dev dev' duration duration' show_preview show_preview' :
  opening dev = opening dev' →
  (∀ start_time D w,
     frame_loop clock (feed dev) duration show_preview start_time D w
     = frame_loop clock (feed dev') duration' show_preview' start_time D w) →
  ∀ w, scan_webcam clock dev duration show_preview w
       = scan_webcam clock dev' duration' show_preview' w.
Proof.
  intros Hopen Hloop w. unfold scan_webcam, try_except, open_camera, bind.
  rewrite Hopen. destruct (opening dev') as [[|]|e]; simpl; try done.
  by rewrite Hloop.
Qed.

(** *** Names and suffixes *)

Lemma name_last (dir : path) (n : string) : name (dir ++ [n]) = n.
Proof. unfold name. apply last_last. Qed.

Lemma lower_char_dot a :
  Ascii.eqb (Py.lower_char a) "."%char = Ascii.eqb a "."%char.
Proof. by destruct a as [[] [] [] [] [] [] [] []]. Qed.

Lemma rfind_dot_lower s : rfind "." (Py.lower s) = rfind "." s.
Proof.
  induction s as [|a s IH]; simpl; [done|]. by rewrite IH, lower_char_dot.
Qed.

Lemma length_lower s : String.length (Py.lower s) = String.length s.
Proof. induction s as [|a s IH]; simpl; [done|]. by rewrite IH. Qed.

Lemma rfind_app c a : ∀ b,
  rfind c (a +:+ b)
  = match rfind c b with
    | Some i => Some (String.length a + i)
    | None => rfind c a
    end.
Proof.
  induction a as [|x a IH]; intros b.
  - change ("" +:+ b) with b. simpl. by destruct (rfind c b).
  - change (String x a +:+ b) with (String x (a +:+ b)). simpl.
    rewrite IH. destruct (rfind c b); [done|]. by destruct (rfind c a).
Qed.

Lemma length_append a b :
  String.length (a +:+ b) = String.length a + String.length b.
Proof.
  induction a as [|x a IH]; [done|].
  change (String x a +:+ b) with (String x (a +:+ b)). simpl. by rewrite IH.
Qed.

Lemma substring_whole b : String.substring 0 (String.length b) b = b.
Proof. induction b as [|x b IH]; simpl; [done|]. by rewrite IH. Qed.

Lemma substring_append a b :
  String.substring (String.length a) (String.length b) (a +:+ b) = b.
Proof.
  induction a as [|x a IH].
  - apply substring_whole.
  - change (String x a +:+ b) with (String x (a +:+ b)). simpl. apply IH.
Qed.

(** A supported suffix, in any case of its letters, starts with its only
    dot and has something after it. *)
Lemma supported_format_shape ext :
  Py.lower ext ∈ supported_formats →
  rfind "." ext = Some 0 ∧ (2 ≤ String.length ext)%nat.
Proof.
  intros Hin. rewrite <- rfind_dot_lower, <- length_lower.
  revert Hin. generalize (Py.lower ext) as e. intros e.
  unfold supported_formats. rewrite !elem_of_union, !elem_of_singleton.
  intros H. repeat destruct H as [H|H]; subst; simpl; split; (done || lia).
Qed.

(** *** What is printed and written *)

Global Instance silent_refl : Reflexive silent.
Proof. by intros w. Qed.

Global Instance silent_trans : Transitive silent.
Proof. intros w1 w2 w3 [H1 T1] [H2 T2]. split; congruence. Qed.

Lemma silent_now clock : along silent (now clock).
Proof. by intros w. Qed.

Lemma silent_logger lvl msg : along silent (logger lvl msg).
Proof. by intros w. Qed.

Lemma silent_update_self f : along silent (update_self f).
Proof. by intros w. Qed.

Lemma silent_get_self {A} (k : QRCodeScanner -> M A) :
  (∀ s, along silent (k s)) → along silent (bind get_self k).
Proof. intros Hk w. apply (Hk (self w) w). Qed.

Create HintDb silent.
Hint Resolve silent_now silent_logger silent_update_self : silent.

Ltac silent :=
  repeat first
    [ solve [auto with silent]
    | apply (along_ret silent)
    | apply (along_raise silent)
    | apply silent_get_self; intros ?
    | apply (along_bind silent); [|intros ?]
    | apply (along_try silent); [|intros ?]
    | match goal with
      | |- along silent (match ?x with _ => _ end) => destruct x
      | |- along silent (if ?b then _ else _) => destruct b
      end ].

Section Output.

Variable clock : nat -> datetime.
Variable isoformat : datetime -> string.
Variable strftime : string -> datetime -> string.
Variable fs : node.
Variable writable : string -> bool.

Lemma silent_decode_each codes source :
  ∀ acc, along silent (decode_each clock codes source acc).
Proof. induction codes as [|code rest IH]; intros acc; simpl; silent. Qed.

Lemma silent_decode_qr_codes img source :
  along silent (_decode_qr_codes clock img source).
Proof.
  unfold _decode_qr_codes, pyzbar_decode.
  destruct img; silent; apply silent_decode_each.
Qed.

Lemma silent_keep_new codes : ∀ D, along silent (keep_new codes D).
Proof.
  induction codes as [|code rest IH]; intros D; simpl; silent;
    apply silent_update_self.
Qed.

Lemma silent_release_camera : along silent _release_camera.
Proof. unfold _release_camera. silent; apply silent_update_self. Qed.

Hint Resolve silent_decode_qr_codes silent_keep_new silent_release_camera
  : silent.

Lemma silent_frame_loop duration show_preview start_time frames :
  ∀ D, along silent (frame_loop clock frames duration show_preview start_time D).
Proof. induction frames as [|turn rest IH]; intros D; simpl; silent. Qed.

Hint Resolve silent_frame_loop : silent.

(** [scan_webcam] prints nothing and writes no file. *)
Lemma silent_scan_webcam dev duration show_preview :
  along silent (scan_webcam clock dev duration show_preview).
Proof.
  unfold scan_webcam, open_camera. silent; apply silent_update_self.
Qed.

Lemma silent_scan_image image_path :
  along silent (scan_image clock fs image_path).
Proof. unfold scan_image. silent. Qed.

Hint Resolve silent_scan_image : silent.

Lemma silent_scan_sequentially files :
  along silent (scan_sequentially clock fs files).
Proof. induction files as [|f rest IH]; simpl; silent. Qed.

Lemma silent_scan_directory directory recursive :
  along silent (scan_directory clock fs directory recursive).
Proof.
  intros w. destruct (exists_ fs directory) eqn:Hex.
  - rewrite scan_directory_run by done. revert w.
    silent. apply silent_scan_sequentially.
  - unfold scan_directory. rewrite Hex. by simpl.
Qed.

(** *** How a statement ends *)

Lemma failed_bind {A B} (m : M A) (k : A -> M B) w :
  failed (fst (m w)) = false →
  (∀ a w', failed (fst (k a w')) = false) →
  failed (fst (bind m k w)) = false.
Proof.
  intros Hm Hk. unfold bind. destruct (m w) as [[a|e] w']; [apply Hk|done].
Qed.

(** A [try] with a handler for [Exception] fails only when the handler
    does. *)
Lemma failed_try {A} (m : M A) h w :
  (∀ msg w', failed (fst (h msg w')) = false) →
  failed (fst (try_except m h w)) = false.
Proof.
  intros Hh. unfold try_except.
  destruct (m w) as [[a|[msg|]] w']; [done|apply Hh|done].
Qed.

Lemma scan_webcam_passes dev duration show_preview w :
  failed (fst (scan_webcam clock dev duration show_preview w)) = false.
Proof.
  apply failed_try. intros msg w'. unfold bind. simpl.
  by destruct (_release_camera_run
                 {| self := self w'; ticks := ticks w';
                    log := log w' ++ [(ERROR, "Error during webcam scan: " +:+ msg)];
                    stdout := stdout w'; written := written w' |})
    as (w2 & -> & _).
Qed.

Lemma scan_image_returns image_path w :
  ∃ rs, fst (scan_image clock fs image_path w) = Ret rs.
Proof.
  destruct (scan_image clock fs image_path w) as [r w'] eqn:Hrun.
  apply scan_image_scans in Hrun as (_ & _ & rs & -> & _). by exists rs.
Qed.

Lemma scan_directory_returns directory recursive w :
  ∃ rs, fst (scan_directory clock fs directory recursive w) = Ret rs.
Proof.
  destruct (scan_directory clock fs directory recursive w) as [r w'] eqn:Hrun.
  apply scan_directory_scans in Hrun as (_ & _ & rs & -> & _). by exists rs.
Qed.

(** *** The export *)

Lemma text_blocks_length rs : ∀ i,
  length (text_blocks isoformat i rs) = 6 * length rs.
Proof. induction rs as [|r rest IH]; intros i; simpl; [done|]. rewrite IH. lia. Qed.

(** The block of the [k]-th record carries the number [i + k] and the
    record's fields. *)
Lemma text_blocks_lookup rs : ∀ i k r,
  rs !! k = Some r →
  take 5 (drop (6 * k) (text_blocks isoformat i rs))
  = [ "Code #" +:+ Py.str_of_nat (i + k) +:+ LF;
      "Data: " +:+ data r +:+ LF;
      "Type: " +:+ type r +:+ LF;
      "Source: " +:+ source r +:+ LF;
      "Timestamp: " +:+ isoformat (timestamp r) +:+ LF ].
Proof.
  induction rs as [|r0 rest IH]; intros i k r Hk; [done|].
  destruct k as [|k].
  - injection Hk as ->. by rewrite Nat.add_0_r.
  - replace (6 * S k) with (6 + 6 * k) by lia.
    change (text_blocks isoformat i (r0 :: rest))
      with ([ "Code #" +:+ Py.str_of_nat i +:+ LF;
              "Data: " +:+ data r0 +:+ LF;
              "Type: " +:+ type r0 +:+ LF;
              "Source: " +:+ source r0 +:+ LF;
              "Timestamp: " +:+ isoformat (timestamp r0) +:+ LF;
              times "-" 50 +:+ LF +:+ LF ]
            ++ text_blocks isoformat (S i) rest).
    rewrite <- drop_drop. rewrite drop_app_length'; [|done].
    rewrite (IH (S i) k r Hk). by replace (S i + k) with (i + S k) by lia.
Qed.

(** [export_to_text] with the file name it settles on: one text document
    written when the file can be opened, an exception and nothing written
    otherwise; nothing is printed and the scanner is as before. *)
Lemma export_to_text_run filename w :
  let name := text_name clock strftime filename w in
  ∃ date w',
    stdout w' = stdout w ∧ self w' = self w
    ∧ if writable name then
        export_to_text clock isoformat strftime writable filename w
        = (Ret name, w')
        ∧ written w'
          = written w
            ++ [(name,
                 TextDoc ([ "QR Code Scan Results" +:+ LF;
                            "Date: " +:+ date +:+ LF;
                            "Total Codes Found: "
                              +:+ Py.str_of_nat (length (results (self w))) +:+ LF;
                            times "=" 50 +:+ LF +:+ LF ]
                          ++ text_blocks isoformat 1 (results (self w))))]
      else
        export_to_text clock isoformat strftime writable filename w
        = (Raise (Exception ("[Errno 13] Permission denied: '" +:+ name +:+ "'")),
           w')
        ∧ written w' = written w.
Proof.
  intros name. unfold export_to_text, bind, get_self. simpl.
  destruct filename as [f|]; simpl in *.
  - destruct (writable f) eqn:Hw; subst name; rewrite ?Hw.
    + eexists _, _. split; [|split]; [| |split; [reflexivity|]]; done.
    + by exists "", w.
  - destruct (writable name) eqn:Hw; subst name; simpl; rewrite Hw.
    + eexists _, _. split; [|split]; [| |split; [reflexivity|]]; done.
    + eexists "", _. split; [|split]; [| |split; [reflexivity|]]; done.
Qed.

(** [save_results] on a named file. *)
Lemma save_results_run (f : string) w :
  ∃ scan_date w',
    stdout w' = stdout w ∧ self w' = self w
    ∧ if writable f then
        save_results clock isoformat strftime writable (Some f) w = (Ret f, w')
        ∧ written w'
          = written w
            ++ [(f, JsonDoc
                      (JObj [ ("scan_date", JStr scan_date);
                              ("total_codes",
                               JInt (Z.of_nat (length (results (self w)))));
                              ("results",
                               JArr (List.map (json_of_record isoformat)
                                       (results (self w)))) ]))]
      else
        (∃ msg, save_results clock isoformat strftime writable (Some f) w
                = (Raise (Exception msg), w'))
        ∧ written w' = written w.
Proof.
  unfold save_results, bind, get_self, open_and_write. simpl.
  destruct (writable f); simpl.
  - eexists _, _. split; [|split]; [| |split; [reflexivity|]]; done.
  - eexists "", _. split; [|split]; [| |split; [eexists; reflexivity|]]; done.
Qed.

(** [save_results()] with the name left to the scanner: it ends in [Ret]
    or in an [Exception], prints nothing and writes at most one file. *)
Lemma save_results_default_run w :
  let run := save_results clock isoformat strftime writable None w in
  interrupted (fst run) = false
  ∧ stdout (snd run) = stdout w ∧ self (snd run) = self w
  ∧ (∃ docs, written (snd run) = written w ++ docs ∧ (length docs ≤ 1)%nat)
  ∧ ((∀ f, writable f = true) → failed (fst run) = false).
Proof.
  unfold save_results, bind, get_self, open_and_write. simpl.
  set (pick := match output_file (self w) with Some f => _ | None => _ end).
  assert (∃ name w1, pick w = (Ret name, w1) ∧ self w1 = self w
                     ∧ written w1 = written w ∧ stdout w1 = stdout w)
    as (name & w1 & -> & Hs & Hw & Ho).
  { subst pick. destruct (output_file (self w)) as [f|];
      [destruct (negb _)|]; by eexists _, _. }
  unfold now. simpl. destruct (writable name) eqn:Hname; simpl.
  - split; [done|]. split; [done|]. split; [done|].
    split; [|done]. eexists [_]. simpl. rewrite Hw. split; [reflexivity|lia].
  - split; [done|]. split; [done|]. split; [done|].
    split; [exists []; rewrite app_nil_r; split; [done|simpl; lia]|].
    intros Hall. by rewrite Hall in Hname.
Qed.

(** The loop of [main] over the collection prints four lines a record. *)
Lemma display_run rs : ∀ i w,
  display i rs w
  = (Ret tt, {| self := self w; ticks := ticks w; log := log w;
                stdout := stdout w ++ display_lines i rs;
                written := written w |}).
Proof.
  induction rs as [|code rest IH]; intros i w; simpl.
  - rewrite app_nil_r. by destruct w.
  - unfold bind, print. simpl. rewrite IH. simpl.
    by rewrite <- !app_assoc.
Qed.

End Output.

Hint Resolve silent_scan_webcam silent_scan_image silent_scan_directory
  silent_release_camera : silent.

(** *** The stages of [main] *)

Section Main.

Variable clock : nat -> datetime.
Variable isoformat : datetime -> string.
Variable strftime : string -> datetime -> string.
Variable fs : node.
Variable writable : string -> bool.

Lemma cli_stages args dev :
  cli clock isoformat strftime fs writable args dev
  = (scan_stage clock fs args dev ;;;
     let! s := get_self in
     display 1 (results s) ;;;
     save_stage clock isoformat strftime writable args s).
Proof. reflexivity. Qed.

(** The scan of the first stage never ends in an [Exception], leaves the
    files alone, and prints at most the line that reports it. *)
Lemma scan_stage_passes args dev w :
  failed (fst (scan_stage clock fs args dev w)) = false.
Proof.
  unfold scan_stage. destruct (arg_webcam args).
  - apply failed_bind; [apply scan_webcam_passes|done].
  - destruct (arg_image args) as [img|].
    + apply failed_bind; [|done].
      by destruct (scan_image_returns clock fs img w) as [rs ->].
    + destruct (arg_directory args) as [d|]; [|done].
      apply failed_bind; [|done].
      by destruct (scan_directory_returns clock fs d (arg_recursive args) w)
        as [rs ->].
Qed.

(** Without the camera the first stage returns, leaves the scanner as it
    was and prints one line at most. *)
Lemma scan_stage_files args dev w :
  arg_webcam args = false →
  ∃ w', scan_stage clock fs args dev w = (Ret tt, w')
        ∧ self w' = self w ∧ written w' = written w
        ∧ ∃ lines, stdout w' = stdout w ++ lines
                   ∧ length lines
                     = if bool_decide (is_Some (arg_image args))
                          || bool_decide (is_Some (arg_directory args))
                       then 1 else 0.
Proof.
  intros Hcam. unfold scan_stage. rewrite Hcam.
  destruct (arg_image args) as [img|].
  - pose proof (untouched_scan_image clock fs img w) as [Hself _].
    pose proof (silent_scan_image clock fs img w) as [Hout Hwr].
    destruct (scan_image_returns clock fs img w) as [rs Hrs].
    unfold bind, print.
    destruct (scan_image clock fs img w) as [r w1]. simpl in *. subst r. eexists. split; [reflexivity|]. simpl.
    split; [done|]. split; [done|]. eexists [_]. by rewrite Hout.
  - destruct (arg_directory args) as [d|].
    + pose proof (untouched_scan_directory clock fs d (arg_recursive args) w)
        as [Hself _].
      pose proof (silent_scan_directory clock fs d (arg_recursive args) w)
        as [Hout Hwr].
      destruct (scan_directory_returns clock fs d (arg_recursive args) w)
        as [rs Hrs].
      unfold bind, print.
      destruct (scan_directory clock fs d (arg_recursive args) w) as [r w1].
      simpl in *. subst r. eexists. split; [reflexivity|]. simpl.
      split; [done|]. split; [done|]. eexists [_]. by rewrite Hout.
    + exists w. split; [done|]. split; [done|]. split; [done|].
      exists []. by rewrite app_nil_r.
Qed.

(** [export] ends in [Ret] or in an [Exception], prints nothing, leaves
    the scanner as it was and writes one file at most. *)
Lemma export_ends out w :
  let run := export clock isoformat strftime writable out w in
  interrupted (fst run) = false
  ∧ stdout (snd run) = stdout w ∧ self (snd run) = self w
  ∧ (∃ docs, written (snd run) = written w ++ docs ∧ (length docs ≤ 1)%nat)
  ∧ ((∀ f, writable f = true) → failed (fst run) = false).
Proof.
  unfold export. destruct (Py.endswith ".txt" out).
  - destruct (export_to_text_run clock isoformat strftime writable (Some out) w)
      as (date & w' & Hout & Hself & Hrun).
    simpl in Hrun. unfold bind. destruct (writable out) eqn:Hw.
    + destruct Hrun as [-> Hwr]. simpl.
      repeat split; try done. eexists [_]. split; [exact Hwr|simpl; lia].
    + destruct Hrun as [-> Hwr]. simpl.
      split; [done|]. split; [done|]. split; [done|]. split.
      * exists []. rewrite app_nil_r. split; [done|simpl; lia].
      * intros Hall. by rewrite Hall in Hw.
  - destruct (save_results_run clock isoformat strftime writable out w)
      as (date & w' & Hout & Hself & Hrun).
    unfold bind. destruct (writable out) eqn:Hw.
    + destruct Hrun as [-> Hwr]. simpl.
      repeat split; try done. eexists [_]. split; [exact Hwr|simpl; lia].
    + destruct Hrun as [[msg ->] Hwr]. simpl.
      split; [done|]. split; [done|]. split; [done|]. split.
      * exists []. rewrite app_nil_r. split; [done|simpl; lia].
      * intros Hall. by rewrite Hall in Hw.
Qed.

Lemma save_stage_ends args s w :
  let run := save_stage clock isoformat strftime writable args s w in
  interrupted (fst run) = false
  ∧ stdout (snd run) = stdout w ∧ self (snd run) = self w
  ∧ (∃ docs, written (snd run) = written w ++ docs ∧ (length docs ≤ 1)%nat)
  ∧ ((∀ f, writable f = true) → failed (fst run) = false).
Proof.
  assert (let run := (save_results clock isoformat strftime writable None ;;;
                      ret tt) w in
          interrupted (fst run) = false
          ∧ stdout (snd run) = stdout w ∧ self (snd run) = self w
          ∧ (∃ docs, written (snd run) = written w ++ docs
                     ∧ (length docs ≤ 1)%nat)
          ∧ ((∀ f, writable f = true) → failed (fst run) = false)) as Hdefault.
  { pose proof (save_results_default_run clock isoformat strftime writable w)
      as Hrun. simpl in *. unfold bind.
    by destruct (save_results clock isoformat strftime writable None w)
      as [[name|[msg|]] w']. }
  assert (let run := @ret World unit tt w in
          interrupted (fst run) = false
          ∧ stdout (snd run) = stdout w ∧ self (snd run) = self w
          ∧ (∃ docs, written (snd run) = written w ++ docs
                     ∧ (length docs ≤ 1)%nat)
          ∧ ((∀ f, writable f = true) → failed (fst run) = false)) as Hnone.
  { simpl. repeat split; try done. exists []. rewrite app_nil_r.
    split; [done|simpl; lia]. }
  unfold save_stage. destruct (arg_output args) as [out|].
  - destruct (truthy (Some out)); [apply export_ends|].
    by destruct (results s).
  - by destruct (results s).
Qed.

End Main.

(** *** The camera, end to end *)

(** With no time limit and a calm camera [scan_webcam] returns the whole
    collection, which it has extended by the fresh texts the feed shows. *)
Lemma scan_webcam_shown clock dev duration show_preview w :
  (duration ≤ 0)%Z → calm dev →
  ∃ kept w',
    scan_webcam clock dev duration show_preview w = (Ret (results (self w')), w')
    ∧ results (self w') = results (self w) ++ kept
    ∧ data <$> kept = fresh ∅ (texts_shown show_preview (feed dev)).
Proof.
  intros Hd [Hopen Hfeed].
  rewrite (scan_webcam_ext clock dev dev duration 0 show_preview show_preview
             eq_refl);
    [|intros; by apply frame_loop_no_limit].
  unfold scan_webcam, try_except, open_camera, bind.
  rewrite Hopen. simpl.
  match goal with |- context [frame_loop clock _ 0 _ ?st ?D ?w2] =>
    destruct (frame_loop_shown clock show_preview st _ Hfeed D w2)
      as (kept & w3 & Hloop & Hres & Hdata)
  end.
  rewrite Hloop.
  destruct (_release_camera_run w3) as (w4 & Hrel & _ & Hres4 & _).
  rewrite Hrel. simpl. exists kept, w4. split; [done|].
  simpl in Hres. by rewrite Hres4, Hres.
Qed.

Lemma abc_calm : calm Examples.camera_abc.
Proof.
  split; [reflexivity|]. repeat constructor.
Qed.

End ScannerBehaviourFacts.

(** ** Further facts about the commit generator *)

Module CommitsBehaviourFacts.

Import Stmt StmtFacts Commits CommitsVocabulary CommitsFacts CommitsNotions.
Local Open Scope py_scope.
Local Open Scope nat_scope.

(** *** Commands issued *)

Global Instance ran_refl : Reflexive ran.
Proof. intros w. exists []. split; [by rewrite app_nil_r|done]. Qed.

Global Instance ran_trans : Transitive ran.
Proof.
  intros w1 w2 w3 [c1 H1] [c2 H2]. exists (c1 ++ c2). by eapply did_then.
Qed.

Lemma quiet_ran {A} (m : M A) : along (did []) m → along ran m.
Proof. intros Hm w. exists []. apply Hm. Qed.

Lemma ran_run_git_command command check :
  along ran (run_git_command command check).
Proof.
  intros w. destruct (run_git_command_run command check w) as (w' & Hdid & Hrun).
  exists [command].
  destruct (answer 0 w) as [rc out err|msg].
  - destruct Hrun as [o Hrun]. by rewrite Hrun.
  - by rewrite Hrun.
Qed.

Lemma ran_make_dummy_change clock isoformat :
  along ran (make_dummy_change clock isoformat).
Proof.
  intros w. destruct (make_dummy_change_run clock isoformat w) as (w' & Hrun & Hdid).
  exists []. by rewrite Hrun.
Qed.

Lemma ran_generate_commit_message : along ran generate_commit_message.
Proof. apply quiet_ran, quiet_generate_commit_message. Qed.

Lemma ran_print line : along ran (print line).
Proof. apply quiet_ran, quiet_print. Qed.

Lemma ran_write_history chunks : along ran (write_history chunks).
Proof. apply quiet_ran, quiet_write_history. Qed.

Create HintDb ran.
Hint Resolve ran_run_git_command ran_make_dummy_change
  ran_generate_commit_message ran_print ran_write_history : ran.

Ltac ran :=
  repeat first
    [ solve [auto with ran]
    | apply (along_ret ran)
    | apply (along_raise ran)
    | apply (along_bind ran); [|intros ?]
    | apply (along_try ran); [|intros ?]
    | match goal with
      | |- along ran (match ?x with _ => _ end) => destruct x
      | |- along ran (if ?b then _ else _) => destruct b
      end ].

Lemma ran_turn clock isoformat i commits_created :
  along ran (turn clock isoformat i commits_created).
Proof. unfold turn, attempt. ran. Qed.

(** The commands of a turn, with its count. *)
Lemma turn_did clock isoformat i commits_created w :
  ∃ cmds,
    did cmds w (snd (turn clock isoformat i commits_created w))
    ∧ length cmds ≤ 4
    ∧ length (List.filter is_commit cmds) ≤ 2
    ∧ (fst (turn clock isoformat i commits_created w) = Ret commits_created
       ∨ fst (turn clock isoformat i commits_created w)
         = Ret (S commits_created)).
Proof.
  destruct (ran_turn clock isoformat i commits_created w) as [cmds Hdid].
  exists cmds. split; [exact Hdid|].
  destruct (turn_run clock isoformat i commits_created w) as (message & _ & Hrun).
  cbv zeta in Hrun. rewrite (did_issued _ _ _ Hdid) in Hrun.
  assert (is_commit (commit_command message) = true) as Hc by reflexivity.
  assert (is_commit git_add = false) as Ha by reflexivity.
  repeat match type of Hrun with
         | if ?b then _ else _ => destruct b
         end;
    destruct Hrun as [Hr ->];
    (split; [simpl; lia|]);
    (split; [cbn [List.filter]; rewrite ?Hc, ?Ha; simpl; lia|]); auto.
Qed.

Lemma answer_could_run w k :
  Forall (λ a, could_run a = true) (answers w) → could_run (answer k w) = true.
Proof.
  intros Hall. unfold answer.
  destruct (nth_in_or_default k (answers w) (Completed 0 "" "")) as [Hin| ->];
    [|done].
  by apply (proj1 (Forall_forall _ _) Hall), list_elem_of_In.
Qed.

Lemma ran_could_run w w' :
  ran w w' →
  Forall (λ a, could_run a = true) (answers w) →
  Forall (λ a, could_run a = true) (answers w').
Proof. intros [cmds [_ ->]] Hall. by apply Forall_drop. Qed.

(** When every command can be run a turn counts a commit, whatever the
    commands answer. *)
Lemma turn_counts clock isoformat i commits_created w :
  Forall (λ a, could_run a = true) (answers w) →
  fst (turn clock isoformat i commits_created w) = Ret (S commits_created).
Proof.
  intros Hall.
  destruct (turn_run clock isoformat i commits_created w) as (message & _ & Hrun).
  cbv zeta in Hrun. rewrite !(answer_could_run w _ Hall) in Hrun.
  cbn [negb] in Hrun.
  destruct (nothing_to_commit (answer 1 w)); cbn [negb] in Hrun; apply Hrun.
Qed.

Lemma turns_counts clock isoformat n : ∀ i commits_created w,
  Forall (λ a, could_run a = true) (answers w) →
  fst (turns clock isoformat n i commits_created w) = Ret (commits_created + n).
Proof.
  induction n as [|n IH]; intros i c w Hall; cbn [turns].
  - by rewrite Nat.add_0_r.
  - pose proof (turn_counts clock isoformat i c w Hall) as Hturn.
    pose proof (ran_turn clock isoformat i c w) as Hran.
    unfold bind. destruct (turn clock isoformat i c w) as [r w1].
    simpl in *. subst r. rewrite IH; [f_equal; lia|].
    by eapply ran_could_run.
Qed.

(** The loop returns, with at most one commit counted a turn, at most four
    commands issued a turn and at most two of them commits. *)
Lemma turns_did clock isoformat n : ∀ i commits_created w,
  ∃ k cmds,
    fst (turns clock isoformat n i commits_created w) = Ret k
    ∧ commits_created ≤ k ≤ commits_created + n
    ∧ did cmds w (snd (turns clock isoformat n i commits_created w))
    ∧ length cmds ≤ 4 * n
    ∧ length (List.filter is_commit cmds) ≤ 2 * n.
Proof.
  induction n as [|n IH]; intros i c w; cbn [turns].
  - exists c, []. split; [done|]. split; [lia|].
    split; [split; [by rewrite app_nil_r|done]|]. simpl. lia.
  - destruct (turn_did clock isoformat i c w) as (c1 & Hd1 & Hl1 & Hf1 & Hr1).
    unfold bind. destruct (turn clock isoformat i c w) as [r w1]. simpl in *.
    destruct Hr1 as [-> | ->].
    + destruct (IH (S i) c w1) as (k & c2 & Hk & Hb & Hd2 & Hl2 & Hf2).
      exists k, (c1 ++ c2). split; [done|]. split; [lia|].
      split; [by eapply did_then|].
      rewrite List.filter_app, !length_app. lia.
    + destruct (IH (S i) (S c) w1) as (k & c2 & Hk & Hb & Hd2 & Hl2 & Hf2).
      exists k, (c1 ++ c2). split; [done|]. split; [lia|].
      split; [by eapply did_then|].
      rewrite List.filter_app, !length_app. lia.
Qed.

(** *** Setting the repository up *)

Lemma run_git_command_returns command check w :
  could_run (answer 0 w) = true →
  ∃ r w', run_git_command command check w = (Ret r, w')
          ∧ did [command] w w'
          ∧ commit_history w' = commit_history w.
Proof.
  intros Hcould.
  destruct (run_git_command_run command check w) as (w' & Hdid & Hrun).
  assert (commit_history (snd (run_git_command command check w))
          = commit_history w) as Hh.
  { unfold run_git_command, subprocess_run, bind. simpl.
    destruct (hd (Completed 0 "" "") (answers w)) as [rc out err|msg]; [|done].
    by destruct (check && negb (rc =? 0)%Z). }
  destruct (answer 0 w) as [rc out err|msg]; [|done].
  destruct Hrun as [o Hrun]. rewrite Hrun in Hh. by eexists _, w'.
Qed.

(** A command that can be run, after the commands [cmds]. *)
Lemma run_git_command_next {B} command check (k : M B) cmds w0 w :
  did cmds w0 w →
  could_run (answer (length cmds) w0) = true →
  ∃ w', (run_git_command command check ;;; k) w = k w'
        ∧ did (cmds ++ [command]) w0 w'
        ∧ commit_history w' = commit_history w.
Proof.
  intros Hdid Hcould.
  destruct (run_git_command_returns command check w)
    as (r & w' & Hrun & Hd & Hh).
  { by rewrite (did_answer_shift _ _ _ 0 Hdid), Nat.add_0_r. }
  exists w'. split; [by rewrite (bind_run _ _ _ _ _ Hrun)|].
  split; [by eapply did_then|done].
Qed.

Lemma print_next {B} line (k : M B) cmds w0 w :
  did cmds w0 w →
  ∃ w', (print line ;;; k) w = k w' ∧ did cmds w0 w'
        ∧ git_dir w' = git_dir w
        ∧ commit_history w' = commit_history w.
Proof.
  intros Hdid. eexists. split; [reflexivity|].
  split; [|split; reflexivity].
  rewrite <- (app_nil_r cmds). eapply did_then; [exact Hdid|].
  apply quiet_print.
Qed.

Lemma initialize_git_run w :
  (∀ k, k < (if git_dir w then 0 else 3) → could_run (answer k w) = true) →
  ∃ cmds w',
    initialize_git w = (Ret tt, w')
    ∧ did cmds w w'
    ∧ length cmds = (if git_dir w then 0 else 3)
    ∧ List.filter is_commit cmds = []
    ∧ commit_history w' = commit_history w.
Proof.
  intros Hcould. unfold initialize_git.
  destruct (git_dir w) eqn:Hgit; simpl negb; cbv iota.
  - exists []. eexists. split; [reflexivity|]. split; [apply quiet_print|done].
  - destruct (print_next "Initializing git repository..."
                (run_git_command "git init" true ;;;
                 run_git_command
                   ("git config user.name " +:+ QUOTE +:+ "QR Scanner Developer"
                    +:+ QUOTE) true ;;;
                 run_git_command
                   ("git config user.email " +:+ QUOTE
                    +:+ "developer@qrscanner.dev" +:+ QUOTE) true ;;;
                 print "Git repository initialized.") [] w w)
      as (w1 & -> & Hd1 & _ & Hh1); [reflexivity|].
    destruct (run_git_command_next "git init" true
                (run_git_command
                   ("git config user.name " +:+ QUOTE +:+ "QR Scanner Developer"
                    +:+ QUOTE) true ;;;
                 run_git_command
                   ("git config user.email " +:+ QUOTE
                    +:+ "developer@qrscanner.dev" +:+ QUOTE) true ;;;
                 print "Git repository initialized.") [] w w1 Hd1)
      as (w2 & -> & Hd2 & Hh2); [apply Hcould; simpl; lia|].
    destruct (run_git_command_next
                ("git config user.name " +:+ QUOTE +:+ "QR Scanner Developer"
                 +:+ QUOTE) true
                (run_git_command
                   ("git config user.email " +:+ QUOTE
                    +:+ "developer@qrscanner.dev" +:+ QUOTE) true ;;;
                 print "Git repository initialized.") _ w w2 Hd2)
      as (w3 & -> & Hd3 & Hh3); [apply Hcould; simpl; lia|].
    destruct (run_git_command_next
                ("git config user.email " +:+ QUOTE
                 +:+ "developer@qrscanner.dev" +:+ QUOTE) true
                (print "Git repository initialized.") _ w w3 Hd3)
      as (w4 & -> & Hd4 & Hh4); [apply Hcould; simpl; lia|].
    eexists _, _. split; [reflexivity|].
    split; [eapply (did_then _ [] _ _ _ Hd4); apply quiet_print|].
    split; [reflexivity|]. split; [reflexivity|].
    simpl. congruence.
Qed.

(** When the commands that set the repository up can be run,
    [create_commits] reaches its loop, having issued these commands and no
    commit, and with the history file as it was. *)
Lemma create_commits_prelude clock isoformat n w :
  configured w →
  ∃ cmds w1,
    create_commits clock isoformat n w
    = (let! commits_created := turns clock isoformat n 0 0 in
       print (LF +:+ "Successfully created " +:+ Py.str_of_nat commits_created
              +:+ " commits!") ;;;
       ret commits_created) w1
    ∧ did cmds w w1
    ∧ length cmds = (if git_dir w then 2 else 5)
    ∧ List.filter is_commit cmds = []
    ∧ commit_history w1 = commit_history w.
Proof.
  intros Hconf. unfold create_commits, configured in *.
  set (rest := (let! commits_created := turns clock isoformat n 0 0 in _)).
  destruct (print_next
              ("Creating " +:+ Py.str_of_nat n +:+ " professional commits...")
              (initialize_git ;;;
               run_git_command
                 ("git config user.name " +:+ QUOTE +:+ "QR Scanner Developer"
                  +:+ QUOTE) false ;;;
               run_git_command
                 ("git config user.email " +:+ QUOTE
                  +:+ "developer@qrscanner.dev" +:+ QUOTE) false ;;;
               rest) [] w w)
    as (w0 & -> & Hd0 & Hgit & Hh0); [reflexivity|].
  destruct (initialize_git_run w0) as (c1 & w1 & Hinit & Hd1 & Hl1 & Hf1 & Hh1).
  { intros k Hk. rewrite (did_answer_shift _ _ _ k Hd0). apply Hconf.
    rewrite Hgit in Hk. simpl. destruct (git_dir w); lia. }
  rewrite (bind_run _ _ _ _ _ Hinit).
  pose proof (did_then _ _ _ _ _ Hd0 Hd1) as Hd01. simpl in Hd01.
  rewrite Hgit in Hl1.
  destruct (run_git_command_next
              ("git config user.name " +:+ QUOTE +:+ "QR Scanner Developer"
               +:+ QUOTE) false
              (run_git_command
                 ("git config user.email " +:+ QUOTE
                  +:+ "developer@qrscanner.dev" +:+ QUOTE) false ;;;
               rest) c1 w w1 Hd01)
    as (w2 & -> & Hd2 & Hh2).
  { apply Hconf. rewrite Hl1. destruct (git_dir w); lia. }
  destruct (run_git_command_next
              ("git config user.email " +:+ QUOTE
               +:+ "developer@qrscanner.dev" +:+ QUOTE) false
              rest _ w w2 Hd2)
    as (w3 & -> & Hd3 & Hh3).
  { apply Hconf. rewrite length_app, Hl1. simpl. destruct (git_dir w); lia. }
  eexists _, w3. split; [reflexivity|]. split; [exact Hd3|].
  rewrite !List.filter_app, !length_app, Hf1, Hl1. simpl.
  split; [destruct (git_dir w); lia|]. split; [reflexivity|]. congruence.
Qed.

(** *** The history file *)

Global Instance keeps_refl : Reflexive keeps.
Proof. intros w old Ho. exists []. by rewrite app_nil_r. Qed.

Global Instance keeps_trans : Transitive keeps.
Proof.
  intros w1 w2 w3 H1 H2 old Ho.
  destruct (H1 _ Ho) as [a1 Ha1]. destruct (H2 _ Ha1) as [a2 Ha2].
  exists (a1 ++ a2). by rewrite Ha2, app_assoc.
Qed.

Lemma keeps_same {A} (m : M A) :
  (∀ w, commit_history (snd (m w)) = commit_history w) → along keeps m.
Proof. intros Hm w old Ho. exists []. by rewrite Hm, app_nil_r. Qed.

Lemma keeps_print line : along keeps (print line).
Proof. by apply keeps_same. Qed.

Lemma keeps_draw : along keeps draw.
Proof. by apply keeps_same. Qed.

Lemma keeps_now clock : along keeps (now clock).
Proof. by apply keeps_same. Qed.

Lemma keeps_subprocess_run command : along keeps (subprocess_run command).
Proof. by apply keeps_same. Qed.

Lemma keeps_write_history chunks : along keeps (write_history chunks).
Proof. intros w old Ho. simpl. rewrite Ho. by exists chunks. Qed.

Create HintDb keeps.
Hint Resolve keeps_print keeps_draw keeps_now keeps_subprocess_run
  keeps_write_history : keeps.

Ltac keeps :=
  repeat first
    [ solve [auto with keeps]
    | apply (along_ret keeps)
    | apply (along_raise keeps)
    | apply (along_bind keeps); [|intros ?]
    | apply (along_try keeps); [|intros ?]
    | match goal with
      | |- along keeps (match ?x with _ => _ end) => destruct x
      | |- along keeps (if ?b then _ else _) => destruct b
      end ].

Lemma keeps_run_git_command command check :
  along keeps (run_git_command command check).
Proof. unfold run_git_command. keeps. Qed.

Lemma keeps_choice seq : along keeps (choice seq).
Proof. unfold choice. keeps. Qed.

Lemma keeps_random_below num : along keeps (random_below num).
Proof. unfold random_below. keeps. Qed.

Lemma keeps_randint a b : along keeps (randint a b).
Proof. unfold randint. keeps. Qed.

Hint Resolve keeps_run_git_command keeps_choice keeps_random_below
  keeps_randint : keeps.

Lemma keeps_generate_commit_message : along keeps generate_commit_message.
Proof. unfold generate_commit_message. keeps. Qed.

Lemma keeps_make_dummy_change clock isoformat :
  along keeps (make_dummy_change clock isoformat).
Proof.
  intros w. unfold make_dummy_change.
  destruct (commit_history w);
    match goal with |- keeps w (snd (?m w)) =>
      assert (along keeps m) as Hm by keeps; apply Hm
    end.
Qed.

Lemma keeps_initialize_git : along keeps initialize_git.
Proof.
  intros w. unfold initialize_git.
  destruct (negb (git_dir w));
    match goal with |- keeps w (snd (?m w)) =>
      assert (along keeps m) as Hm by keeps; apply Hm
    end.
Qed.

Hint Resolve keeps_generate_commit_message keeps_make_dummy_change
  keeps_initialize_git : keeps.

Lemma keeps_turn clock isoformat i commits_created :
  along keeps (turn clock isoformat i commits_created).
Proof. unfold turn, attempt. keeps. Qed.

Lemma keeps_turns clock isoformat n : ∀ i commits_created,
  along keeps (turns clock isoformat n i commits_created).
Proof.
  induction n as [|n IH]; intros i c; simpl; [keeps|].
  apply (along_bind keeps); [apply keeps_turn|]. intros c'. apply IH.
Qed.

(** *** Return codes *)

Lemma blind_ret {A} (a : A) : blind (ret a).
Proof. by intros w. Qed.

Lemma blind_raise {A} e : blind (@raise World A e).
Proof. by intros w. Qed.

Lemma blind_bind {A B} (m : M A) (k : A -> M B) :
  blind m → (∀ a, blind (k a)) → blind (bind m k).
Proof.
  intros Hm Hk w. unfold bind. rewrite Hm.
  destruct (m w) as [[a|e] w1]; simpl; [apply Hk|done].
Qed.

Lemma blind_print line : blind (print line).
Proof. by intros w. Qed.

(** Without [check], [run_git_command] does not look at the return
    code. *)
Lemma blind_run_git_command command : blind (run_git_command command false).
Proof.
  intros w. unfold run_git_command, subprocess_run, bind, forget_codes. simpl.
  destruct (answers w) as [|[rc out err|msg] rest]; simpl; try done.
  all: by rewrite ?fmap_cons.
Qed.

(** *** Characters of the shell *)

Lemma shell_plain_lower c : shell_plain (Py.lower_char c) = shell_plain c.
Proof. by destruct c as [[] [] [] [] [] [] [] []]. Qed.

Lemma shell_plain_upper c : shell_plain (Py.upper_char c) = shell_plain c.
Proof. by destruct c as [[] [] [] [] [] [] [] []]. Qed.

Lemma shell_safe_app a b : shell_safe (a +:+ b) = shell_safe a && shell_safe b.
Proof.
  induction a as [|c a IH]; [done|].
  change (shell_plain c && shell_safe (a +:+ b)
          = shell_plain c && shell_safe a && shell_safe b).
  by rewrite IH, andb_assoc.
Qed.

Lemma shell_safe_lower s : shell_safe (Py.lower s) = shell_safe s.
Proof.
  induction s as [|c s IH]; simpl; [done|]. by rewrite shell_plain_lower, IH.
Qed.

Lemma shell_safe_capitalize s : shell_safe (Py.capitalize s) = shell_safe s.
Proof.
  destruct s as [|c s]; simpl; [done|].
  by rewrite shell_plain_upper, shell_safe_lower.
Qed.

Lemma shell_safe_substring s : ∀ n m,
  shell_safe s = true → shell_safe (String.substring n m s) = true.
Proof.
  induction s as [|c s IH]; intros n m Hs; simpl in *.
  - by destruct n, m.
  - apply andb_prop in Hs as [Hc Hs].
    destruct n as [|n]; [destruct m as [|m]; [done|]|]; simpl.
    + rewrite Hc. simpl. by apply IH.
    + by apply IH.
Qed.

Lemma shell_safe_replace_from old new fuel : ∀ s,
  shell_safe new = true → shell_safe s = true →
  shell_safe (Py.replace_from fuel old new s) = true.
Proof.
  induction fuel as [|fuel IH]; intros s Hnew Hs; [done|].
  destruct s as [|c s]; [done|]. rewrite replace_from_cons.
  destruct (Py.startswith old (String c s)).
  - rewrite shell_safe_app, Hnew, andb_true_l. apply IH; [done|].
    by apply shell_safe_substring.
  - cbn [shell_safe] in *. apply andb_prop in Hs as [Hc Hs].
    rewrite Hc, andb_true_l. by apply IH.
Qed.

Lemma shell_safe_format template scope :
  shell_safe template = true → shell_safe scope = true →
  shell_safe (format template scope) = true.
Proof. intros Ht Hs. by apply shell_safe_replace_from. Qed.

Lemma shell_safe_digits d :
  shell_safe (DecimalString.NilEmpty.string_of_uint d) = true.
Proof. induction d; simpl; done. Qed.

Lemma shell_safe_str_of_nat n : shell_safe (Py.str_of_nat n) = true.
Proof.
  unfold Py.str_of_nat, DecimalString.NilZero.string_of_uint.
  destruct (Nat.to_uint n); [done|..]; apply shell_safe_digits.
Qed.

Lemma shell_safe_in (l : list string) x :
  forallb shell_safe l = true → In x l → shell_safe x = true.
Proof. intros Hall Hin. by apply (proj1 (forallb_forall shell_safe l) Hall). Qed.

Lemma templates_shell_safe commit_type :
  In commit_type COMMIT_TYPES →
  forallb shell_safe (templates_of commit_type) = true.
Proof.
  intros Hin. simpl in Hin.
  repeat (destruct Hin as [<-|Hin]; [by vm_compute|]). done.
Qed.

Lemma quotes_app a b : quotes (a +:+ b) = quotes a + quotes b.
Proof.
  induction a as [|c a IH]; [done|].
  change ((if Ascii.eqb c "034"%char then 1 else 0) + quotes (a +:+ b)
          = (if Ascii.eqb c "034"%char then 1 else 0) + quotes a + quotes b).
  rewrite IH. lia.
Qed.

Lemma shell_safe_quotes s : shell_safe s = true → quotes s = 0.
Proof.
  induction s as [|c s IH]; simpl; [done|].
  intros [Hc Hs]%andb_prop. rewrite (IH Hs).
  unfold shell_plain in Hc. by destruct (Ascii.eqb c "034"%char).
Qed.

(** *** The message, piece by piece *)

Lemma detail_safe message w :
  ∃ suffix w',
    (let! detailed := random_below p_0_3 in
     if detailed then
       let! detail := choice DETAILED_MESSAGES in
       ret (message +:+ " " +:+ detail)
     else ret message) w
    = (Ret (message +:+ suffix), w')
    ∧ shell_safe suffix = true.
Proof.
  destruct (random_below_run p_0_3 w) as ([|] & Hb); rewrite (bind_run _ _ _ _ _ Hb).
  - destruct (choice_run DETAILED_MESSAGES (drawn w)) as (d & Hd & Hin); [done|].
    rewrite (bind_run _ _ _ _ _ Hd). exists (" " +:+ d). eexists.
    split; [reflexivity|]. simpl. by apply (shell_safe_in DETAILED_MESSAGES).
  - exists "". eexists. split; [|done]. by rewrite append_empty_r.
Qed.

Lemma body_safe full_message (scope : string) w :
  shell_safe scope = true →
  ∃ body w',
    (let! with_body := random_below p_0_2 in
     if with_body then
       let! issue := randint 1 100 in
       let body_options :=
         [ LF +:+ LF +:+ "This change improves the " +:+ scope
             +:+ " functionality by" +:+ LF
             +:+ "implementing better error handling and validation.";
           LF +:+ LF +:+ "Closes #" +:+ Py.str_of_nat issue;
           LF +:+ LF +:+ "BREAKING CHANGE: " +:+ scope +:+ " API has been updated.";
           LF +:+ LF +:+ "This update enhances " +:+ scope
             +:+ " performance and reliability." ] in
       let! body := choice body_options in
       ret (full_message +:+ body)
     else ret full_message) w
    = (Ret (full_message +:+ body), w')
    ∧ shell_safe body = true.
Proof.
  intros Hscope.
  destruct (random_below_run p_0_2 w) as ([|] & Hb); rewrite (bind_run _ _ _ _ _ Hb).
  - destruct (randint_run 1 100 (drawn w)) as (issue & Hi).
    rewrite (bind_run _ _ _ _ _ Hi). cbv zeta.
    match goal with |- context [choice ?opts] =>
      destruct (choice_run opts (drawn (drawn w))) as (b & Hc & Hin); [done|]
    end.
    rewrite (bind_run _ _ _ _ _ Hc). exists b. eexists. split; [reflexivity|].
    simpl in Hin.
    destruct Hin as [<-|[<-|[<-|[<-|[]]]]];
      rewrite !shell_safe_app, ?Hscope, ?shell_safe_str_of_nat; reflexivity.
  - exists "". eexists. split; [|done]. by rewrite append_empty_r.
Qed.

(** *** The history file, turn by turn *)

Lemma keeps_history_lines w w' : keeps w w' → history_lines w ≤ history_lines w'.
Proof.
  intros Hk. unfold history_lines.
  destruct (commit_history w) as [old|] eqn:Ho; [|simpl; lia].
  destruct (Hk old Ho) as [added ->]. simpl. rewrite length_app. lia.
Qed.

Lemma make_dummy_change_adds clock isoformat w :
  ∃ w', make_dummy_change clock isoformat w = (Ret "commit_history.txt", w')
        ∧ history_lines w < history_lines w'.
Proof.
  unfold make_dummy_change, history_lines.
  destruct (commit_history w) as [old|] eqn:Ho; eexists;
    (split; [reflexivity|]); simpl; rewrite Ho; simpl;
    rewrite ?length_app; simpl; lia.
Qed.

Lemma try_bind_run {A B} (m : M A) (k : A -> M B) h w a w' :
  m w = (Ret a, w') →
  try_except (bind m k) h w = try_except (k a) h w'.
Proof. intros Hm. unfold try_except, bind. by rewrite Hm. Qed.

(** Every turn adds to the history file. *)
Lemma turn_adds clock isoformat i commits_created w :
  history_lines w < history_lines (snd (turn clock isoformat i commits_created w)).
Proof.
  destruct (generate_commit_message_run w)
    as (ct & sc & tpl & suffix & body & w1 & Hgen & _).
  pose proof (keeps_history_lines _ _ (keeps_generate_commit_message w)) as H1.
  rewrite Hgen in H1. simpl in H1.
  destruct (make_dummy_change_adds clock isoformat w1) as (w2 & Hdummy & H2).
  unfold turn, attempt.
  rewrite (try_bind_run _ _ _ _ _ _ Hgen), (try_bind_run _ _ _ _ _ _ Hdummy).
  match goal with |- _ < history_lines (snd (?m w2)) =>
    assert (along keeps m) as Hm by keeps;
    pose proof (keeps_history_lines _ _ (Hm w2))
  end.
  lia.
Qed.

Lemma turns_add clock isoformat n : ∀ i commits_created w,
  history_lines w + n
  ≤ history_lines (snd (turns clock isoformat n i commits_created w)).
Proof.
  induction n as [|n IH]; intros i c w; cbn [turns]; [simpl; lia|].
  pose proof (turn_adds clock isoformat i c w) as Hturn.
  destruct (turn_did clock isoformat i c w) as (_ & _ & _ & _ & Hr).
  unfold bind. destruct (turn clock isoformat i c w) as [r w1]. simpl in *.
  destruct Hr as [-> | ->].
  - pose proof (IH (S i) c w1). lia.
  - pose proof (IH (S i) (S c) w1). lia.
Qed.

End CommitsBehaviourFacts.

(** ** Further properties of the scanner *)

Module ScannerBehaviour.

Import Stmt StmtFacts Scanner Vocabulary ScannerFacts ScannerNotions
  ScannerBehaviourFacts.
Local Open Scope py_scope.

(** X1. When every symbol the decoder finds carries well-formed UTF-8,
    [_decode_qr_codes] returns one record a symbol, in the decoder's order,
    with the symbol's text, type, rectangle and polygon and the given
    source, stamped by successive readings of the clock. *)
Theorem decode_qr_codes_copies clock found source w :
  decodable found = true →
  ∃ rs w',
    _decode_qr_codes clock (Pixels found) source w = (Ret rs, w')
    ∧ Forall2 (record_of source) found rs
    ∧ timestamp <$> rs = clock <$> seq (ticks w) (length found)
    ∧ ticks w' = ticks w + length found.
Proof.
  intros Hok. unfold _decode_qr_codes, bind, pyzbar_decode. simpl.
  destruct (decode_each_copies clock found source [] w Hok)
    as (rs & w' & Hrun & Hall & Hts & Hticks & _).
  exists rs, w'. by rewrite Hrun.
Qed.

(** X2. One symbol whose bytes are not UTF-8 costs the whole image:
    [scan_image] returns the empty list and logs the decoding error, even
    when other symbols of the image decode. *)
Theorem scan_image_undecodable_symbol clock fs image_path found w :
  imread fs image_path = Some (Pixels found) →
  decodable found = false →
  ∃ w',
    scan_image clock fs image_path w = (Ret [], w')
    ∧ self w' = self w
    ∧ log w'
      = log w ++ [(ERROR, "Error scanning image " +:+ str_of_path image_path
                          +:+ ": " +:+ "'utf-8' codec can't decode bytes")].
Proof.
  intros Hread Hbad. unfold scan_image, try_except.
  assert (exists_ fs image_path = true) as Hex.
  { unfold exists_, imread in *. by destruct (resolve image_path fs). }
  rewrite Hex, Hread. simpl. unfold _decode_qr_codes, bind at 1. simpl.
  destruct (decode_each_undecodable clock found (str_of_path image_path) [] w Hbad)
    as (w' & Hrun & Hself & Hlog & _).
  rewrite Hrun. unfold bind. simpl. eexists. split; [reflexivity|].
  simpl. by rewrite Hlog.
Qed.

(** X3. Every record [scan_directory] returns names as its source one of
    the image files the directory scan selected. *)
Theorem scan_directory_sources clock fs directory recursive w :
  ∃ rs,
    fst (scan_directory clock fs directory recursive w) = Ret rs
    ∧ ∀ r, r ∈ rs →
           ∃ f, f ∈ image_files fs directory recursive
                ∧ source r = str_of_path f.
Proof.
  destruct (exists_ fs directory) eqn:Hex.
  - rewrite scan_directory_run by done.
    unfold bind at 1. unfold bind at 1. rewrite logger_run.
    match goal with |- context [scan_sequentially clock fs ?files ?w0] =>
      destruct (scan_sequentially_sources clock fs files w0)
        as (css & w' & Hseq & Hall)
    end.
    rewrite Hseq. exists (concat css). split; [done|].
    intros r Hr. clear Hseq.
    induction Hall as [|f cs files css' Hcs _ IH]; simpl in Hr.
    + by apply elem_of_nil in Hr.
    + apply elem_of_app in Hr as [Hr|Hr].
      * exists f. split; [by left|].
        by apply (proj1 (Forall_forall _ _) Hcs).
      * destruct (IH Hr) as (f' & Hf' & Hsrc). exists f'. split; [by right|done].
  - unfold scan_directory. rewrite Hex. exists []. split; [done|].
    by intros r ?%elem_of_nil.
Qed.

(** X4. A name made of a stem and a supported suffix, in any case of the
    suffix's letters, is selected by the directory scan exactly when the
    stem is not empty: a file named just [.png] is not an image file, and
    the directories before the name play no part. *)
Theorem is_image_file_stem_suffix (dir : path) stem ext :
  Py.lower ext ∈ supported_formats →
  is_image_file (dir ++ [stem +:+ ext]) = negb (String.eqb stem "").
Proof.
  intros Hext. destruct (supported_format_shape ext Hext) as [Hdot Hlen].
  unfold is_image_file, suffix. rewrite name_last, rfind_app, Hdot, length_append.
  destruct stem as [|c stem].
  - simpl. by apply bool_decide_eq_false.
  - replace ((0 <? String.length (String c stem) + 0)%nat
             && (String.length (String c stem) + 0
                 <? String.length (String c stem) + String.length ext - 1)%nat)
      with true.
    2:{ symmetry. apply andb_true_intro. split; apply Nat.ltb_lt; simpl; lia. }
    replace (String.length (String c stem) + String.length ext
             - (String.length (String c stem) + 0))
      with (String.length ext) by lia.
    rewrite Nat.add_0_r, substring_append. simpl.
    by apply bool_decide_eq_true.
Qed.

(** X5. The loop of [scan_webcam] never reads past the turn that ends it:
    after a read that gives no frame, or, with the preview on, after the
    turn in which [q] is pressed (any key code whose low byte is 113), what
    the camera would deliver next plays no part. *)
Theorem scan_webcam_stops_at_last_turn
    clock dev duration show_preview pre turn rest w :
  feed dev = pre ++ turn :: rest →
  last_turn show_preview turn = true →
  scan_webcam clock dev duration show_preview w
  = scan_webcam clock {| opening := opening dev; feed := pre ++ [turn] |}
      duration show_preview w.
Proof.
  intros Hfeed Hlast. apply scan_webcam_ext; [done|].
  intros start_time D w'. rewrite Hfeed. simpl. by apply frame_loop_last.
Qed.


(** X7. Without the preview the keyboard is not looked at: two cameras that
    open alike and deliver the same reads give the same scan, whatever keys
    are pressed. *)
Theorem scan_webcam_ignores_keys_without_preview clock dev dev' duration w :
  opening dev = opening dev' →
  Forall2 (λ t t', read t = read t') (feed dev) (feed dev') →
  scan_webcam clock dev duration false w
  = scan_webcam clock dev' duration false w.
Proof.
  intros Hopen Hreads. apply scan_webcam_ext; [done|].
  intros start_time D w'. by apply frame_loop_keys_unseen.
Qed.

(** X8. With no time limit, a camera that opens and a feed on which nothing
    raises, one call of [scan_webcam] appends exactly the distinct non-empty
    texts the feed shows, in the order they first appear: no text that was
    shown is lost, and none is recorded twice. *)
Theorem scan_webcam_records_texts_shown clock dev show_preview w :
  calm dev →
  let w' := snd (scan_webcam clock dev 0 show_preview w) in
  data <$> appended w w' = fresh ∅ (texts_shown show_preview (feed dev))
  ∧ ∀ t, t ∈ data <$> appended w w'
         ↔ t ∈ texts_shown show_preview (feed dev) ∧ t ≠ "".
Proof.
  intros [Hopen Hfeed] w'.
  assert (data <$> appended w w'
          = fresh ∅ (texts_shown show_preview (feed dev))) as Happ.
  { subst w'. unfold scan_webcam, try_except, open_camera, bind.
    rewrite Hopen. simpl.
    match goal with |- context [frame_loop clock _ 0 _ ?st ?D ?w2] =>
      destruct (frame_loop_shown clock show_preview st _ Hfeed D w2)
        as (kept & w3 & Hloop & Hres & Hdata)
    end.
    rewrite Hloop.
    destruct (_release_camera_run w3) as (w4 & Hrel & _ & Hres4 & _).
    rewrite Hrel. simpl. unfold appended. simpl in Hres.
    by rewrite Hres4, Hres, drop_app_length. }
  split; [done|]. intros t. rewrite Happ, fresh_elem.
  split; [tauto|]. intros [? ?]. split; [done|]. split; [done|].
  apply not_elem_of_empty.
Qed.

(** X9. The text export writes one document: four header chunks, the third
    of which gives the number of records, then six chunks a record; the
    block of the record at position [k] is numbered [k + 1] and carries
    that record's data, type, source and timestamp. *)
Theorem export_to_text_layout clock isoformat strftime
    (writable : string -> bool) filename w :
  writable (text_name clock strftime filename w) = true →
  ∃ chunks w',
    export_to_text clock isoformat strftime writable filename w
    = (Ret (text_name clock strftime filename w), w')
    ∧ written w'
      = written w ++ [(text_name clock strftime filename w, TextDoc chunks)]
    ∧ length chunks = 4 + 6 * length (results (self w))
    ∧ chunks !! 2
      = Some ("Total Codes Found: "
              +:+ Py.str_of_nat (length (results (self w))) +:+ LF)
    ∧ ∀ k r, results (self w) !! k = Some r →
             take 5 (drop (4 + 6 * k) chunks)
             = [ "Code #" +:+ Py.str_of_nat (S k) +:+ LF;
                 "Data: " +:+ data r +:+ LF;
                 "Type: " +:+ type r +:+ LF;
                 "Source: " +:+ source r +:+ LF;
                 "Timestamp: " +:+ isoformat (timestamp r) +:+ LF ].
Proof.
  intros Hw.
  pose proof (export_to_text_run clock isoformat strftime writable filename w)
    as Hrun.
  cbv zeta in Hrun. destruct Hrun as (date & w' & _ & _ & Hrun).
  rewrite Hw in Hrun. destruct Hrun as [Hrun Hwr].
  eexists _, w'. split; [exact Hrun|]. split; [exact Hwr|].
  split; [|split; [done|]].
  - rewrite length_app, text_blocks_length. simpl. lia.
  - intros k r Hk. rewrite <- drop_drop.
    rewrite drop_app_length'; [|done].
    by rewrite (text_blocks_lookup isoformat _ 1 k r Hk).
Qed.



(** X13. The JSON object of a record determines the record: two records
    with the same object are the same record, as soon as the ISO format
    tells their two timestamps apart. *)
Theorem json_of_record_determines isoformat r r' :
  (isoformat (timestamp r) = isoformat (timestamp r') →
   timestamp r = timestamp r') →
  json_of_record isoformat r = json_of_record isoformat r' →
  r = r'.
Proof.
  intros Hiso Hjson.
  destruct r as [d t [l tp wd h] p s ts], r' as [d' t' [l' tp' wd' h'] p' s' ts'].
  unfold json_of_record in Hjson. simpl in *.
  injection Hjson as -> -> -> -> -> -> Hp -> Hts.
  rewrite (Hiso Hts). f_equal.
  clear -Hp. revert p' Hp.
  induction p as [|[x y] p IH]; intros [|[x' y'] p'] Hp; simpl in Hp;
    try done.
  injection Hp as -> -> Hp. f_equal. by apply IH.
Qed.


(** *** The properties at sample inputs *)

Lemma decode_qr_codes_copies_witness :
  decodable [Examples.symbol "a"; Examples.symbol "b"] = true
  ∧ ∃ rs w',
      _decode_qr_codes Examples.clock
        (Pixels [Examples.symbol "a"; Examples.symbol "b"]) "webcam" (boot None)
      = (Ret rs, w')
      ∧ Forall2 (record_of "webcam") [Examples.symbol "a"; Examples.symbol "b"] rs
      ∧ timestamp <$> rs
        = Examples.clock
          <$> seq (ticks (boot None))
                (length [Examples.symbol "a"; Examples.symbol "b"])
      ∧ ticks w'
        = ticks (boot None) + length [Examples.symbol "a"; Examples.symbol "b"].
Proof.
  split; [reflexivity|].
  exact (decode_qr_codes_copies Examples.clock
           [Examples.symbol "a"; Examples.symbol "b"] "webcam" (boot None)
           eq_refl).
Defined.

Lemma scan_image_undecodable_symbol_witness :
  imread damaged ["bad.png"] = Some (Pixels damaged_symbols)
  ∧ decodable damaged_symbols = false
  ∧ ∃ w',
      scan_image Examples.clock damaged ["bad.png"] (boot None) = (Ret [], w')
      ∧ self w' = self (boot None)
      ∧ log w'
        = log (boot None)
          ++ [(ERROR, "Error scanning image " +:+ str_of_path ["bad.png"]
                      +:+ ": " +:+ "'utf-8' codec can't decode bytes")].
Proof.
  split; [reflexivity|]. split; [reflexivity|].
  exact (scan_image_undecodable_symbol Examples.clock damaged ["bad.png"]
           damaged_symbols (boot None) eq_refl eq_refl).
Defined.

Lemma is_image_file_stem_suffix_witness :
  Py.lower ".PNG" ∈ supported_formats
  ∧ is_image_file (["pictures"] ++ ["a" +:+ ".PNG"])
    = negb (String.eqb "a" "").
Proof.
  assert (Py.lower ".PNG" ∈ supported_formats) as Hext.
  { apply (bool_decide_eq_true_1 (Py.lower ".PNG" ∈ supported_formats)).
    reflexivity. }
  split; [exact Hext|].
  exact (is_image_file_stem_suffix ["pictures"] "a" ".PNG" Hext).
Defined.

Lemma scan_webcam_stops_at_last_turn_witness :
  feed camera_cut
  = [Examples.frame ["a"]]
    ++ {| read := ReadEnd; key := Key (-1) |} :: [Examples.frame ["b"]]
  ∧ last_turn true {| read := ReadEnd; key := Key (-1) |} = true
  ∧ scan_webcam Examples.clock camera_cut 30 true (boot None)
    = scan_webcam Examples.clock
        {| opening := opening camera_cut;
           feed := [Examples.frame ["a"]]
                   ++ [{| read := ReadEnd; key := Key (-1) |}] |}
        30 true (boot None).
Proof.
  split; [reflexivity|]. split; [reflexivity|].
  exact (scan_webcam_stops_at_last_turn Examples.clock camera_cut 30 true
           [Examples.frame ["a"]] {| read := ReadEnd; key := Key (-1) |}
           [Examples.frame ["b"]] (boot None) eq_refl eq_refl).
Defined.


Lemma scan_webcam_ignores_keys_without_preview_witness :
  opening Examples.camera_a = opening camera_a_q
  ∧ Forall2 (λ t t', read t = read t') (feed Examples.camera_a) (feed camera_a_q)
  ∧ scan_webcam Examples.clock Examples.camera_a 30 false (boot None)
    = scan_webcam Examples.clock camera_a_q 30 false (boot None).
Proof.
  assert (Forall2 (λ t t', read t = read t')
            (feed Examples.camera_a) (feed camera_a_q)) as Hreads.
  { repeat constructor. }
  split; [reflexivity|]. split; [exact Hreads|].
  exact (scan_webcam_ignores_keys_without_preview Examples.clock
           Examples.camera_a camera_a_q 30 (boot None) eq_refl Hreads).
Defined.

Lemma scan_webcam_records_texts_shown_witness :
  calm Examples.camera_abc
  ∧ data <$> appended (boot None)
               (snd (scan_webcam Examples.clock Examples.camera_abc 0 true
                       (boot None)))
    = fresh ∅ (texts_shown true (feed Examples.camera_abc)).
Proof.
  split; [exact abc_calm|].
  exact (proj1 (scan_webcam_records_texts_shown Examples.clock
                  Examples.camera_abc true (boot None) abc_calm)).
Defined.

Lemma export_to_text_layout_witness :
  Examples.writable
    (text_name Examples.clock Examples.strftime (Some "out.txt") after_abc)
  = true
  ∧ ∃ (chunks : list string) w',
      export_to_text Examples.clock Examples.isoformat Examples.strftime
        Examples.writable (Some "out.txt") after_abc
      = (Ret "out.txt", w')
      ∧ written w' = written after_abc ++ [("out.txt", TextDoc chunks)]
      ∧ length chunks = 22
      ∧ chunks !! 2 = Some ("Total Codes Found: 3" +:+ LF)
      ∧ take 5 (drop 10 chunks)
        = [ "Code #2" +:+ LF;
            "Data: b" +:+ LF;
            "Type: QRCODE" +:+ LF;
            "Source: webcam" +:+ LF;
            "Timestamp: 2" +:+ LF ].
Proof.
  split; [reflexivity|].
  destruct (export_to_text_layout Examples.clock Examples.isoformat
              Examples.strftime Examples.writable (Some "out.txt") after_abc
              eq_refl)
    as (chunks & w' & Hrun & Hwritten & Hlen & Hcount & Hblock).
  exists chunks, w'.
  split; [exact Hrun|]. split; [exact Hwritten|].
  split; [exact Hlen|]. split; [exact Hcount|].
  exact (Hblock 1
           {| data := "b"; type := "QRCODE";
              rect := zrect (Examples.symbol "b");
              polygon := zpolygon (Examples.symbol "b");
              source := "webcam"; timestamp := 2%Z |}
           eq_refl).
Defined.


Lemma json_of_record_determines_witness :
  (Examples.isoformat (timestamp record_a)
   = Examples.isoformat (timestamp record_a) →
   timestamp record_a = timestamp record_a)
  ∧ (json_of_record Examples.isoformat record_a
     = json_of_record Examples.isoformat record_a →
     record_a = record_a).
Proof.
  split; [reflexivity|].
  exact (json_of_record_determines Examples.isoformat record_a record_a
           (λ _, eq_refl)).
Defined.


End ScannerBehaviour.

(** ** Further properties of the commit generator *)

Module CommitsBehaviour.

Import Stmt StmtFacts Commits CommitsVocabulary CommitsFacts CommitsNotions
  CommitsBehaviourFacts.
Local Open Scope py_scope.
Local Open Scope nat_scope.


(** X16. When the commands that set the repository up can be run,
    [create_commits] returns, whatever happens in its loop; it counts at
    most the number of commits asked for, issues at most four commands a
    turn after the set-up, and attempts at most two commits a turn. *)
Theorem create_commits_bounded clock isoformat num_commits w :
  configured w →
  ∃ commits_created,
    fst (create_commits clock isoformat num_commits w) = Ret commits_created
    ∧ commits_created ≤ num_commits
    ∧ length (issued w (snd (create_commits clock isoformat num_commits w)))
      ≤ (if git_dir w then 2 else 5) + 4 * num_commits
    ∧ commit_attempts w (snd (create_commits clock isoformat num_commits w))
      ≤ 2 * num_commits.
Proof.
  intros Hconf.
  destruct (create_commits_prelude clock isoformat num_commits w Hconf)
    as (c1 & w1 & -> & Hd1 & Hl1 & Hf1 & _).
  destruct (turns_did clock isoformat num_commits 0 0 w1)
    as (k & c2 & Hk & Hb & Hd2 & Hl2 & Hf2).
  exists k. unfold bind.
  destruct (turns clock isoformat num_commits 0 0 w1) as [r w2].
  simpl in Hk, Hd2. subst r. simpl.
  assert (did (c1 ++ c2) w
            {| draws := draws w2; ticks := ticks w2; git_dir := git_dir w2;
               commit_history := commit_history w2; answers := answers w2;
               commands := commands w2;
               stdout := stdout w2
                         ++ [LF +:+ "Successfully created " +:+ Py.str_of_nat k
                             +:+ " commits!"] |}) as Hdid.
  { destruct (did_then _ _ _ _ _ Hd1 Hd2) as [Hc Ha]. by split. }
  split; [done|]. split; [lia|].
  unfold commit_attempts. rewrite (did_issued _ _ _ Hdid).
  rewrite List.filter_app, !length_app, Hf1, Hl1. simpl. lia.
Qed.

(** X17. The message [generate_commit_message] returns has no double
    quote, dollar sign, back quote or backslash, so that the command
    [create_commits] builds around it has exactly the two double quotes
    that enclose the message. *)
Theorem commit_message_is_shell_safe w :
  ∃ message,
    fst (generate_commit_message w) = Ret message
    ∧ shell_safe message = true
    ∧ quotes (commit_command message) = 2.
Proof.
  assert (∃ message w', generate_commit_message w = (Ret message, w')
                        ∧ shell_safe message = true)
    as (message & w' & Hrun & Hsafe).
  { unfold generate_commit_message.
    destruct (choice_run COMMIT_TYPES w) as (ct & Hct & Hin_ct); [done|].
    rewrite (bind_run _ _ _ _ _ Hct).
    destruct (choice_run SCOPES (drawn w)) as (sc & Hsc & Hin_sc); [done|].
    rewrite (bind_run _ _ _ _ _ Hsc). cbv zeta. fold (templates_of ct).
    destruct (templates_plain ct Hin_ct) as [Hne _].
    destruct (choice_run (templates_of ct) (drawn (drawn w)) Hne)
      as (tpl & Htpl & Hin_tpl).
    rewrite (bind_run _ _ _ _ _ Htpl).
    assert (shell_safe ct = true) as Hsafe_ct.
    { by apply (shell_safe_in COMMIT_TYPES). }
    assert (shell_safe sc = true) as Hsafe_sc.
    { by apply (shell_safe_in SCOPES). }
    assert (shell_safe tpl = true) as Hsafe_tpl.
    { apply (shell_safe_in (templates_of ct)); [|done].
      by apply templates_shell_safe. }
    destruct (detail_safe (format tpl sc) (drawn (drawn (drawn w))))
      as (suffix & w4 & Hdetail & Hsuffix).
    rewrite (bind_run _ _ _ _ _ Hdetail).
    destruct (body_safe
                (ct +:+ "(" +:+ sc +:+ "): "
                 +:+ Py.capitalize (format tpl sc +:+ suffix)) sc w4 Hsafe_sc)
      as (body & w5 & Hbody & Hsafe_body).
    cbv zeta in Hbody. rewrite Hbody. eexists _, w5. split; [reflexivity|].
    rewrite !shell_safe_app, shell_safe_capitalize, shell_safe_app.
    rewrite Hsafe_ct, Hsafe_sc, Hsuffix, Hsafe_body.
    by rewrite shell_safe_format. }
  exists message. rewrite Hrun. split; [done|]. split; [done|].
  unfold commit_command. rewrite !quotes_app, (shell_safe_quotes _ Hsafe).
  reflexivity.
Qed.

(** X18. [push_to_github] takes no notice of return codes: run against
    answers with the same output and error streams and the return code 0,
    it ends the same way, prints the same lines and issues the same
    commands. What it reports is decided by the streams alone. *)
Theorem push_to_github_ignores_return_codes repo_url w :
  push_to_github repo_url (forget_codes w)
  = (fst (push_to_github repo_url w),
     forget_codes (snd (push_to_github repo_url w))).
Proof.
  assert (blind (push_to_github repo_url)) as Hblind; [|apply Hblind].
  unfold push_to_github.
  apply blind_bind; [apply blind_print|]. intros _.
  apply blind_bind; [apply blind_run_git_command|]. intros [[stdout|] _];
    [|apply blind_raise].
  apply blind_bind.
  { destruct (negb (Py.contains "origin" stdout));
      (apply blind_bind; [apply blind_print|]); intros _;
      (apply blind_bind; [apply blind_run_git_command|]); intros _;
      apply blind_ret. }
  intros _. apply blind_bind; [apply blind_print|]. intros _.
  apply blind_bind; [apply blind_run_git_command|]. intros [_ stderr].
  destruct (Py.contains "error" (Py.lower stderr)
            || Py.contains "fatal" (Py.lower stderr)).
  - repeat (apply blind_bind; [apply blind_print|]; intros _).
    apply blind_print.
  - apply blind_print.
Qed.


(** *** The properties at sample inputs *)

Lemma refusing_runs : Forall (λ a, could_run a = true) (answers refusing).
Proof. repeat constructor. Qed.

Lemma refusing_configured : configured refusing.
Proof. intros k _. apply answer_could_run, refusing_runs. Qed.

Lemma nothing_staged_configured : configured nothing_staged.
Proof. intros k _. apply answer_could_run. repeat constructor. Qed.


Lemma create_commits_bounded_witness :
  configured refusing
  ∧ ∃ commits_created,
      fst (create_commits Examples.clock Examples.isoformat 2 refusing)
      = Ret commits_created
      ∧ commits_created ≤ 2.
Proof.
  split; [exact refusing_configured|].
  destruct (create_commits_bounded Examples.clock Examples.isoformat 2
              refusing refusing_configured)
    as (k & Hk & Hle & _).
  exact (ex_intro _ k (conj Hk Hle)).
Defined.


End CommitsBehaviour.

(** ** Facts about the graphical shell *)

Module ShellFacts.

Import Stmt StmtFacts Scanner Vocabulary ScannerFacts ScannerNotions
  ScannerBehaviourFacts QRScannerGUI ShellVocabulary.
Local Open Scope py_scope.
Local Open Scope nat_scope.

Section Threads.

Variable clock : nat -> datetime.
Variable isoformat : datetime -> string.
Variable strftime : string -> datetime -> string.
Variable fs : node.
Variable writable : string -> bool.

(** *** One step of a scan thread *)

(** One turn of the loop is the loop over that turn alone. *)
Lemma one_turn_frame_loop turn start_time detected_codes w :
  snd (frame_loop clock [turn] 0 true start_time detected_codes w)
  = match one_turn clock turn 0 true start_time detected_codes w with
    | inl (_, w') => w'
    | inr (_, w') => w'
    end.
Proof.
  rewrite frame_loop_cons.
  by destruct (one_turn clock turn 0 true start_time detected_codes w)
    as [[r w']|[D w']].
Qed.

Lemma grows_set_camera c : along (grows clock) (set_camera c).
Proof.
  intros w. unfold set_camera, update_self. simpl. split; [done|].
  exists []. rewrite app_nil_r. split; [done|apply stamped_nil].
Qed.

Lemma grows_same_results w w' :
  ticks w ≤ ticks w' → results (self w') = results (self w) → grows clock w w'.
Proof.
  intros Ht Hr. split; [done|]. exists []. rewrite app_nil_r.
  split; [done|apply stamped_nil].
Qed.

Lemma grows_frame_loop frames start_time detected_codes :
  along (grows clock) (frame_loop clock frames 0 true start_time detected_codes).
Proof.
  intros w.
  destruct (frame_loop clock frames 0 true start_time detected_codes w)
    as [r w'] eqn:Hrun.
  apply frame_loop_collects in Hrun
    as (kept & Hres & _ & _ & Hst & Hticks & _).
  split; [done|]. by exists kept.
Qed.

Lemma grows_scan_failed msg : along (grows clock) (scan_failed msg).
Proof.
  unfold scan_failed.
  apply (along_bind (grows clock));
    [apply along_untouched_grows, untouched_logger|]. intros _.
  apply (along_bind (grows clock)); [apply grows_release_camera|]. intros _.
  apply (along_ret (grows clock)).
Qed.

(** A step of a scan thread only reads the clock and extends the
    collection, by records stamped during the step. *)
Lemma scan_thread_grows t g :
  grows clock (world g) (world (fst (scan_thread clock t g))).
Proof.
  destruct t as [dev|dev|start_time D| |]; unfold scan_thread;
    cbv zeta; try reflexivity.
  - destruct (opening dev) as [opened|[msg|]]; [|..|reflexivity].
    + destruct opened; simpl; apply grows_same_results; simpl; (lia || done).
    + cbn [fst set_world world]. apply grows_scan_failed.
  - destruct (camera (self (world g)));
      [|cbn [fst set_world world]; apply grows_scan_failed].
    destruct (stream g) as [|turn rest]; [reflexivity|].
    pose proof (grows_frame_loop [turn] start_time D (world g)) as Hloop.
    rewrite one_turn_frame_loop in Hloop.
    destruct (one_turn clock turn 0 true start_time D (world g))
      as [[[[]|[msg|]] w']|[D' w']]; cbn [fst set_stream set_world world];
      try done.
    etrans; [exact Hloop|]. apply grows_scan_failed.
  - cbn [fst set_world world]. apply grows_release_camera.
Qed.

(** Nothing is printed and no file written by a step of a scan thread. *)
Lemma silent_scan_failed msg : along silent (scan_failed msg).
Proof. unfold scan_failed. silent. Qed.

Lemma scan_thread_silent t g :
  silent (world g) (world (fst (scan_thread clock t g))).
Proof.
  destruct t as [dev|dev|start_time D| |]; unfold scan_thread;
    cbv zeta; try reflexivity.
  - destruct (opening dev) as [opened|[msg|]]; [|..|reflexivity].
    + destruct opened; simpl; by split.
    + cbn [fst set_world world]. apply silent_scan_failed.
  - destruct (camera (self (world g)));
      [|cbn [fst set_world world]; apply silent_scan_failed].
    destruct (stream g) as [|turn rest]; [reflexivity|].
    pose proof (silent_frame_loop clock 0 true start_time [turn] D (world g))
      as Hloop.
    rewrite one_turn_frame_loop in Hloop.
    destruct (one_turn clock turn 0 true start_time D (world g))
      as [[[[]|[msg|]] w']|[D' w']]; cbn [fst set_stream set_world world];
      try done.
    etrans; [exact Hloop|]. apply silent_scan_failed.
  - cbn [fst set_world world]. apply silent_release_camera.
Qed.

Lemma scan_thread_main_thread t g :
  main_thread (fst (scan_thread clock t g)) = main_thread g.
Proof.
  destruct t as [dev|dev|start_time D| |]; unfold scan_thread;
    cbv zeta; try done.
  - destruct (opening dev) as [[|]|[msg|]]; done.
  - destruct (camera (self (world g))); [|done].
    destruct (stream g) as [|turn rest]; [done|].
    by destruct (one_turn clock turn 0 true start_time D (world g))
      as [[[[]|[msg|]] w']|[D' w']].
Qed.

(** *** A scan thread left alone *)

Lemma scan_thread_threads t g :
  threads (fst (scan_thread clock t g)) = threads g.
Proof.
  destruct t as [dev|dev|start_time D| |]; unfold scan_thread;
    cbv zeta; try done.
  - destruct (opening dev) as [[|]|[msg|]]; done.
  - destruct (camera (self (world g))); [|done].
    destruct (stream g) as [|turn rest]; [done|].
    by destruct (one_turn clock turn 0 true start_time D (world g))
      as [[[[]|[msg|]] w']|[D' w']].
Qed.

Lemma try_bind_same {A B} (m m' : M A) (k : A -> M B) h w w' :
  m w = m' w' →
  try_except (bind m k) h w = try_except (bind m' k) h w'.
Proof. intros Hm. unfold try_except, bind. by rewrite Hm. Qed.

(** The step of the only scan thread. *)
Lemma switch_alone t g :
  threads g = [t] →
  step clock isoformat strftime fs writable (Switch 0) g
  = set_threads (match snd (scan_thread clock t g) with
                 | Some t' => [t']
                 | None => []
                 end) (fst (scan_thread clock t g)).
Proof.
  intros Hts. unfold step. rewrite Hts. simpl lookup.
  pose proof (scan_thread_threads t g) as Hsame. rewrite Hts in Hsame.
  cbv beta iota zeta. rewrite Hsame.
  by destruct (snd (scan_thread clock t g)).
Qed.

Lemma returned_alone g :
  threads g = [Returned] →
  let g' := session clock isoformat strftime fs writable [Switch 0] g in
  threads g' = [] ∧ main_thread g' = main_thread g ∧ world g' = world g.
Proof. intros Hts. cbn [session]. by rewrite (switch_alone _ _ Hts). Qed.

Lemma loop_left_alone g :
  threads g = [LoopLeft] →
  let g' := session clock isoformat strftime fs writable
              [Switch 0; Switch 0] g in
  threads g' = [] ∧ main_thread g' = main_thread g
  ∧ world g' = snd (_release_camera (world g)).
Proof.
  intros Hts. cbn [session]. rewrite (switch_alone _ _ Hts).
  by rewrite (switch_alone Returned).
Qed.

(** A turn of the loop leaves the camera field as it is. *)
Lemma one_turn_camera turn start_time detected_codes w :
  camera (self match one_turn clock turn 0 true start_time detected_codes w with
               | inl (_, w') => w'
               | inr (_, w') => w'
               end)
  = camera (self w).
Proof.
  rewrite <- one_turn_frame_loop.
  destruct (frame_loop clock [turn] 0 true start_time detected_codes w)
    as [r w'] eqn:Hrun.
  by apply frame_loop_collects in Hrun
    as (kept & _ & _ & _ & _ & _ & Hcam & _).
Qed.

(** A thread in the loop that is given every turn comes to its end, and
    the world is then as the rest of [scan_webcam] leaves it. *)
Lemma loop_alone frames : ∀ start_time detected_codes g,
  threads g = [InLoop start_time detected_codes] →
  stream g = frames →
  is_Some (camera (self (world g))) →
  ∃ n,
    let g' := session clock isoformat strftime fs writable
                (replicate n (Switch 0)) g in
    threads g' = []
    ∧ main_thread g' = main_thread g
    ∧ world g'
      = snd (try_except
               (frame_loop clock frames 0 true start_time detected_codes ;;;
                _release_camera ;;;
                let! s := get_self in
                ret (results s))
               scan_failed (world g)).
Proof.
  induction frames as [|turn rest IH]; intros st D g Hts Hfeed [cam Hcam].
  - exists 3. cbn [replicate session]. rewrite (switch_alone _ _ Hts).
    unfold scan_thread. cbv zeta. rewrite Hcam, Hfeed. cbn [fst snd].
    destruct (loop_left_alone (set_threads [LoopLeft] g) eq_refl)
      as (Hthreads & Hmain & Hworld).
    cbn [session] in Hthreads, Hmain, Hworld.
    split; [exact Hthreads|]. split; [exact Hmain|]. rewrite Hworld.
    cbn [set_threads world]. unfold try_except, bind. simpl.
    destruct (_release_camera_run (world g)) as (w' & Hrel & _).
    unfold _release_camera, bind in *. simpl in *. by rewrite Hrel.
  - pose proof (frame_loop_cons clock turn rest 0 true st D (world g)) as Hcons.
    pose proof (one_turn_camera turn st D (world g)) as Hkept.
    pose proof (switch_alone _ _ Hts) as Hstep.
    unfold scan_thread in Hstep. cbv zeta in Hstep.
    rewrite Hcam, Hfeed in Hstep.
    destruct (one_turn clock turn 0 true st D (world g))
      as [[[[]|[msg|]] w']|[D' w']] eqn:Hturn; cbn [fst snd] in Hstep.
    + exists 3. cbn [replicate session]. rewrite Hstep.
      destruct (loop_left_alone
                  (set_threads [LoopLeft] (set_stream rest (set_world w' g)))
                  eq_refl)
        as (Hthreads & Hmain & Hworld).
      cbn [session] in Hthreads, Hmain, Hworld.
      split; [exact Hthreads|]. split; [exact Hmain|]. rewrite Hworld.
      cbn [set_threads set_stream set_world world]. unfold try_except, bind at 1.
      rewrite Hcons. unfold bind at 1.
      destruct (_release_camera_run w') as (w2 & Hrel & _).
      by rewrite Hrel.
    + exists 2. cbn [replicate session]. rewrite Hstep.
      destruct (returned_alone
                  (set_threads [Returned]
                     (set_stream rest
                        (set_world (snd (scan_failed msg w')) g))) eq_refl)
        as (Hthreads & Hmain & Hworld).
      cbn [session] in Hthreads, Hmain, Hworld.
      split; [exact Hthreads|]. split; [exact Hmain|]. rewrite Hworld.
      cbn [set_threads set_stream set_world world].
      unfold try_except, bind at 1.
      by rewrite Hcons.
    + exists 1. cbn [replicate session]. rewrite Hstep.
      split; [done|]. split; [done|].
      cbn [set_threads set_stream set_world world].
      unfold try_except, bind at 1.
      by rewrite Hcons.
    + destruct (IH st D'
                  (set_threads [InLoop st D']
                     (set_stream rest (set_world w' g))) eq_refl eq_refl)
        as (n & Hn).
      { cbn [set_threads set_stream set_world world]. by rewrite Hkept, Hcam. }
      exists (S n). cbn [replicate session]. rewrite Hstep.
      cbv zeta in Hn. destruct Hn as (Hthreads & Hmain & Hworld).
      split; [exact Hthreads|]. split; [exact Hmain|].
      rewrite Hworld. cbn [set_threads set_stream set_world world].
      symmetry. f_equal. by apply try_bind_same.
Qed.

(** A scan thread that is given every turn does what
    [scan_webcam(duration=0, show_preview=True)] does. *)
Lemma scan_thread_alone dev g :
  threads g = [] → main_thread g = Idle → scanning g = false →
  ∃ n,
    let g' := session clock isoformat strftime fs writable
                (Click (ScanWebcam dev) :: replicate n (Switch 0)) g in
    threads g' = []
    ∧ main_thread g' = Idle
    ∧ world g' = snd (Scanner.scan_webcam clock dev 0 true (world g)).
Proof.
  intros Hts Hmain Hflag.
  assert (step clock isoformat strftime fs writable (Click (ScanWebcam dev)) g
          = set_threads [Created dev] g) as Hclick.
  { unfold step. rewrite Hmain. simpl. unfold scan_webcam.
    by rewrite Hflag, Hts. }
  set (g1 := set_threads [Entered dev] (set_scanning true g)).
  assert (∃ n,
            let g' := session clock isoformat strftime fs writable
                        (replicate n (Switch 0)) g1 in
            threads g' = [] ∧ main_thread g' = Idle
            ∧ world g' = snd (Scanner.scan_webcam clock dev 0 true (world g)))
    as (n & Hn).
  { pose proof (switch_alone (Entered dev) g1 eq_refl) as Hstep.
    unfold scan_thread in Hstep. cbv zeta in Hstep.
    unfold Scanner.scan_webcam, open_camera.
    destruct (opening dev) as [[|]|[msg|]] eqn:Hopen; cbn [negb fst snd] in Hstep.
    - match type of Hstep with
      | _ = set_threads [InLoop ?st ?D] ?g2 =>
          destruct (loop_alone (feed dev) st D
                      (set_threads [InLoop st D] g2) eq_refl eq_refl)
            as (n & Hthreads & Hmain' & Hworld); [by eexists|]
      end.
      exists (S n). cbn [replicate session]. rewrite Hstep.
      split; [exact Hthreads|]. split; [by rewrite Hmain'|].
      rewrite Hworld. subst g1.
      cbn [set_threads set_stream set_world set_scanning world].
      unfold try_except, bind. simpl.
      by destruct (frame_loop clock (feed dev) 0 true _ ∅ _) as [[[]|[m|]] w3].
    - exists 2. cbn [replicate session]. rewrite Hstep.
      by rewrite (switch_alone Returned).
    - exists 2. cbn [replicate session]. rewrite Hstep.
      rewrite (switch_alone Returned); [|done]. simpl.
      split; [done|]. split; [done|]. reflexivity.
    - exists 1. cbn [replicate session]. by rewrite Hstep. }
  exists (S n). cbn [replicate session]. rewrite Hclick.
  by rewrite (switch_alone (Created dev)).
Qed.

(** *** Sessions in which the threads do not overlap *)

Lemma stamped_grows w w' :
  grows clock w w' →
  stamped clock 0 (ticks w) (results (self w)) →
  stamped clock 0 (ticks w') (results (self w')).
Proof.
  intros (Hticks & more & Hres & Hst) Hinv. rewrite Hres.
  eapply stamped_app; [| |exact Hinv|exact Hst]; lia.
Qed.

Lemma in_order_idle g :
  main_thread g = Idle → in_order clock g →
  stamped clock 0 (ticks (world g)) (results (self (world g))).
Proof.
  intros Hmain [Hinv _]. rewrite Hmain in Hinv. simpl in Hinv.
  by rewrite app_nil_r in Hinv.
Qed.

Lemma in_order_scanned (scan : M (list record)) g :
  (∀ w r w', scan w = (r, w') →
             self w' = self w ∧ ticks w ≤ ticks w'
             ∧ ∃ rs, r = Ret rs ∧ stamped clock (ticks w) (ticks w') rs) →
  main_thread g = Idle → threads g = [] → in_order clock g →
  in_order clock
    match scan (world g) with
    | (Ret codes, w') => set_main_thread (Extending codes) (set_world w' g)
    | (Raise _, w') => set_world w' g
    end.
Proof.
  intros Hscan Hmain Hts Hinv. apply in_order_idle in Hinv; [|done].
  destruct (scan (world g)) as [r w'] eqn:Hrun.
  apply Hscan in Hrun as (Hself & Hticks & codes & -> & Hst).
  split; [|done]. simpl. rewrite Hself.
  eapply stamped_app; [| |exact Hinv|exact Hst]; lia.
Qed.

(** A step keeps the order, when an action is taken only while no scan
    thread is alive. *)
Lemma step_in_order e g :
  match e, threads g with
  | Click _, _ :: _ => False
  | _, _ => True
  end →
  in_order clock g →
  in_order clock (step clock isoformat strftime fs writable e g).
Proof.
  intros Halone Hinv. destruct e as [a| |i]; unfold step.
  - destruct (main_thread g) eqn:Hmain; try done.
    pose proof (in_order_idle g Hmain Hinv) as Hst.
    destruct (threads g) as [|t ts] eqn:Hts; [|done].
    destruct a as [dev|[filename|]|[directory|]| |filename]; simpl dispatch;
      try done.
    + unfold scan_webcam. destruct (scanning g); [done|].
      split; simpl; rewrite Hmain; simpl; [by rewrite app_nil_r|done].
    + apply (in_order_scanned (scan_image clock fs filename)); try done.
      intros w r w'. apply scan_image_scans.
    + apply (in_order_scanned (Scanner.scan_directory clock fs directory true));
        try done.
      intros w r w'. apply scan_directory_scans.
    + split; simpl; rewrite Hmain; simpl; [apply stamped_nil|done].
    + unfold export_results.
      assert (in_order clock (set_main_thread (Saving filename) g)).
      { split; simpl; [by rewrite app_nil_r|done]. }
      by destruct (results (self (world g))).
  - unfold resume.
    destruct (main_thread g) as [|codes|filename] eqn:Hmain; [done| |].
    + destruct Hinv as [Hinv _]. rewrite Hmain in Hinv. simpl in Hinv.
      split; simpl; [by rewrite app_nil_r|done].
    + assert (stamped clock 0 (ticks (world g)) (results (self (world g))))
        as Hst.
      { destruct Hinv as [Hinv _]. rewrite Hmain in Hinv. simpl in Hinv.
        by rewrite app_nil_r in Hinv. }
      assert (in_order clock (set_main_thread Idle g)) as Hidle.
      { split; simpl; [by rewrite app_nil_r|done]. }
      destruct (truthy filename); [|done].
      destruct filename as [f|]; [|done].
      split; [|done]. simpl. rewrite app_nil_r.
      destruct (untouched_export clock isoformat strftime writable f (world g))
        as [Hself Hticks].
      rewrite Hself. eapply stamped_weaken; [| |exact Hst]; lia.
  - destruct (threads g !! i) as [t|] eqn:Ht; [|done]. cbv zeta.
    destruct Hinv as [Hinv Hnone].
    destruct (in_hand (main_thread g)) as [|r rs] eqn:Hhand.
    2:{ rewrite Hnone in Ht; done. }
    rewrite app_nil_r in Hinv.
    split; simpl; rewrite scan_thread_main_thread, Hhand; [|done].
    rewrite app_nil_r.
    by apply (stamped_grows (world g)); [apply scan_thread_grows|].
Qed.

Lemma session_in_order events : ∀ g,
  one_at_a_time clock isoformat strftime fs writable events g = true →
  in_order clock g →
  in_order clock (session clock isoformat strftime fs writable events g).
Proof.
  induction events as [|e rest IH]; intros g Halone Hinv; [done|].
  cbn [session]. cbn [one_at_a_time] in Halone. apply IH.
  - by destruct e, (threads g).
  - apply step_in_order; [|done]. by destruct e, (threads g).
Qed.

(** *** Files written *)

(** A step writes a file only when it resumes an export in whose dialog
    a name was chosen, and then one at most. *)
Lemma step_writes e g :
  ∃ docs,
    written (world (step clock isoformat strftime fs writable e g))
    = written (world g) ++ docs
    ∧ length docs
      + chosen (main_thread (step clock isoformat strftime fs writable e g))
      ≤ chosen (main_thread g) + saves [e].
Proof.
  assert (∀ g' : App,
            written (world g') = written (world g) →
            chosen (main_thread g') ≤ chosen (main_thread g) + saves [e] →
            ∃ docs, written (world g') = written (world g) ++ docs
                    ∧ length docs + chosen (main_thread g')
                      ≤ chosen (main_thread g) + saves [e]) as Hsame.
  { intros g' Hwr Hch. exists []. by rewrite app_nil_r. }
  destruct e as [a| |i]; unfold step.
  - destruct (main_thread g) eqn:Hmain;
      try (apply Hsame; [done|rewrite Hmain; simpl; lia]).
    destruct a as [dev|[filename|]|[directory|]| |filename]; simpl dispatch;
      try (apply Hsame; [done|rewrite ?Hmain; simpl; lia]).
    + unfold scan_webcam. destruct (scanning g);
        (apply Hsame; [done|simpl; rewrite Hmain; simpl; lia]).
    + pose proof (silent_scan_image clock fs filename (world g)) as [_ Hwr].
      destruct (scan_image clock fs filename (world g)) as [[codes|e] w'];
        (apply Hsame; [done|simpl; rewrite ?Hmain; simpl; lia]).
    + pose proof (silent_scan_directory clock fs directory true (world g))
        as [_ Hwr].
      destruct (Scanner.scan_directory clock fs directory true (world g))
        as [[codes|e] w'];
        (apply Hsame; [done|simpl; rewrite ?Hmain; simpl; lia]).
    + apply Hsame; [done|simpl; rewrite ?Hmain; simpl; lia].
    + unfold export_results. destruct (results (self (world g)));
        (apply Hsame; [done|]); unfold saves; simpl; rewrite ?Hmain; simpl;
        destruct (truthy filename); simpl; lia.
  - unfold resume. destruct (main_thread g) as [|codes|filename] eqn:Hmain;
      try (apply Hsame; [done|simpl; rewrite ?Hmain; simpl; lia]).
    destruct (truthy filename) eqn:Htruthy;
      [|apply Hsame; [done|simpl; lia]].
    destruct filename as [f|]; [|done].
    destruct (export_ends clock isoformat strftime writable f (world g))
      as (_ & _ & _ & (docs & Hdocs & Hlen) & _).
    exists docs. split; [exact Hdocs|]. simpl in *. rewrite Htruthy. simpl. lia.
  - destruct (threads g !! i) as [t|]; [|apply Hsame; [done|lia]]. cbv zeta.
    apply Hsame.
    + by destruct (scan_thread_silent t g) as [_ Hwr].
    + simpl. rewrite scan_thread_main_thread. lia.
Qed.

End Threads.

End ShellFacts.

(** ** Facts about failures *)

Module FailureFacts.

Import Stmt StmtFacts Scanner Vocabulary ScannerFacts ScannerNotions
  ScannerBehaviourFacts FailureVocabulary.
Local Open Scope py_scope.
Local Open Scope nat_scope.

Global Instance quietly_refl : Reflexive quietly.
Proof. intros w. exists []. by rewrite app_nil_r. Qed.

Global Instance quietly_trans : Transitive quietly.
Proof.
  intros w1 w2 w3 (m1 & H1 & F1) (m2 & H2 & F2). exists (m1 ++ m2).
  split; [by rewrite H2, H1, app_assoc|].
  by rewrite List.filter_app, F1, F2.
Qed.

Lemma quietly_same {A} (m : M A) :
  (∀ w, log (snd (m w)) = log w) → along quietly m.
Proof. intros Hm w. exists []. by rewrite Hm, app_nil_r. Qed.

Lemma quietly_now clock : along quietly (now clock).
Proof. by apply quietly_same. Qed.

Lemma quietly_update_self f : along quietly (update_self f).
Proof. by apply quietly_same. Qed.

Lemma quietly_info msg : along quietly (logger INFO msg).
Proof. intros w. by exists [(INFO, msg)]. Qed.

Lemma quietly_get_self {A} (k : QRCodeScanner -> M A) :
  (∀ s, along quietly (k s)) → along quietly (bind get_self k).
Proof. intros Hk w. apply (Hk (self w) w). Qed.

Create HintDb quietly.
Hint Resolve quietly_now quietly_update_self quietly_info : quietly.

Ltac quietly :=
  repeat first
    [ solve [auto with quietly]
    | apply (along_ret quietly)
    | apply (along_raise quietly)
    | apply quietly_get_self; intros ?
    | apply (along_bind quietly); [|intros ?]
    | match goal with
      | |- along quietly (match ?x with _ => _ end) => destruct x
      | |- along quietly (if ?b then _ else _) => destruct b
      end ].

Lemma errors_logged_app w w' more :
  log w' = log w ++ more →
  errors_logged w w' = length (List.filter is_error more).
Proof. intros Hlog. unfold errors_logged. by rewrite Hlog, drop_app_length. Qed.

Lemma quietly_no_errors w w' : quietly w w' → errors_logged w w' = 0.
Proof.
  intros (more & Hlog & Hnone). by rewrite (errors_logged_app _ _ _ Hlog), Hnone.
Qed.

(** One ERROR line after a stretch without any. *)
Lemma quietly_then_error w w1 w' msg :
  quietly w w1 → log w' = log w1 ++ [(ERROR, msg)] → errors_logged w w' = 1.
Proof.
  intros (more & Hlog & Hnone) Hlog'.
  rewrite (errors_logged_app w w' (more ++ [(ERROR, msg)])).
  - by rewrite List.filter_app, Hnone.
  - by rewrite Hlog', Hlog, app_assoc.
Qed.

Lemma try_ret {S A B} (m : Stmt.M S A) (k : A -> Stmt.M S B) h w a w' :
  m w = (Ret a, w') → try_except (bind m k) h w = try_except (k a) h w'.
Proof. intros Hm. unfold try_except, bind. by rewrite Hm. Qed.

Lemma try_exception {S A B} (m : Stmt.M S A) (k : A -> Stmt.M S B) h w msg w' :
  m w = (Raise (Exception msg), w') → try_except (bind m k) h w = h msg w'.
Proof. intros Hm. unfold try_except, bind. by rewrite Hm. Qed.

Lemma try_interrupt {S A B} (m : Stmt.M S A) (k : A -> Stmt.M S B) h w w' :
  m w = (Raise KeyboardInterrupt, w') →
  try_except (bind m k) h w = (Raise KeyboardInterrupt, w').
Proof. intros Hm. unfold try_except, bind. by rewrite Hm. Qed.

Section Scanning.

Variable clock : nat -> datetime.
Variable fs : node.

Lemma quietly_decode_each codes source :
  ∀ acc, along quietly (decode_each clock codes source acc).
Proof. induction codes as [|code rest IH]; intros acc; simpl; quietly. Qed.

Lemma quietly_decode_qr_codes img source :
  along quietly (_decode_qr_codes clock img source).
Proof.
  unfold _decode_qr_codes, pyzbar_decode.
  destruct img; quietly; apply quietly_decode_each.
Qed.

Lemma quietly_keep_new codes : ∀ D, along quietly (keep_new codes D).
Proof.
  induction codes as [|code rest IH]; intros D; simpl; quietly;
    apply quietly_update_self.
Qed.

Lemma quietly_release_camera : along quietly _release_camera.
Proof. unfold _release_camera. quietly; apply quietly_update_self. Qed.

Hint Resolve quietly_decode_qr_codes quietly_keep_new quietly_release_camera
  : quietly.

(** The loop of [scan_webcam] logs no error itself. *)
Lemma quietly_frame_loop duration show_preview start_time frames :
  ∀ D, along quietly
         (frame_loop clock frames duration show_preview start_time D).
Proof. induction frames as [|turn rest IH]; intros D; simpl; quietly. Qed.

(** [scan_webcam] once the camera is open. *)
Lemma scan_webcam_opened dev duration show_preview w :
  opening dev = Ret true →
  scan_webcam clock dev duration show_preview w
  = try_except
      (frame_loop clock (feed dev) duration show_preview (clock (ticks w)) ∅ ;;;
       _release_camera ;;;
       let! s := get_self in
       ret (results s))
      (fun msg =>
         logger ERROR ("Error during webcam scan: " +:+ msg) ;;;
         _release_camera ;;;
         ret [])
      {| self := {| output_file := output_file (self w);
                    results := results (self w);
                    camera := Some {| isOpened := true |} |};
         ticks := S (ticks w);
         log := log w ++ [(INFO, "Starting webcam scan... Press 'q' to quit")];
         stdout := stdout w; written := written w |}.
Proof.
  intros Hopen. unfold scan_webcam, open_camera. rewrite Hopen. reflexivity.
Qed.

(** Whatever goes wrong in [scan_webcam] is logged as one error and
    turned into the empty list; no [Exception] leaves the call. *)
Lemma scan_webcam_failures dev duration show_preview w :
  let run := scan_webcam clock dev duration show_preview w in
  failed (fst run) = false
  ∧ (errors_logged w (snd run) = 0
     ∨ (errors_logged w (snd run) = 1 ∧ fst run = Ret [])).
Proof.
  cbv zeta. destruct (opening dev) as [[|]|[msg|]] eqn:Hopen.
  - (* the camera opens *)
    rewrite (scan_webcam_opened _ _ _ _ Hopen).
    set (w2 := {| self := _; ticks := S (ticks w); log := _;
                  stdout := stdout w; written := written w |}).
    assert (quietly w w2) as Hq2.
    { by exists [(INFO, "Starting webcam scan... Press 'q' to quit")]. }
    pose proof (quietly_frame_loop duration show_preview (clock (ticks w))
                  (feed dev) ∅ w2) as Hloop.
    destruct (frame_loop clock (feed dev) duration show_preview
                (clock (ticks w)) ∅ w2) as [[[]|[msg|]] w3] eqn:Hrun;
      simpl in Hloop.
    + rewrite (try_ret _ _ _ _ _ _ Hrun).
      destruct (_release_camera_run w3)
        as (w4 & Hrel & _ & _ & _ & _ & Hlog4 & _).
      rewrite (try_ret _ _ _ _ _ _ Hrel). simpl. split; [done|]. left.
      apply quietly_no_errors. etrans; [exact Hq2|]. etrans; [exact Hloop|].
      exists []. by rewrite Hlog4, app_nil_r.
    + rewrite (try_exception _ _ _ _ _ _ Hrun). unfold bind. simpl.
      match goal with |- context [_release_camera ?w4] =>
        destruct (_release_camera_run w4)
          as (w5 & Hrel & _ & _ & _ & _ & Hlog5 & _)
      end.
      rewrite Hrel. simpl. split; [done|]. right. split; [|done].
      apply (quietly_then_error w w3 w5
               ("Error during webcam scan: " +:+ msg)).
      * by etrans.
      * by rewrite Hlog5.
    + rewrite (try_interrupt _ _ _ _ _ Hrun).
      simpl. split; [done|]. left. apply quietly_no_errors. by etrans.
  - (* the camera does not open *)
    unfold scan_webcam, try_except, open_camera. rewrite Hopen.
    simpl. split; [done|]. right. split; [|done].
    by apply (errors_logged_app w _ [(ERROR, "Failed to open camera")]).
  - (* opening the camera raises *)
    unfold scan_webcam, try_except, open_camera. rewrite Hopen.
    unfold bind. simpl.
    match goal with |- context [_release_camera ?w4] =>
      destruct (_release_camera_run w4)
        as (w5 & Hrel & _ & _ & _ & _ & Hlog5 & _)
    end.
    rewrite Hrel. simpl. split; [done|]. right. split; [|done].
    apply (quietly_then_error w w w5 ("Error during webcam scan: " +:+ msg));
      [reflexivity|by rewrite Hlog5].
  - unfold scan_webcam, try_except, open_camera. rewrite Hopen.
    simpl. split; [done|]. left. by apply quietly_no_errors.
Qed.

(** A camera that does not open, or whose opening raises: the empty
    list and one error line; no frame is read and the clock is not
    consulted. *)
Lemma scan_webcam_unopened dev duration show_preview w :
  opening dev = Ret false ∨ (∃ msg, opening dev = Raise (Exception msg)) →
  ∃ msg w',
    scan_webcam clock dev duration show_preview w = (Ret [], w')
    ∧ results (self w') = results (self w)
    ∧ ticks w' = ticks w ∧ stdout w' = stdout w ∧ written w' = written w
    ∧ log w' = log w ++ [(ERROR, msg)].
Proof.
  intros [Hopen|[msg Hopen]]; unfold scan_webcam, try_except, open_camera;
    rewrite Hopen.
  - eexists _, _. simpl. split; [reflexivity|]. by simpl.
  - unfold bind. simpl.
    match goal with |- context [_release_camera ?w4] =>
      destruct (_release_camera_run w4)
        as (w5 & Hrel & _ & Hres & _ & Hticks & Hlog5 & Hout & Hwr)
    end.
    rewrite Hrel. simpl. eexists _, w5. split; [reflexivity|].
    by rewrite Hres, Hticks, Hlog5, Hout, Hwr.
Qed.

(** An exception in the loop of [scan_webcam]: one error line that names
    it, the camera released, and the empty list; what the loop did before
    stays. *)
Lemma scan_webcam_loop_raises dev duration show_preview w msg w3 :
  opening dev = Ret true →
  frame_loop clock (feed dev) duration show_preview (clock (ticks w)) ∅
    (started clock w) = (Raise (Exception msg), w3) →
  ∃ w',
    scan_webcam clock dev duration show_preview w = (Ret [], w')
    ∧ camera (self w') = None
    ∧ results (self w') = results (self w3)
    ∧ ticks w' = ticks w3 ∧ stdout w' = stdout w3 ∧ written w' = written w3
    ∧ log w' = log w3 ++ [(ERROR, "Error during webcam scan: " +:+ msg)].
Proof.
  intros Hopen Hrun. rewrite (scan_webcam_opened _ _ _ _ Hopen).
  change {| self := _; ticks := S (ticks w); log := _;
            stdout := stdout w; written := written w |}
    with (started clock w).
  rewrite (try_exception _ _ _ _ _ _ Hrun). unfold bind. simpl.
  match goal with |- context [_release_camera ?w4] =>
    destruct (_release_camera_run w4)
      as (w5 & Hrel & Hcam & Hres & _ & Hticks & Hlog5 & Hout & Hwr)
  end.
  rewrite Hrel. simpl. exists w5. split; [reflexivity|].
  by rewrite Hcam, Hres, Hticks, Hlog5, Hout, Hwr.
Qed.

(** A picture that loads and cannot be decoded: the empty list and one
    error line. *)
Lemma scan_image_undecodable image_path img w :
  imread fs image_path = Some img →
  undecodable img = true →
  ∃ msg w',
    scan_image clock fs image_path w = (Ret [], w')
    ∧ self w' = self w ∧ stdout w' = stdout w ∧ written w' = written w
    ∧ log w' = log w ++ [(ERROR, msg)].
Proof.
  intros Hread Hbad. unfold scan_image, try_except.
  assert (exists_ fs image_path = true) as Hex.
  { unfold exists_, imread in *. by destruct (resolve image_path fs). }
  destruct img as [found|why]; simpl in Hbad; rewrite Hex, Hread; simpl.
  - unfold _decode_qr_codes, bind at 1. simpl.
    destruct (decode_each_undecodable clock found (str_of_path image_path) [] w)
      as (w' & Hrun & Hself & Hlog & Hout & Hwr).
    { by apply negb_true_iff. }
    rewrite Hrun. unfold bind. simpl. eexists _, _. split; [reflexivity|].
    simpl. by rewrite Hlog.
  - eexists _, _. split; [reflexivity|]. by simpl.
Qed.

Lemma scan_directory_missing directory recursive w :
  exists_ fs directory = false →
  ∃ w',
    scan_directory clock fs directory recursive w = (Ret [], w')
    ∧ logged w [(ERROR, "Directory not found: " +:+ str_of_path directory)] w'.
Proof.
  intros Hmissing. unfold scan_directory. rewrite Hmissing. simpl.
  eexists. split; [reflexivity|]. by repeat split.
Qed.

End Scanning.

End FailureFacts.

(** ** The properties of the graphical shell *)

Module ShellProperties.

Import Stmt StmtFacts Scanner Vocabulary ScannerFacts ScannerNotions
  ScannerBehaviourFacts QRScannerGUI ShellVocabulary ShellFacts.
Local Open Scope py_scope.



(** *** The properties at sample inputs *)

Lemma in_turn_one_at_a_time :
  one_at_a_time Examples.clock Examples.isoformat Examples.strftime
    Examples.pictures Examples.writable in_turn launch = true.
Proof. vm_compute. reflexivity. Qed.



End ShellProperties.

(** ** The properties of failures *)

Module FailureProperties.

Import Stmt StmtFacts Commits CommitsVocabulary CommitsFacts FailureWorlds.
Local Open Scope py_scope.


(** *** The properties at sample inputs *)



End FailureProperties.
